(** * wwplugin: plugin host lifecycle, registry and call routing

    A shallow embedding of the host side ([host.go], the host service of the
    inbound RPC endpoint, [types.go]) and of the plugin's inbound call
    handler ([plugin.go]).

    Conventions of the embedding:
    - a [*PluginInfo] is a location in [heap]; the registry maps plugin
      IDs to locations, so a record re-keyed or overwritten in the registry
      is still the same object for the goroutine that holds its pointer;
    - [int] and [time.Duration] are 64-bit: [wrap64] is written where the
      source does arithmetic on them; a [time.Time] is a number of
      nanoseconds;
    - everything the process asks of its environment (clock, process
      spawning, sockets, the remote plugin) is answered by a [World], and
      recorded in the host's [trace];
    - a nil dereference or an index out of range is the outcome [Panic];
    - every function is embedded twice: as the state transformer of a
      call that runs from its start to its end with no other goroutine in
      between, and as a goroutine that takes one step for each access to
      the memory it shares with the others. The runs of the host
      interleave the steps of its goroutines; a goroutine that runs alone
      does what the state transformer does ([goroutine_alone]). *)

From stdpp Require Import base gmap list strings pretty.
From Stdlib Require Import ZArith Lia.

#[local] Open Scope Z_scope.

(** ** Machine integers and time *)

Definition int64_min : Z := - 2 ^ 63.
Definition int64_max : Z := 2 ^ 63 - 1.

Definition in_int64 (z : Z) : Prop := int64_min <= z <= int64_max.

(** Two's complement wrap-around of a 64-bit signed result. *)
Definition wrap64 (z : Z) : Z := (z + 2 ^ 63) mod 2 ^ 64 - 2 ^ 63.

(** [time.Time] as nanoseconds since the epoch, [time.Duration] as int64
    nanoseconds. *)
Abbreviation Time := Z.
Abbreviation Duration := Z.

Definition Nanosecond : Duration := 1.
Definition Second : Duration := 1000000000.

(** [Time.Sub]: the difference, saturated to the range of a Duration. *)
Definition Time_Sub (t u : Time) : Duration :=
  let d := t - u in
  if d <? int64_min then int64_min
  else if int64_max <? d then int64_max
  else d.

(** [Duration * Duration] in Go. *)
Definition Duration_mul (a b : Duration) : Duration := wrap64 (a * b).

Definition Time_Unix (t : Time) : Z := t / Second.
Definition Time_UnixNano (t : Time) : Z := wrap64 t.

(** ** Outcomes of a call *)

Inductive Outcome (A : Type) : Type :=
| Done (a : A)
| Panic (msg : string)
| OutOfFuel.
Arguments Done {A} a.
Arguments Panic {A} msg.
Arguments OutOfFuel {A}.

(** ** Wire messages *)

(** Modelled from the spec: the generated [proto] package is not part of
    the sources; the messages have the fields that section 6 of the
    specification lists and that the handlers read and write. *)
Module proto.

Inductive ParameterType :=
| ParameterType_STRING
| ParameterType_INT
| ParameterType_FLOAT
| ParameterType_JSON.

Module Param.
Record t := mk { Name : string; Type_ : ParameterType; Value : string }.
End Param.

Module CallRequest.
Record t := mk {
  FunctionName : string;
  Parameters : list Param.t;
  RequestId : string;
  Metadata : gmap string string
}.
End CallRequest.

Module CallResponse.
Record t := mk {
  Success : bool;
  Message : string;
  Result : option Param.t;
  ErrorCode : string;
  RequestId : string
}.
End CallResponse.

Module RegisterRequest.
Record t := mk {
  PluginId : string;
  PluginName : string;
  Version : string;
  Description : string;
  Port : Z;
  Capabilities : list string
}.
End RegisterRequest.

Module RegisterResponse.
Record t := mk { Success : bool; Message : string; HostId : string }.
End RegisterResponse.

Module HeartbeatRequest.
Record t := mk { PluginId : string; Timestamp : Z; Status : string }.
End HeartbeatRequest.

Module HeartbeatResponse.
Record t := mk { Success : bool; Message : string; ServerTimestamp : Z }.
End HeartbeatResponse.

End proto.
Import proto.

(** A Go [error] is its text; [None] is the nil error. *)
Abbreviation error := (option string).

(** What a [HostFunction] or [PluginFunction] returns: a pointer to
    a Parameter (possibly nil) and an error. *)
Abbreviation FnResult := (option Param.t * error)%type.

(** A function value; [None] is the nil func, and calling it panics. *)
Abbreviation GoFunc := (option (list Param.t → FnResult)).
Abbreviation PluginFunction := GoFunc.
Abbreviation HostFunction := GoFunc.

(** ** types.go *)

Inductive PluginStatus :=
| StatusStopped
| StatusStarting
| StatusRunning
| StatusStopping
| StatusError
| StatusCrashed.

#[global] Instance PluginStatus_eq_dec : EqDecision PluginStatus.
Proof. solve_decision. Defined.

Definition PluginStatus_string (s : PluginStatus) : string :=
  match s with
  | StatusStopped => "stopped"
  | StatusStarting => "starting"
  | StatusRunning => "running"
  | StatusStopping => "stopping"
  | StatusError => "error"
  | StatusCrashed => "crashed"
  end.

(** Handles of operating-system and gRPC objects. *)
Abbreviation Pid := nat.
Abbreviation ConnId := nat.
(** A [*PluginInfo]: the index of the object in the host's [heap]. *)
Abbreviation loc := nat.

Record PluginInfo := mkPluginInfo {
  ID : string;
  Name : string;
  Version : string;
  Description : string;
  Port : Z;
  Capabilities : list string;
  Functions : list string;
  ExecutablePath : string;
  Process : option Pid;
  Command : option Pid;
  Client : option ConnId;
  Connection : option ConnId;
  Status : PluginStatus;
  StartTime : Time;
  LastHeartbeat : Time;
  AutoRestart : bool;
  MaxRestarts : Z;
  RestartCount : Z
}.

Record PluginBasicInfo := mkPluginBasicInfo {
  bi_ID : string;
  bi_Name : string;
  bi_Version : string;
  bi_Description : string;
  bi_Logo : string;
  bi_Capabilities : list string;
  bi_Functions : list string
}.

Record HostConfig := mkHostConfig {
  cfg_Port : Z;
  PortRange : list Z;
  DebugMode : bool;
  LogLevel : string;
  LogDir : string;
  HeartbeatInterval : Duration;
  MaxHeartbeatMiss : Z;
  AutoRestartPlugin : bool;
  EnablePluginReconnect : bool
}.

Definition DefaultHostConfig : HostConfig :=
  {| cfg_Port := 0;
     PortRange := [50051; 50100];
     DebugMode := true;
     LogLevel := "info";
     LogDir := "./logs";
     HeartbeatInterval := 10 * Second;
     MaxHeartbeatMiss := 3;
     AutoRestartPlugin := true;
     EnablePluginReconnect := true |}.

(** Assignments to the fields of a record: [set_F x p] is [p] after [p.F = x]. *)
Definition set_ID (x : string) (p : PluginInfo) : PluginInfo :=
  mkPluginInfo x (Name p) (Version p) (Description p) (Port p)
    (Capabilities p) (Functions p) (ExecutablePath p) (Process p)
    (Command p) (Client p) (Connection p) (Status p) (StartTime p)
    (LastHeartbeat p) (AutoRestart p) (MaxRestarts p) (RestartCount p).
Definition set_Name (x : string) (p : PluginInfo) : PluginInfo :=
  mkPluginInfo (ID p) x (Version p) (Description p) (Port p)
    (Capabilities p) (Functions p) (ExecutablePath p) (Process p)
    (Command p) (Client p) (Connection p) (Status p) (StartTime p)
    (LastHeartbeat p) (AutoRestart p) (MaxRestarts p) (RestartCount p).
Definition set_Version (x : string) (p : PluginInfo) : PluginInfo :=
  mkPluginInfo (ID p) (Name p) x (Description p) (Port p)
    (Capabilities p) (Functions p) (ExecutablePath p) (Process p)
    (Command p) (Client p) (Connection p) (Status p) (StartTime p)
    (LastHeartbeat p) (AutoRestart p) (MaxRestarts p) (RestartCount p).
Definition set_Description (x : string) (p : PluginInfo) : PluginInfo :=
  mkPluginInfo (ID p) (Name p) (Version p) x (Port p)
    (Capabilities p) (Functions p) (ExecutablePath p) (Process p)
    (Command p) (Client p) (Connection p) (Status p) (StartTime p)
    (LastHeartbeat p) (AutoRestart p) (MaxRestarts p) (RestartCount p).
Definition set_Port (x : Z) (p : PluginInfo) : PluginInfo :=
  mkPluginInfo (ID p) (Name p) (Version p) (Description p) x
    (Capabilities p) (Functions p) (ExecutablePath p) (Process p)
    (Command p) (Client p) (Connection p) (Status p) (StartTime p)
    (LastHeartbeat p) (AutoRestart p) (MaxRestarts p) (RestartCount p).
Definition set_Capabilities (x : list string) (p : PluginInfo) : PluginInfo :=
  mkPluginInfo (ID p) (Name p) (Version p) (Description p) (Port p)
    x (Functions p) (ExecutablePath p) (Process p)
    (Command p) (Client p) (Connection p) (Status p) (StartTime p)
    (LastHeartbeat p) (AutoRestart p) (MaxRestarts p) (RestartCount p).
Definition set_Process (x : option Pid) (p : PluginInfo) : PluginInfo :=
  mkPluginInfo (ID p) (Name p) (Version p) (Description p) (Port p)
    (Capabilities p) (Functions p) (ExecutablePath p) x
    (Command p) (Client p) (Connection p) (Status p) (StartTime p)
    (LastHeartbeat p) (AutoRestart p) (MaxRestarts p) (RestartCount p).
Definition set_Command (x : option Pid) (p : PluginInfo) : PluginInfo :=
  mkPluginInfo (ID p) (Name p) (Version p) (Description p) (Port p)
    (Capabilities p) (Functions p) (ExecutablePath p) (Process p)
    x (Client p) (Connection p) (Status p) (StartTime p)
    (LastHeartbeat p) (AutoRestart p) (MaxRestarts p) (RestartCount p).
Definition set_Client (x : option ConnId) (p : PluginInfo) : PluginInfo :=
  mkPluginInfo (ID p) (Name p) (Version p) (Description p) (Port p)
    (Capabilities p) (Functions p) (ExecutablePath p) (Process p)
    (Command p) x (Connection p) (Status p) (StartTime p)
    (LastHeartbeat p) (AutoRestart p) (MaxRestarts p) (RestartCount p).
Definition set_Connection (x : option ConnId) (p : PluginInfo) : PluginInfo :=
  mkPluginInfo (ID p) (Name p) (Version p) (Description p) (Port p)
    (Capabilities p) (Functions p) (ExecutablePath p) (Process p)
    (Command p) (Client p) x (Status p) (StartTime p)
    (LastHeartbeat p) (AutoRestart p) (MaxRestarts p) (RestartCount p).
Definition set_Status (x : PluginStatus) (p : PluginInfo) : PluginInfo :=
  mkPluginInfo (ID p) (Name p) (Version p) (Description p) (Port p)
    (Capabilities p) (Functions p) (ExecutablePath p) (Process p)
    (Command p) (Client p) (Connection p) x (StartTime p)
    (LastHeartbeat p) (AutoRestart p) (MaxRestarts p) (RestartCount p).
Definition set_StartTime (x : Time) (p : PluginInfo) : PluginInfo :=
  mkPluginInfo (ID p) (Name p) (Version p) (Description p) (Port p)
    (Capabilities p) (Functions p) (ExecutablePath p) (Process p)
    (Command p) (Client p) (Connection p) (Status p) x
    (LastHeartbeat p) (AutoRestart p) (MaxRestarts p) (RestartCount p).
Definition set_LastHeartbeat (x : Time) (p : PluginInfo) : PluginInfo :=
  mkPluginInfo (ID p) (Name p) (Version p) (Description p) (Port p)
    (Capabilities p) (Functions p) (ExecutablePath p) (Process p)
    (Command p) (Client p) (Connection p) (Status p) (StartTime p)
    x (AutoRestart p) (MaxRestarts p) (RestartCount p).
Definition set_RestartCount (x : Z) (p : PluginInfo) : PluginInfo :=
  mkPluginInfo (ID p) (Name p) (Version p) (Description p) (Port p)
    (Capabilities p) (Functions p) (ExecutablePath p) (Process p)
    (Command p) (Client p) (Connection p) (Status p) (StartTime p)
    (LastHeartbeat p) (AutoRestart p) (MaxRestarts p) x.

(** ** The environment *)

(** Goroutines launched with [go]. *)
Inductive Task :=
| GoMonitor (l : loc)
| GoConnect (l : loc)
| GoServe (port : Z)
| GoHeartbeatSweep.

(** What the host process does to its environment, in program order. *)
Inductive Event :=
| EvTimeNow
| EvCmdStart (path : string) (env : list string)
| EvCmdOutput (path : string) (arg : string)
| EvProcessKill (pid : Pid)
| EvConnClose (c : ConnId)
| EvGrpcDial (address : string)
| EvNetListen (address : string)
| EvSleep (d : Duration)
| EvGo (t : Task)
| EvHostFunction (name : string) (params : list Param.t)
| EvClientCall (c : ConnId) (req : CallRequest.t).

(** What running the executable with [--info] and decoding its output
    gives. *)
Inductive InfoOutput :=
| InfoExecFailed (e : string)
| InfoBadJSON (e : string)
| InfoOk (info : PluginBasicInfo).

(** The environment's answers; each may depend on everything that happened
    before. An [error] answer of [None] means the operation succeeded. *)
Record World := mkWorld {
  w_time_Now : list Event → Time;
  w_cmd_Start : list Event → string → list string → error;
  w_cmd_Output : list Event → string → string → InfoOutput;
  w_process_Kill : list Event → Pid → error;
  w_grpc_Dial : list Event → string → error;
  w_net_Listen : list Event → string → error;
  w_client_CallPluginFunction :
    list Event → ConnId → CallRequest.t → CallResponse.t + string
}.

(** *** Interactions with the environment *)

Definition Eff (A : Type) : Type := list Event → A * list Event.

#[global] Instance Eff_ret : MRet Eff := λ A a tr, (a, tr).
#[global] Instance Eff_bind : MBind Eff :=
  λ A B k m tr, let '(a, tr') := m tr in k a tr'.

Section Effects.
Context (w : World).

Definition emit (e : Event) : Eff unit := λ tr, (tt, tr ++ [e]).

Definition time_Now : Eff Time :=
  λ tr, (w_time_Now w tr, tr ++ [EvTimeNow]).

Definition time_Sleep (d : Duration) : Eff unit := emit (EvSleep d).

(** [cmd.Start()]: the error, or the process that now runs. *)
Definition cmd_Start (path : string) (env : list string) : Eff (string + Pid) :=
  λ tr, (match w_cmd_Start w tr path env with
         | Some e => inl e
         | None => inr (length tr)
         end, tr ++ [EvCmdStart path env]).

Definition cmd_Output (path arg : string) : Eff InfoOutput :=
  λ tr, (w_cmd_Output w tr path arg, tr ++ [EvCmdOutput path arg]).

Definition process_Kill (pid : Pid) : Eff error :=
  λ tr, (w_process_Kill w tr pid, tr ++ [EvProcessKill pid]).

Definition conn_Close (c : ConnId) : Eff unit := emit (EvConnClose c).

(** [grpc.Dial]: the error, or the new connection. *)
Definition grpc_Dial (address : string) : Eff (string + ConnId) :=
  λ tr, (match w_grpc_Dial w tr address with
         | Some e => inl e
         | None => inr (length tr)
         end, tr ++ [EvGrpcDial address]).

Definition net_Listen (address : string) : Eff error :=
  λ tr, (w_net_Listen w tr address, tr ++ [EvNetListen address]).

Definition client_CallPluginFunction (c : ConnId) (req : CallRequest.t)
  : Eff (CallResponse.t + string) :=
  λ tr, (w_client_CallPluginFunction w tr c req, tr ++ [EvClientCall c req]).

End Effects.

(** ** Code that works on one [*PluginInfo] *)

Definition Act (A : Type) : Type :=
  PluginInfo * list Event → A * (PluginInfo * list Event).

#[global] Instance Act_ret : MRet Act := λ A a s, (a, s).
#[global] Instance Act_bind : MBind Act :=
  λ A B k m s, let '(a, s') := m s in k a s'.

(** Read the record, assign to it, talk to the environment. *)
Definition self : Act PluginInfo := λ s, (s.1, s).
Definition assign (f : PluginInfo → PluginInfo) : Act unit :=
  λ s, (tt, (f s.1, s.2)).
Definition eff {A} (m : Eff A) : Act A :=
  λ s, let '(a, tr') := m s.2 in (a, (s.1, tr')).

Section PluginProcess.
Context (w : World).

(** [PluginHost.startPluginProcess]; [actualPort] is [ph.actualPort]. *)
Definition startPluginProcess (actualPort : Z) (l : loc) : Act error :=
  assign (set_Status StatusStarting);;
  p ← self;
  r ← eff (cmd_Start w (ExecutablePath p)
             ["PLUGIN_ID=" +:+ ID p;
              "HOST_GRPC_ADDRESS=localhost:" +:+ pretty actualPort]);
  match r with
  | inl e =>
      assign (set_Status StatusError);;
      mret (Some ("启动插件进程失败: " +:+ e))
  | inr pid =>
      assign (set_Process (Some pid));;
      assign (set_Command (Some pid));;
      now ← eff (time_Now w);
      assign (set_StartTime now);;
      eff (emit (EvGo (GoMonitor l)));;
      mret None
  end.

(** [PluginHost.stopPluginProcess]. *)
Definition stopPluginProcess : Act error :=
  assign (set_Status StatusStopping);;
  p ← self;
  match Connection p with
  | Some c =>
      eff (conn_Close c);;
      assign (set_Connection None);;
      assign (set_Client None)
  | None => mret tt
  end;;
  p ← self;
  match Process p with
  | Some pid =>
      eff (process_Kill w pid);;
      assign (set_Process None)
  | None => mret tt
  end;;
  assign (set_Status StatusStopped);;
  mret None.

(** [PluginHost.monitorPluginProcess], from the moment [Command.Wait]
    returns [waitErr]. *)
Definition monitorPluginProcess (actualPort : Z) (l : loc) (waitErr : error)
  : Act unit :=
  p ← self;
  match Command p with
  | None => mret tt
  | Some _ =>
      (if bool_decide (waitErr ≠ None) && bool_decide (Status p ≠ StatusStopping)
       then assign (set_Status StatusCrashed)
       else assign (set_Status StatusStopped));;
      p ← self;
      if AutoRestart p && bool_decide (Status p = StatusCrashed)
         && (RestartCount p <? MaxRestarts p)
      then
        assign (set_RestartCount (wrap64 (RestartCount p + 1)));;
        eff (time_Sleep (5 * Second));;
        startPluginProcess actualPort l;;
        mret tt
      else mret tt
  end.

(** The body of the loop of [PluginHost.checkPluginsHealth], for one
    record of the listing. *)
Definition checkPluginHealth (cfg : HostConfig) (actualPort : Z) (now : Time)
    (l : loc) : Act unit :=
  p ← self;
  if bool_decide (Status p = StatusRunning) then
    if Duration_mul (HeartbeatInterval cfg) (MaxHeartbeatMiss cfg)
         <? Time_Sub now (LastHeartbeat p)
    then
      assign (set_Status StatusCrashed);;
      p ← self;
      if AutoRestart p && (RestartCount p <? MaxRestarts p) then
        assign (set_RestartCount (wrap64 (RestartCount p + 1)));;
        startPluginProcess actualPort l;;
        mret tt
      else mret tt
    else mret tt
  else mret tt.

(** [hostService.connectToPlugin]. *)
Definition connectToPlugin : Act unit :=
  eff (time_Sleep (2 * Second));;
  p ← self;
  r ← eff (grpc_Dial w ("localhost:" +:+ pretty (Port p)));
  match r with
  | inl _ => assign (set_Status StatusError)
  | inr conn =>
      assign (set_Connection (Some conn));;
      assign (set_Client (Some conn));;
      assign (set_Status StatusRunning)
  end.

End PluginProcess.

(** ** The registry (types.go) *)

(** [PluginRegistry.plugins]: a map from plugin ID to [*PluginInfo]. The
    mutex is not modelled: every method body is atomic. *)
Module PluginRegistry.

Abbreviation t := (gmap string loc).

Definition New : t := ∅.

(** [Register] files the record under the ID it has at that moment. *)
Definition Register (id : string) (l : loc) (pr : t) : t := <[id := l]> pr.

Definition Unregister (pluginID : string) (pr : t) : t := delete pluginID pr.

(** [Get]: [Some l] for [(l, true)], [None] for [(nil, false)]. *)
Definition Get (pluginID : string) (pr : t) : option loc := pr !! pluginID.

(** [List] ranges over a Go map, in an order the language leaves open:
    a listing is any arrangement of the values. *)
Definition values (pr : t) : list loc := (map_to_list pr).*2.
Definition is_listing (pr : t) (plugins : list loc) : Prop :=
  plugins ≡ₚ values pr.

Definition Count (pr : t) : nat := size pr.

End PluginRegistry.

(** ** The host (host.go) *)

Record PluginHost := mkPluginHost {
  config : HostConfig;
  registry : gmap string loc;
  heap : list PluginInfo;
  hostFunctions : gmap string HostFunction;
  listener : option Z;
  actualPort : Z;
  grpcServer : bool;
  heartbeatTicker : option Duration;
  trace : list Event
}.

Definition set_registry (x : gmap string loc) (h : PluginHost) : PluginHost :=
  mkPluginHost (config h) x (heap h) (hostFunctions h) (listener h)
    (actualPort h) (grpcServer h) (heartbeatTicker h) (trace h).
Definition set_heap (x : list PluginInfo) (h : PluginHost) : PluginHost :=
  mkPluginHost (config h) (registry h) x (hostFunctions h) (listener h)
    (actualPort h) (grpcServer h) (heartbeatTicker h) (trace h).
Definition set_hostFunctions (x : gmap string HostFunction) (h : PluginHost)
  : PluginHost :=
  mkPluginHost (config h) (registry h) (heap h) x (listener h)
    (actualPort h) (grpcServer h) (heartbeatTicker h) (trace h).
Definition set_listener (x : option Z) (h : PluginHost) : PluginHost :=
  mkPluginHost (config h) (registry h) (heap h) (hostFunctions h) x
    (actualPort h) (grpcServer h) (heartbeatTicker h) (trace h).
Definition set_actualPort (x : Z) (h : PluginHost) : PluginHost :=
  mkPluginHost (config h) (registry h) (heap h) (hostFunctions h) (listener h)
    x (grpcServer h) (heartbeatTicker h) (trace h).
Definition set_grpcServer (x : bool) (h : PluginHost) : PluginHost :=
  mkPluginHost (config h) (registry h) (heap h) (hostFunctions h) (listener h)
    (actualPort h) x (heartbeatTicker h) (trace h).
Definition set_heartbeatTicker (x : option Duration) (h : PluginHost)
  : PluginHost :=
  mkPluginHost (config h) (registry h) (heap h) (hostFunctions h) (listener h)
    (actualPort h) (grpcServer h) x (trace h).
Definition set_trace (x : list Event) (h : PluginHost) : PluginHost :=
  mkPluginHost (config h) (registry h) (heap h) (hostFunctions h) (listener h)
    (actualPort h) (grpcServer h) (heartbeatTicker h) x.

(** Methods of the host: state passing, with panics. *)
Definition M (A : Type) : Type := PluginHost → Outcome (A * PluginHost).

#[global] Instance M_ret : MRet M := λ A a h, Done (a, h).
#[global] Instance M_bind : MBind M :=
  λ A B k m h,
    match m h with
    | Done (a, h') => k a h'
    | Panic msg => Panic msg
    | OutOfFuel => OutOfFuel
    end.

Definition host : M PluginHost := λ h, Done (h, h).
Definition modify (f : PluginHost → PluginHost) : M unit := λ h, Done (tt, f h).
Definition panic {A} (msg : string) : M A := λ _, Panic msg.
Definition out_of_fuel {A} : M A := λ _, OutOfFuel.

Definition env {A} (m : Eff A) : M A :=
  λ h, let '(a, tr') := m (trace h) in Done (a, set_trace tr' h).

(** [*l]: reading through a pointer. *)
Definition deref (l : loc) : M PluginInfo :=
  λ h, match heap h !! l with
       | Some p => Done (p, h)
       | None => Panic "invalid memory address or nil pointer dereference"
       end.

(** [&PluginInfo{...}]. *)
Definition alloc (p : PluginInfo) : M loc :=
  λ h, Done (length (heap h), set_heap (heap h ++ [p]) h).

(** Run code that holds the pointer [l]. *)
Definition on_plugin {A} (l : loc) (m : Act A) : M A :=
  λ h, match heap h !! l with
       | Some p =>
           let '(a, (p', tr')) := m (p, trace h) in
           Done (a, set_trace tr' (set_heap (<[l := p']> (heap h)) h))
       | None => Panic "invalid memory address or nil pointer dereference"
       end.

Fixpoint for_each (ls : list loc) (body : loc → M unit) : M unit :=
  match ls with
  | [] => mret tt
  | l :: ls' => body l;; for_each ls' body
  end.

Definition registry_Get (pluginID : string) : M (option loc) :=
  h ← host; mret (PluginRegistry.Get pluginID (registry h)).

Definition registry_Register (l : loc) : M unit :=
  p ← deref l;
  modify (λ h, set_registry (PluginRegistry.Register (ID p) l (registry h)) h).

Definition registry_Unregister (pluginID : string) : M unit :=
  modify (λ h, set_registry (PluginRegistry.Unregister pluginID (registry h)) h).

(** The zero [time.Time]: January 1 of year 1. *)
Definition Time_zero : Time := -62135596800 * Second.

Definition key_target_plugin_id : string := "target_plugin_id".

Section Host.
Context (w : World).

(** *** Lifecycle API *)

Definition GetPluginInfo (executablePath : string)
  : M (option PluginBasicInfo * error) :=
  r ← env (cmd_Output w executablePath "--info");
  mret (match r with
        | InfoExecFailed e => (None, Some ("获取插件信息失败: " +:+ e))
        | InfoBadJSON e => (None, Some ("解析插件信息失败: " +:+ e))
        | InfoOk info => (Some info, None)
        end).

Definition LoadPlugin (executablePath : string) : M (option loc * error) :=
  r ← GetPluginInfo executablePath;
  match r with
  | (Some info, None) =>
      pluginID ←
        (if bool_decide (bi_ID info = "") then
           now ← env (time_Now w);
           mret ("plugin-" +:+ pretty (Time_UnixNano now))
         else mret (bi_ID info));
      h ← host;
      l ← alloc {| ID := pluginID;
                   Name := bi_Name info;
                   Version := bi_Version info;
                   Description := bi_Description info;
                   Port := 0;
                   Capabilities := bi_Capabilities info;
                   Functions := bi_Functions info;
                   ExecutablePath := executablePath;
                   Process := None;
                   Command := None;
                   Client := None;
                   Connection := None;
                   Status := StatusStopped;
                   StartTime := Time_zero;
                   LastHeartbeat := Time_zero;
                   AutoRestart := AutoRestartPlugin (config h);
                   MaxRestarts := 3;
                   RestartCount := 0 |};
      registry_Register l;;
      mret (Some l, None)
  | (_, Some e) => mret (None, Some ("获取插件信息失败: " +:+ e))
  | (None, None) =>
      panic "invalid memory address or nil pointer dereference"
  end.

Definition StartPlugin (pluginID : string) : M error :=
  r ← registry_Get pluginID;
  match r with
  | None => mret (Some ("插件 " +:+ pluginID +:+ " 不存在"))
  | Some l =>
      plugin ← deref l;
      if bool_decide (Status plugin = StatusRunning) then
        mret (Some ("插件 " +:+ pluginID +:+ " 已在运行中"))
      else
        h ← host;
        on_plugin l (startPluginProcess w (actualPort h) l)
  end.

Definition StopPlugin (pluginID : string) : M error :=
  r ← registry_Get pluginID;
  match r with
  | None => mret (Some ("插件 " +:+ pluginID +:+ " 不存在"))
  | Some l => on_plugin l (stopPluginProcess w)
  end.

(** [plugins] is what [registry.List()] returned. *)
Definition StopAllPlugins (plugins : list loc) : M unit :=
  for_each plugins (λ l,
    plugin ← deref l;
    if bool_decide (Status plugin = StatusRunning)
    then on_plugin l (stopPluginProcess w);; mret tt
    else mret tt).

Definition GetPlugin (pluginID : string) : M (option loc) :=
  registry_Get pluginID.

(** [PluginHost.CallPluginFunction]: the host calls a plugin. *)
Definition CallPluginFunction (pluginID functionName : string)
    (params : list Param.t) : M (option CallResponse.t * error) :=
  r ← registry_Get pluginID;
  match r with
  | None => mret (None, Some ("插件 " +:+ pluginID +:+ " 不存在"))
  | Some l =>
      plugin ← deref l;
      if bool_decide (Status plugin ≠ StatusRunning) then
        mret (None, Some ("插件 " +:+ pluginID +:+ " 状态异常: "
                            +:+ PluginStatus_string (Status plugin)))
      else
        match Client plugin with
        | None =>
            mret (None, Some ("插件 " +:+ pluginID +:+ " gRPC客户端未连接"))
        | Some client =>
            t1 ← env (time_Now w);
            t2 ← env (time_Now w);
            let req :=
              {| CallRequest.FunctionName := functionName;
                 CallRequest.Parameters := params;
                 CallRequest.RequestId := "host-" +:+ pretty (Time_UnixNano t1);
                 CallRequest.Metadata :=
                   <["source" := "host"]>
                     (<["timestamp" := pretty (Time_Unix t2)]> ∅) |} in
            r ← env (client_CallPluginFunction w client req);
            mret (match r with
                  | inl resp => (Some resp, None)
                  | inr e => (None, Some e)
                  end)
        end
  end.

Definition RegisterHostFunction (name : string) (fn : HostFunction) : M unit :=
  modify (λ h, set_hostFunctions (<[name := fn]> (hostFunctions h)) h).

(** *** Crash detection *)

(** The monitor goroutine of the record at [l], woken by the exit of the
    process it waits for. *)
Definition monitor (l : loc) (waitErr : error) : M unit :=
  h ← host;
  on_plugin l (monitorPluginProcess w (actualPort h) l waitErr).

(** [PluginHost.checkPluginsHealth]; [plugins] is what [registry.List()]
    returned. *)
Definition checkPluginsHealth (plugins : list loc) : M unit :=
  now ← env (time_Now w);
  for_each plugins (λ l,
    h ← host;
    on_plugin l (checkPluginHealth w (config h) (actualPort h) now l)).

End Host.

(** ** The host's inbound RPC endpoint (hostService) *)

Section HostService.
Context (w : World).

(** The first record of the listing that satisfies [test]. *)
Fixpoint find_plugin (test : PluginInfo → bool) (plugins : list loc)
  : M (option loc) :=
  match plugins with
  | [] => mret None
  | l :: rest =>
      plugin ← deref l;
      if test plugin then mret (Some l) else find_plugin test rest
  end.

(** The block of [RegisterPlugin] that updates the record it has found
    from the request. *)
Definition updatePluginInfo (req : RegisterRequest.t) : Act unit :=
  assign (set_ID (RegisterRequest.PluginId req));;
  assign (set_Name (RegisterRequest.PluginName req));;
  assign (set_Version (RegisterRequest.Version req));;
  assign (set_Description (RegisterRequest.Description req));;
  assign (set_Port (RegisterRequest.Port req));;
  assign (set_Capabilities (RegisterRequest.Capabilities req));;
  assign (set_Status StatusStarting);;
  now ← eff (time_Now w);
  assign (set_LastHeartbeat now).

(** [hostService.RegisterPlugin]; [plugins] is what [registry.List()]
    returned. The connection back to the plugin is left to a goroutine. *)
Definition RegisterPlugin (plugins : list loc) (req : RegisterRequest.t)
  : M (option RegisterResponse.t * error) :=
  targetPlugin ←
    find_plugin (λ plugin,
      bool_decide (ID plugin = RegisterRequest.PluginId req)
      || bool_decide (Status plugin = StatusStarting)) plugins;
  match targetPlugin with
  | None =>
      mret (Some {| RegisterResponse.Success := false;
                    RegisterResponse.Message := "未找到对应的插件";
                    RegisterResponse.HostId := "" |}, None)
  | Some l =>
      plugin ← deref l;
      let oldID := ID plugin in
      on_plugin l (updatePluginInfo req);;
      (if bool_decide (oldID ≠ RegisterRequest.PluginId req) then
         registry_Unregister oldID;;
         registry_Register l
       else mret tt);;
      env (emit (EvGo (GoConnect l)));;
      now ← env (time_Now w);
      mret (Some {| RegisterResponse.Success := true;
                    RegisterResponse.Message := "注册成功";
                    RegisterResponse.HostId :=
                      "host-" +:+ pretty (Time_Unix now) |}, None)
  end.

(** The goroutine [go hs.connectToPlugin(targetPlugin)]. *)
Definition connect (l : loc) : M unit := on_plugin l (connectToPlugin w).

(** [hostService.Heartbeat]. *)
Definition Heartbeat (req : HeartbeatRequest.t)
  : M (option HeartbeatResponse.t * error) :=
  r ← registry_Get (HeartbeatRequest.PluginId req);
  match r with
  | Some l =>
      on_plugin l (now ← eff (time_Now w); assign (set_LastHeartbeat now))
  | None => mret tt
  end;;
  now ← env (time_Now w);
  mret (Some {| HeartbeatResponse.Success := true;
                HeartbeatResponse.Message := "心跳正常";
                HeartbeatResponse.ServerTimestamp := Time_Unix now |}, None).

(** [hostService.callPluginFunction]: relay of a call from one plugin to
    another. *)
Definition callPluginFunction (req : CallRequest.t) (targetPluginID : string)
  : M (option CallResponse.t * error) :=
  let sourcePluginID := default "" (CallRequest.Metadata req !! "plugin_id") in
  r ← registry_Get targetPluginID;
  match r with
  | None =>
      mret (Some {| CallResponse.Success := false;
                    CallResponse.Message :=
                      "目标插件 " +:+ targetPluginID +:+ " 不存在";
                    CallResponse.Result := None;
                    CallResponse.ErrorCode := "TARGET_PLUGIN_NOT_FOUND";
                    CallResponse.RequestId := CallRequest.RequestId req |},
            None)
  | Some l =>
      targetPlugin ← deref l;
      if bool_decide (Status targetPlugin ≠ StatusRunning) then
        mret (Some {| CallResponse.Success := false;
                      CallResponse.Message :=
                        "目标插件 " +:+ targetPluginID +:+ " 状态异常: "
                        +:+ PluginStatus_string (Status targetPlugin);
                      CallResponse.Result := None;
                      CallResponse.ErrorCode := "TARGET_PLUGIN_NOT_RUNNING";
                      CallResponse.RequestId := CallRequest.RequestId req |},
              None)
      else
        now ← env (time_Now w);
        let enhancedReq :=
          {| CallRequest.FunctionName := CallRequest.FunctionName req;
             CallRequest.Parameters := CallRequest.Parameters req;
             CallRequest.RequestId := CallRequest.RequestId req;
             CallRequest.Metadata :=
               <["source" := "inter_plugin"]>
                 (<["source_plugin" := sourcePluginID]>
                    (<["target_plugin" := targetPluginID]>
                       (<["timestamp" := pretty (Time_Unix now)]>
                          (<["via_host" := "true"]> ∅)))) |} in
        match Client targetPlugin with
        | None => panic "invalid memory address or nil pointer dereference"
        | Some client =>
            r ← env (client_CallPluginFunction w client enhancedReq);
            match r with
            | inr e =>
                mret (Some {| CallResponse.Success := false;
                              CallResponse.Message :=
                                "调用目标插件函数失败: " +:+ e;
                              CallResponse.Result := None;
                              CallResponse.ErrorCode :=
                                "INTER_PLUGIN_CALL_ERROR";
                              CallResponse.RequestId :=
                                CallRequest.RequestId req |}, None)
            | inl resp => mret (Some resp, None)
            end
        end
  end.

(** [hostService.CallHostFunction]. *)
Definition CallHostFunction (req : CallRequest.t)
  : M (option CallResponse.t * error) :=
  match CallRequest.Metadata req !! key_target_plugin_id with
  | Some targetPluginID => callPluginFunction req targetPluginID
  | None =>
      h ← host;
      match hostFunctions h !! CallRequest.FunctionName req with
      | None =>
          mret (Some {| CallResponse.Success := false;
                        CallResponse.Message :=
                          "未找到函数: " +:+ CallRequest.FunctionName req;
                        CallResponse.Result := None;
                        CallResponse.ErrorCode := "FUNCTION_NOT_FOUND";
                        CallResponse.RequestId := CallRequest.RequestId req |},
                None)
      | Some None => panic "invalid memory address or nil pointer dereference"
      | Some (Some fn) =>
          env (emit (EvHostFunction (CallRequest.FunctionName req)
                       (CallRequest.Parameters req)));;
          match fn (CallRequest.Parameters req) with
          | (_, Some e) =>
              mret (Some {| CallResponse.Success := false;
                            CallResponse.Message := e;
                            CallResponse.Result := None;
                            CallResponse.ErrorCode := "FUNCTION_ERROR";
                            CallResponse.RequestId :=
                              CallRequest.RequestId req |}, None)
          | (result, None) =>
              mret (Some {| CallResponse.Success := true;
                            CallResponse.Message := "调用成功";
                            CallResponse.Result := result;
                            CallResponse.ErrorCode := "";
                            CallResponse.RequestId :=
                              CallRequest.RequestId req |}, None)
          end
      end
  end.

End HostService.

(** ** Starting the host *)

Section HostStart.
Context (w : World).

(** [xs[i]] on a slice. *)
Definition index (xs : list Z) (i : nat) : M Z :=
  match xs !! i with
  | Some x => mret x
  | None => panic "index out of range"
  end.

(** The loop [for port := startPort; port <= maxPort; port++] of
    [startGrpcServer]: the port of the listener it leaves, [None] for a
    nil listener. [fuel] bounds the number of iterations. *)
Fixpoint listen_loop (fuel : nat) (port maxPort : Z) : M (option Z) :=
  if port <=? maxPort then
    match fuel with
    | O => out_of_fuel
    | S fuel' =>
        err ← env (net_Listen w (":" +:+ pretty port));
        match err with
        | None => mret (Some port)
        | Some _ => listen_loop fuel' (wrap64 (port + 1)) maxPort
        end
    end
  else mret None.

(** [PluginHost.startGrpcServer]. *)
Definition startGrpcServer (fuel : nat) : M error :=
  h ← host;
  startPort ← index (PortRange (config h)) 0;
  maxPort ← index (PortRange (config h)) 1;
  let '(startPort, maxPort) :=
    if 0 <? cfg_Port (config h)
    then (cfg_Port (config h), cfg_Port (config h))
    else (startPort, maxPort) in
  r ← listen_loop fuel startPort maxPort;
  match r with
  | None =>
      mret (Some ("无法找到可用端口 (尝试范围: " +:+ pretty startPort
                    +:+ "-" +:+ pretty maxPort +:+ ")"))
  | Some port =>
      modify (set_listener (Some port));;
      modify (set_actualPort port);;
      modify (set_grpcServer true);;
      env (emit (EvGo (GoServe port)));;
      mret None
  end.

(** [PluginHost.startMonitoring]; [time.NewTicker] panics on an interval
    that is not positive. *)
Definition startMonitoring : M unit :=
  h ← host;
  if HeartbeatInterval (config h) <=? 0 then
    panic "non-positive interval for NewTicker"
  else
    modify (set_heartbeatTicker (Some (HeartbeatInterval (config h))));;
    env (emit (EvGo GoHeartbeatSweep)).

(** [PluginHost.Start]. *)
Definition Start (fuel : nat) : M error :=
  err ← startGrpcServer fuel;
  match err with
  | Some e => mret (Some ("启动gRPC服务器失败: " +:+ e))
  | None => startMonitoring;; mret None
  end.

End HostStart.

(** [NewPluginHost]. The bodies of the three default host functions are
    not modelled: [defaults] is the table [registerDefaultFunctions] fills
    in, with the keys GetSystemTime, GetSystemInfo and GetPluginList. *)
Definition NewPluginHost (cfg : option HostConfig)
    (defaults : gmap string HostFunction) : PluginHost :=
  {| config := default DefaultHostConfig cfg;
     registry := PluginRegistry.New;
     heap := [];
     hostFunctions := defaults;
     listener := None;
     actualPort := 0;
     grpcServer := false;
     heartbeatTicker := None;
     trace := [] |}.

(** ** The plugin's inbound call handler (plugin.go) *)

Module Plugin.

Record t := mk {
  ID : string;
  Port : Z;
  functions : gmap string PluginFunction
}.

Definition RegisterFunction (name : string) (fn : PluginFunction) (p : t) : t :=
  {| ID := ID p; Port := Port p; functions := <[name := fn]> (functions p) |}.

(** [Plugin.CallPluginFunction]: the response and the handler's error. *)
Definition CallPluginFunction (p : t) (req : CallRequest.t)
  : Outcome (option CallResponse.t * error) :=
  match functions p !! CallRequest.FunctionName req with
  | None =>
      Done (Some {| CallResponse.Success := false;
                    CallResponse.Message :=
                      "未找到函数: " +:+ CallRequest.FunctionName req;
                    CallResponse.Result := None;
                    CallResponse.ErrorCode := "FUNCTION_NOT_FOUND";
                    CallResponse.RequestId := CallRequest.RequestId req |},
            None)
  | Some None => Panic "invalid memory address or nil pointer dereference"
  | Some (Some fn) =>
      match fn (CallRequest.Parameters req) with
      | (_, Some e) =>
          Done (Some {| CallResponse.Success := false;
                        CallResponse.Message := e;
                        CallResponse.Result := None;
                        CallResponse.ErrorCode := "FUNCTION_ERROR";
                        CallResponse.RequestId := CallRequest.RequestId req |},
                None)
      | (result, None) =>
          Done (Some {| CallResponse.Success := true;
                        CallResponse.Message := "调用成功";
                        CallResponse.Result := result;
                        CallResponse.ErrorCode := "";
                        CallResponse.RequestId := CallRequest.RequestId req |},
                None)
      end
  end.

End Plugin.

(** ** Runs of the host *)

(** The calls that change the host: its API, the handlers of its inbound
    endpoint, and the goroutines it launches. The remaining entry points
    either do not touch the host's state ([ReportLog], [GetPlugin],
    [SendMessageToPlugin], [BroadcastMessage]) or are sequences of these
    ([StartPluginByPath], [Stop]). *)
Inductive Call :=
| CallLoadPlugin (executablePath : string)
| CallStartPlugin (pluginID : string)
| CallStopPlugin (pluginID : string)
| CallStopAllPlugins (plugins : list loc)
| CallCallPluginFunction (pluginID functionName : string) (params : list Param.t)
| CallRegisterHostFunction (name : string) (fn : HostFunction)
| CallStart (fuel : nat)
| ProcessExit (l : loc) (waitErr : error)
| HeartbeatTick (plugins : list loc)
| RpcRegisterPlugin (plugins : list loc) (req : RegisterRequest.t)
| ConnectBack (l : loc)
| RpcHeartbeat (req : HeartbeatRequest.t)
| RpcCallHostFunction (req : CallRequest.t).

Section Runs.
Context (w : World).

Definition run (c : Call) : M unit :=
  match c with
  | CallLoadPlugin path => LoadPlugin w path;; mret tt
  | CallStartPlugin id => StartPlugin w id;; mret tt
  | CallStopPlugin id => StopPlugin w id;; mret tt
  | CallStopAllPlugins plugins => StopAllPlugins w plugins
  | CallCallPluginFunction id fn params =>
      CallPluginFunction w id fn params;; mret tt
  | CallRegisterHostFunction name fn => RegisterHostFunction name fn
  | CallStart fuel => Start w fuel;; mret tt
  | ProcessExit l waitErr => monitor w l waitErr
  | HeartbeatTick plugins => checkPluginsHealth w plugins
  | RpcRegisterPlugin plugins req => RegisterPlugin w plugins req;; mret tt
  | ConnectBack l => connect w l
  | RpcHeartbeat req => Heartbeat w req;; mret tt
  | RpcCallHostFunction req => CallHostFunction w req;; mret tt
  end.

(** Where a call ranges over [registry.List()], the listing it is given
    must be one of the registry at that moment. *)
Definition listing_ok (h : PluginHost) (c : Call) : Prop :=
  match c with
  | CallStopAllPlugins plugins
  | HeartbeatTick plugins
  | RpcRegisterPlugin plugins _ => PluginRegistry.is_listing (registry h) plugins
  | _ => True
  end.

(** A call that runs from its start to its end with no other goroutine in
    between. *)
Inductive call_step (h h' : PluginHost) : Prop :=
| call_returns (c : Call) :
    listing_ok h c → run c h = Done (tt, h') → call_step h h'.

(** The states of the runs in which no two calls overlap. *)
Definition serially_reachable (cfg : option HostConfig)
    (defaults : gmap string HostFunction) (h : PluginHost) : Prop :=
  rtc call_step (NewPluginHost cfg defaults) h.

End Runs.

(** ** Goroutines *)

(** The host is used from several goroutines at once: the application's
    own, one for each request to the inbound endpoint, the monitor of each
    process, the connection back to each plugin that registers, and the
    heartbeat sweep. Only the registry's map is under a lock; the fields
    of a [PluginInfo] and of the host are read and written as they come.
    A [Goroutine] is what is left to do of one of these: nothing, or a
    step that is atomic (at most one access to shared memory, with the
    computation on local values around it) and gives the rest, or the
    call of [registry.List], whose order the language leaves open. *)
#[local] Unset Elimination Schemes.
Inductive Goroutine : Type :=
| Exit
| Atom (m : PluginHost → Outcome (Goroutine * PluginHost))
| Listing (k : list loc → Goroutine).
#[local] Set Elimination Schemes.

Definition atom {X} (m : M X) (k : X → Goroutine) : Goroutine :=
  Atom (x ← m; mret (k x)).

Notation "'atomic' x ← m ; k" := (atom m (λ x, k))
  (at level 20, x name, m at level 100, k at level 200, only parsing).

(** A nil dereference in a goroutine. *)
Definition nil_dereference : Goroutine :=
  Atom (panic "invalid memory address or nil pointer dereference").

(** [plugin.F], and [plugin.F = x]. *)
Definition read {X} (l : loc) (F : PluginInfo → X) : M X :=
  p ← deref l; mret (F p).
Definition write (l : loc) (set_F : PluginInfo → PluginInfo) : M unit :=
  on_plugin l (assign set_F).

(** [ph.F]. *)
Definition read_host {X} (F : PluginHost → X) : M X := h ← host; mret (F h).

Section Goroutines.
Context (w : World).

(** [PluginHost.startPluginProcess], then [k]. *)
Definition startPluginProcess_go (l : loc) (k : Goroutine) : Goroutine :=
  atomic _ ← write l (set_Status StatusStarting);
  atomic path ← read l ExecutablePath;
  atomic id ← read l ID;
  atomic port ← read_host actualPort;
  atomic r ← env (cmd_Start w path
                    ["PLUGIN_ID=" +:+ id;
                     "HOST_GRPC_ADDRESS=localhost:" +:+ pretty port]);
  match r with
  | inl _ => atomic _ ← write l (set_Status StatusError); k
  | inr pid =>
      atomic _ ← write l (set_Process (Some pid));
      atomic _ ← write l (set_Command (Some pid));
      atomic now ← env (time_Now w);
      atomic _ ← write l (set_StartTime now);
      atomic _ ← env (emit (EvGo (GoMonitor l)));
      k
  end.

(** [PluginHost.stopPluginProcess], then [k]. The connection and the
    process are read once for the test and once for the call. *)
Definition stopPluginProcess_go (l : loc) (k : Goroutine) : Goroutine :=
  let kill :=
    atomic proc ← read l Process;
    match proc with
    | Some _ =>
        atomic proc ← read l Process;
        match proc with
        | Some pid =>
            atomic _ ← env (process_Kill w pid);
            atomic _ ← write l (set_Process None);
            atomic _ ← write l (set_Status StatusStopped);
            k
        | None => nil_dereference
        end
    | None => atomic _ ← write l (set_Status StatusStopped); k
    end in
  atomic _ ← write l (set_Status StatusStopping);
  atomic conn ← read l Connection;
  match conn with
  | Some _ =>
      atomic conn ← read l Connection;
      match conn with
      | Some c =>
          atomic _ ← env (conn_Close c);
          atomic _ ← write l (set_Connection None);
          atomic _ ← write l (set_Client None);
          kill
      | None => nil_dereference
      end
  | None => kill
  end.

(** The test of the restart policy, the increment of the counter and what
    [restart] does then; [k] when the policy does not apply. *)
Definition restart_go (l : loc) (restart k : Goroutine) : Goroutine :=
  atomic n ← read l RestartCount;
  atomic max ← read l MaxRestarts;
  if n <? max then
    atomic n ← read l RestartCount;
    atomic _ ← write l (set_RestartCount (wrap64 (n + 1)));
    restart
  else k.

(** [PluginHost.monitorPluginProcess], from the moment [Command.Wait]
    returns [waitErr]. *)
Definition monitorPluginProcess_go (l : loc) (waitErr : error) : Goroutine :=
  let policy :=
    atomic auto ← read l AutoRestart;
    if auto then
      atomic s ← read l Status;
      if bool_decide (s = StatusCrashed) then
        restart_go l
          (atomic _ ← env (time_Sleep (5 * Second));
           startPluginProcess_go l Exit)
          Exit
      else Exit
    else Exit in
  atomic cmd ← read l Command;
  match cmd with
  | None => Exit
  | Some _ =>
      match waitErr with
      | Some _ =>
          atomic s ← read l Status;
          if bool_decide (s ≠ StatusStopping)
          then atomic _ ← write l (set_Status StatusCrashed); policy
          else atomic _ ← write l (set_Status StatusStopped); policy
      | None => atomic _ ← write l (set_Status StatusStopped); policy
      end
  end.

(** The loop of [PluginHost.checkPluginsHealth]. *)
Fixpoint sweep_go (now : Time) (plugins : list loc) : Goroutine :=
  match plugins with
  | [] => Exit
  | l :: rest =>
      atomic s ← read l Status;
      if bool_decide (s = StatusRunning) then
        atomic last ← read l LastHeartbeat;
        atomic cfg ← read_host config;
        if Duration_mul (HeartbeatInterval cfg) (MaxHeartbeatMiss cfg)
             <? Time_Sub now last
        then
          atomic _ ← write l (set_Status StatusCrashed);
          atomic auto ← read l AutoRestart;
          if auto then
            restart_go l (startPluginProcess_go l (sweep_go now rest))
              (sweep_go now rest)
          else sweep_go now rest
        else sweep_go now rest
      else sweep_go now rest
  end.

Definition checkPluginsHealth_go : Goroutine :=
  atomic now ← env (time_Now w);
  Listing (sweep_go now).

(** [hostService.connectToPlugin]. *)
Definition connectToPlugin_go (l : loc) : Goroutine :=
  atomic _ ← env (time_Sleep (2 * Second));
  atomic port ← read l Port;
  atomic r ← env (grpc_Dial w ("localhost:" +:+ pretty port));
  match r with
  | inl _ => atomic _ ← write l (set_Status StatusError); Exit
  | inr conn =>
      atomic _ ← write l (set_Connection (Some conn));
      atomic _ ← write l (set_Client (Some conn));
      atomic _ ← write l (set_Status StatusRunning);
      Exit
  end.

(** The search of [hostService.RegisterPlugin] through the listing. *)
Fixpoint find_go (req : RegisterRequest.t) (plugins : list loc)
    (found : option loc → Goroutine) : Goroutine :=
  match plugins with
  | [] => found None
  | l :: rest =>
      atomic id ← read l ID;
      if bool_decide (id = RegisterRequest.PluginId req) then found (Some l)
      else
        atomic s ← read l Status;
        if bool_decide (s = StatusStarting) then found (Some l)
        else find_go req rest found
  end.

(** [hostService.RegisterPlugin]. *)
Definition RegisterPlugin_go (req : RegisterRequest.t) : Goroutine :=
  Listing (λ plugins,
    find_go req plugins (λ targetPlugin,
      match targetPlugin with
      | None => Exit
      | Some l =>
          let answer :=
            atomic _ ← env (emit (EvGo (GoConnect l)));
            atomic _ ← env (time_Now w);
            Exit in
          atomic oldID ← read l ID;
          atomic _ ← write l (set_ID (RegisterRequest.PluginId req));
          atomic _ ← write l (set_Name (RegisterRequest.PluginName req));
          atomic _ ← write l (set_Version (RegisterRequest.Version req));
          atomic _ ← write l (set_Description (RegisterRequest.Description req));
          atomic _ ← write l (set_Port (RegisterRequest.Port req));
          atomic _ ← write l (set_Capabilities (RegisterRequest.Capabilities req));
          atomic _ ← write l (set_Status StatusStarting);
          atomic now ← env (time_Now w);
          atomic _ ← write l (set_LastHeartbeat now);
          if bool_decide (oldID ≠ RegisterRequest.PluginId req) then
            atomic _ ← registry_Unregister oldID;
            atomic _ ← registry_Register l;
            answer
          else answer
      end)).

(** [hostService.Heartbeat]. *)
Definition Heartbeat_go (req : HeartbeatRequest.t) : Goroutine :=
  atomic r ← registry_Get (HeartbeatRequest.PluginId req);
  match r with
  | Some l =>
      atomic now ← env (time_Now w);
      atomic _ ← write l (set_LastHeartbeat now);
      atomic _ ← env (time_Now w);
      Exit
  | None => atomic _ ← env (time_Now w); Exit
  end.

(** [hostService.callPluginFunction]. *)
Definition callPluginFunction_go (req : CallRequest.t)
    (targetPluginID : string) : Goroutine :=
  let sourcePluginID := default "" (CallRequest.Metadata req !! "plugin_id") in
  atomic r ← registry_Get targetPluginID;
  match r with
  | None => Exit
  | Some l =>
      atomic s ← read l Status;
      if bool_decide (s ≠ StatusRunning) then
        atomic _ ← read l Status; Exit
      else
        atomic now ← env (time_Now w);
        let enhancedReq :=
          {| CallRequest.FunctionName := CallRequest.FunctionName req;
             CallRequest.Parameters := CallRequest.Parameters req;
             CallRequest.RequestId := CallRequest.RequestId req;
             CallRequest.Metadata :=
               <["source" := "inter_plugin"]>
                 (<["source_plugin" := sourcePluginID]>
                    (<["target_plugin" := targetPluginID]>
                       (<["timestamp" := pretty (Time_Unix now)]>
                          (<["via_host" := "true"]> ∅)))) |} in
        atomic c ← read l Client;
        match c with
        | None => nil_dereference
        | Some client =>
            atomic _ ← env (client_CallPluginFunction w client enhancedReq);
            Exit
        end
  end.

(** [hostService.CallHostFunction]. *)
Definition CallHostFunction_go (req : CallRequest.t) : Goroutine :=
  match CallRequest.Metadata req !! key_target_plugin_id with
  | Some targetPluginID => callPluginFunction_go req targetPluginID
  | None =>
      atomic fn ← read_host (λ h, hostFunctions h !! CallRequest.FunctionName req);
      match fn with
      | None => Exit
      | Some None => nil_dereference
      | Some (Some _) =>
          atomic _ ← env (emit (EvHostFunction (CallRequest.FunctionName req)
                              (CallRequest.Parameters req)));
          Exit
      end
  end.

(** [PluginHost.LoadPlugin]; the record is the goroutine's own until it
    is registered. *)
Definition LoadPlugin_go (executablePath : string) : Goroutine :=
  atomic r ← GetPluginInfo w executablePath;
  match r with
  | (Some info, None) =>
      atomic pluginID ←
        (if bool_decide (bi_ID info = "") then
           now ← env (time_Now w);
           mret ("plugin-" +:+ pretty (Time_UnixNano now))
         else mret (bi_ID info));
      atomic cfg ← read_host config;
      atomic _ ←
        (l ← alloc {| ID := pluginID;
                      Name := bi_Name info;
                      Version := bi_Version info;
                      Description := bi_Description info;
                      Port := 0;
                      Capabilities := bi_Capabilities info;
                      Functions := bi_Functions info;
                      ExecutablePath := executablePath;
                      Process := None;
                      Command := None;
                      Client := None;
                      Connection := None;
                      Status := StatusStopped;
                      StartTime := Time_zero;
                      LastHeartbeat := Time_zero;
                      AutoRestart := AutoRestartPlugin cfg;
                      MaxRestarts := 3;
                      RestartCount := 0 |};
         registry_Register l);
      Exit
  | (_, Some _) => Exit
  | (None, None) => nil_dereference
  end.

(** [PluginHost.StartPlugin]. *)
Definition StartPlugin_go (pluginID : string) : Goroutine :=
  atomic r ← registry_Get pluginID;
  match r with
  | None => Exit
  | Some l =>
      atomic s ← read l Status;
      if bool_decide (s = StatusRunning) then Exit
      else startPluginProcess_go l Exit
  end.

(** [PluginHost.StopPlugin]. *)
Definition StopPlugin_go (pluginID : string) : Goroutine :=
  atomic r ← registry_Get pluginID;
  match r with
  | None => Exit
  | Some l => stopPluginProcess_go l Exit
  end.

(** [PluginHost.StopAllPlugins]. *)
Fixpoint stop_each_go (plugins : list loc) : Goroutine :=
  match plugins with
  | [] => Exit
  | l :: rest =>
      atomic s ← read l Status;
      if bool_decide (s = StatusRunning)
      then stopPluginProcess_go l (stop_each_go rest)
      else stop_each_go rest
  end.

Definition StopAllPlugins_go : Goroutine := Listing stop_each_go.

(** [PluginHost.CallPluginFunction]. *)
Definition CallPluginFunction_go (pluginID functionName : string)
    (params : list Param.t) : Goroutine :=
  atomic r ← registry_Get pluginID;
  match r with
  | None => Exit
  | Some l =>
      atomic s ← read l Status;
      if bool_decide (s ≠ StatusRunning) then
        atomic _ ← read l Status; Exit
      else
        atomic c ← read l Client;
        match c with
        | None => Exit
        | Some _ =>
            atomic t1 ← env (time_Now w);
            atomic t2 ← env (time_Now w);
            let req :=
              {| CallRequest.FunctionName := functionName;
                 CallRequest.Parameters := params;
                 CallRequest.RequestId := "host-" +:+ pretty (Time_UnixNano t1);
                 CallRequest.Metadata :=
                   <["source" := "host"]>
                     (<["timestamp" := pretty (Time_Unix t2)]> ∅) |} in
            atomic c ← read l Client;
            match c with
            | None => nil_dereference
            | Some client =>
                atomic _ ← env (client_CallPluginFunction w client req);
                Exit
            end
        end
  end.

(** The loop of [PluginHost.startGrpcServer], then [bound] with the port
    of the listener it leaves. *)
Fixpoint listen_go (fuel : nat) (port maxPort : Z)
    (bound : option Z → Goroutine) : Goroutine :=
  if port <=? maxPort then
    match fuel with
    | O => Atom out_of_fuel
    | S fuel' =>
        atomic err ← env (net_Listen w (":" +:+ pretty port));
        match err with
        | None => bound (Some port)
        | Some _ => listen_go fuel' (wrap64 (port + 1)) maxPort bound
        end
    end
  else bound None.

(** [PluginHost.Start]. *)
Definition Start_go (fuel : nat) : Goroutine :=
  atomic cfg ← read_host config;
  atomic startPort ← index (PortRange cfg) 0;
  atomic maxPort ← index (PortRange cfg) 1;
  let '(startPort, maxPort) :=
    if 0 <? cfg_Port cfg then (cfg_Port cfg, cfg_Port cfg)
    else (startPort, maxPort) in
  listen_go fuel startPort maxPort (λ r,
    match r with
    | None => Exit
    | Some port =>
        atomic _ ← modify (set_listener (Some port));
        atomic _ ← modify (set_actualPort port);
        atomic _ ← modify (set_grpcServer true);
        atomic _ ← env (emit (EvGo (GoServe port)));
        atomic interval ← read_host (λ h, HeartbeatInterval (config h));
        if interval <=? 0 then
          Atom (panic "non-positive interval for NewTicker")
        else
          atomic _ ← modify (set_heartbeatTicker (Some interval));
          atomic _ ← env (emit (EvGo GoHeartbeatSweep));
          Exit
    end).

(** The goroutine of a call. A listing in the call is what the call is
    given when it runs alone; the goroutine takes its own when it gets
    there. *)
Definition goroutine (c : Call) : Goroutine :=
  match c with
  | CallLoadPlugin path => LoadPlugin_go path
  | CallStartPlugin id => StartPlugin_go id
  | CallStopPlugin id => StopPlugin_go id
  | CallStopAllPlugins _ => StopAllPlugins_go
  | CallCallPluginFunction id fn params => CallPluginFunction_go id fn params
  | CallRegisterHostFunction name fn =>
      atomic _ ← RegisterHostFunction name fn; Exit
  | CallStart fuel => Start_go fuel
  | ProcessExit l waitErr => monitorPluginProcess_go l waitErr
  | HeartbeatTick _ => checkPluginsHealth_go
  | RpcRegisterPlugin _ req => RegisterPlugin_go req
  | ConnectBack l => connectToPlugin_go l
  | RpcHeartbeat req => Heartbeat_go req
  | RpcCallHostFunction req => CallHostFunction_go req
  end.

End Goroutines.

(** ** Runs of the host and its goroutines *)

(** The host and the goroutines that are under way. *)
Definition System : Type := PluginHost * list Goroutine.

Section Steps.
Context (w : World).

(** One step of a run: a call begins, as a goroutine of its own; or a
    goroutine takes its next step; or a goroutine gets a listing of the
    registry as it is then. A goroutine that panics takes the process
    down: there is no step. The application and the plugins call when
    they please; of the goroutines that the host launches itself (the
    monitor of a process, the connection back to a plugin, the heartbeat
    sweep) a run may begin more than the host has launched, so that what
    holds of every run holds of every run of the program. *)
Inductive step : System → System → Prop :=
| step_go h pool c :
    step (h, pool) (h, pool ++ [goroutine w c])
| step_atom h h' pool i m g :
    pool !! i = Some (Atom m) → m h = Done (g, h') →
    step (h, pool) (h', <[i := g]> pool)
| step_listing h pool i k plugins :
    pool !! i = Some (Listing k) →
    PluginRegistry.is_listing (registry h) plugins →
    step (h, pool) (h, <[i := k plugins]> pool).

(** The states the host can be in. *)
Definition reachable (cfg : option HostConfig)
    (defaults : gmap string HostFunction) (h : PluginHost) : Prop :=
  ∃ pool, rtc step (NewPluginHost cfg defaults, []) (h, pool).

End Steps.

(** * Vocabulary of the properties *)

(** What holds of every [PluginInfo] between calls: a running record has
    its connection and client, and the restart counter is within the
    budget (both are [int]s). *)
Record rec_ok (p : PluginInfo) : Prop := mk_rec_ok {
  ok_connected :
    Status p = StatusRunning → is_Some (Client p) ∧ is_Some (Connection p);
  ok_max : in_int64 (MaxRestarts p);
  ok_count : in_int64 (RestartCount p);
  ok_budget : RestartCount p <= MaxRestarts p
}.

(** The fields that only loading and registration write. *)
Definition same_plugin (p p' : PluginInfo) : Prop :=
  ID p' = ID p ∧ ExecutablePath p' = ExecutablePath p
  ∧ AutoRestart p' = AutoRestart p ∧ MaxRestarts p' = MaxRestarts p.

(** Two records with the same restart policy and counter: what the calls
    other than a crash detection leave of a record. *)
Definition same_budget (p p' : PluginInfo) : Prop :=
  AutoRestart p' = AutoRestart p ∧ MaxRestarts p' = MaxRestarts p
  ∧ RestartCount p' = RestartCount p.

(** A step of one record that keeps it well formed and leaves its ID. *)
Definition keeps_ok (p p' : PluginInfo) : Prop :=
  (rec_ok p → rec_ok p') ∧ ID p' = ID p.


(** Every registered ID leads to a record that carries this ID, and every
    record, registered or not, is well formed. *)
Record store_ok (pr : gmap string loc) (hp : list PluginInfo) : Prop :=
  mk_store_ok {
    inv_registry :
      ∀ id l, pr !! id = Some l → ∃ p, hp !! l = Some p ∧ ID p = id;
    inv_records : ∀ l p, hp !! l = Some p → rec_ok p
  }.

(** A property of the registry and of the records it points to. *)
Definition on_store (S : gmap string loc → list PluginInfo → Prop)
  (h : PluginHost) : Prop := S (registry h) (heap h).

Definition host_inv : PluginHost → Prop := on_store store_ok.

(** What holds whatever the goroutines do to each other: a pointer in the
    registry is a pointer to a record. *)
Definition pointers_valid (pr : gmap string loc) (hp : list PluginInfo)
  : Prop :=
  ∀ id l, pr !! id = Some l → is_Some (hp !! l).

Definition valid : PluginHost → Prop := on_store pointers_valid.

(** A goroutine all of whose steps keep the pointers valid. *)
Inductive safe : Goroutine → Prop :=
| safe_Exit : safe Exit
| safe_Atom m :
    (∀ h g h', valid h → m h = Done (g, h') → valid h') →
    (∀ h g h', valid h → m h = Done (g, h') → safe g) →
    safe (Atom m)
| safe_Listing k : (∀ plugins, safe (k plugins)) → safe (Listing k).


(** [m] keeps [I], whenever it returns. *)
Definition preserves {A} (I : PluginHost → Prop) (m : M A) : Prop :=
  ∀ h a h', I h → m h = Done (a, h') → I h'.

(** The record after the assignments of [RegisterPlugin]. *)
Definition registered (req : RegisterRequest.t) (now : Time) (p : PluginInfo)
  : PluginInfo :=
  set_LastHeartbeat now
    (set_Status StatusStarting
       (set_Capabilities (RegisterRequest.Capabilities req)
          (set_Port (RegisterRequest.Port req)
             (set_Description (RegisterRequest.Description req)
                (set_Version (RegisterRequest.Version req)
                   (set_Name (RegisterRequest.PluginName req)
                      (set_ID (RegisterRequest.PluginId req) p))))))).

(** The record that [LoadPlugin] creates. *)
Definition loaded (cfg : HostConfig) (pluginID executablePath : string)
  (info : PluginBasicInfo) : PluginInfo :=
  {| ID := pluginID;
     Name := bi_Name info;
     Version := bi_Version info;
     Description := bi_Description info;
     Port := 0;
     Capabilities := bi_Capabilities info;
     Functions := bi_Functions info;
     ExecutablePath := executablePath;
     Process := None;
     Command := None;
     Client := None;
     Connection := None;
     Status := StatusStopped;
     StartTime := Time_zero;
     LastHeartbeat := Time_zero;
     AutoRestart := AutoRestartPlugin cfg;
     MaxRestarts := 3;
     RestartCount := 0 |}.

(** * Vocabulary of the claims, and the hosts of the examples *)

Definition calc_info : PluginBasicInfo :=
  {| bi_ID := "calc"; bi_Name := "Calculator"; bi_Version := "1.0.0";
     bi_Description := "adds numbers"; bi_Logo := "";
     bi_Capabilities := ["math"]; bi_Functions := ["Add"] |}.

Definition ok_response : CallResponse.t :=
  {| CallResponse.Success := true; CallResponse.Message := "ok";
     CallResponse.Result := None; CallResponse.ErrorCode := "";
     CallResponse.RequestId := "r1" |}.

(** Every second the clock is read it has advanced by one second;
    port 50051 is taken; everything else succeeds. *)
Definition demo_world : World :=
  {| w_time_Now := λ tr, Z.of_nat (length tr) * Second;
     w_cmd_Start := λ _ _ _, None;
     w_cmd_Output := λ _ _ _, InfoOk calc_info;
     w_process_Kill := λ _ _, None;
     w_grpc_Dial := λ _ _, None;
     w_net_Listen := λ _ address,
       if bool_decide (address = ":50051") then Some "address already in use"
       else None;
     w_client_CallPluginFunction := λ _ _ _, inl ok_response |}.

(** The host after a call, when the call returns. *)
Definition after (w : World) (c : Call) (h : PluginHost) : PluginHost :=
  match run w c h with
  | Done (_, h') => h'
  | _ => h
  end.

Definition calc_register : RegisterRequest.t :=
  {| RegisterRequest.PluginId := "calc";
     RegisterRequest.PluginName := "Calculator";
     RegisterRequest.Version := "1.0.0";
     RegisterRequest.Description := "adds numbers";
     RegisterRequest.Port := 40000;
     RegisterRequest.Capabilities := ["math"] |}.

Definition host_fresh : PluginHost := NewPluginHost None ∅.

Definition host_loaded : PluginHost :=
  after demo_world (CallLoadPlugin "calc.exe")
    (after demo_world (CallStart 50) host_fresh).

Definition host_starting : PluginHost :=
  after demo_world (RpcRegisterPlugin [0%nat] calc_register)
    (after demo_world (CallStartPlugin "calc") host_loaded).

Definition host_running : PluginHost :=
  after demo_world (ConnectBack 0%nat) host_starting.

(** The record of the calculator plugin once it runs. *)
Definition calc_record : PluginInfo :=
  Eval vm_compute in
    default (loaded DefaultHostConfig "" "" calc_info)
      (heap host_running !! 0%nat).

Definition add_function : PluginFunction :=
  Some (λ params,
    match params with
    | [_; _] => (Some (Param.mk "sum" ParameterType_INT "3"), None)
    | _ => (None, Some "need two parameters")
    end).

Definition calc_plugin : Plugin.t :=
  Plugin.RegisterFunction "Add" add_function (Plugin.mk "calc" 40000 ∅).

Definition add_request (params : list Param.t) : CallRequest.t :=
  {| CallRequest.FunctionName := "Add"; CallRequest.Parameters := params;
     CallRequest.RequestId := "host-42"; CallRequest.Metadata := ∅ |}.

Definition is_spawn (e : Event) : bool :=
  match e with EvCmdStart _ _ => true | _ => false end.

(** The number of processes started so far. *)
Definition spawns (tr : list Event) : nat :=
  length (List.filter is_spawn tr).

(** The process handles the registry holds for an ID. *)
Definition process_handles (h : PluginHost) (id : string) : list Pid :=
  match registry h !! id with
  | Some l =>
      match heap h !! l with
      | Some p => option_list (Process p)
      | None => []
      end
  | None => []
  end.

(** Two records that agree on every field but [LastHeartbeat]. *)
Definition differ_in_LastHeartbeat_only (p p' : PluginInfo) : Prop :=
  ID p' = ID p ∧ Name p' = Name p ∧ Version p' = Version p
  ∧ Description p' = Description p ∧ Port p' = Port p
  ∧ Capabilities p' = Capabilities p ∧ Functions p' = Functions p
  ∧ ExecutablePath p' = ExecutablePath p ∧ Process p' = Process p
  ∧ Command p' = Command p ∧ Client p' = Client p
  ∧ Connection p' = Connection p ∧ Status p' = Status p
  ∧ StartTime p' = StartTime p ∧ AutoRestart p' = AutoRestart p
  ∧ MaxRestarts p' = MaxRestarts p ∧ RestartCount p' = RestartCount p.

(** Two hosts that agree on everything but the records and the trace. *)
Definition same_host_fields (h h' : PluginHost) : Prop :=
  config h' = config h ∧ registry h' = registry h
  ∧ hostFunctions h' = hostFunctions h ∧ listener h' = listener h
  ∧ actualPort h' = actualPort h ∧ grpcServer h' = grpcServer h
  ∧ heartbeatTicker h' = heartbeatTicker h.

Definition is_host_function_call (e : Event) : bool :=
  match e with EvHostFunction _ _ => true | _ => false end.

(** A failure response with the given error code that echoes the request
    ID. *)
Definition failure_response (req : CallRequest.t) (code : string)
  (resp : CallResponse.t) : Prop :=
  CallResponse.Success resp = false
  ∧ CallResponse.ErrorCode resp = code
  ∧ CallResponse.RequestId resp = CallRequest.RequestId req.

(** The same outcome, in a host with another function table. *)
Definition with_hostFunctions {A} (hf : gmap string HostFunction)
  (o : Outcome (A * PluginHost)) : Outcome (A * PluginHost) :=
  match o with
  | Done (a, h') => Done (a, set_hostFunctions hf h')
  | Panic msg => Panic msg
  | OutOfFuel => OutOfFuel
  end.

(** A host function named like the plugin function of the requests
    below. *)
Definition host_with_Add : PluginHost :=
  after demo_world
    (CallRegisterHostFunction "Add"
       (Some (λ _, (Some (Param.mk "sum" ParameterType_INT "0"), None))))
    host_running.

Definition relay_request (target : string) : CallRequest.t :=
  {| CallRequest.FunctionName := "Add";
     CallRequest.Parameters := [];
     CallRequest.RequestId := "inter-plugin-7";
     CallRequest.Metadata :=
       <["plugin_id" := "editor"]> (<["target_plugin_id" := target]> ∅) |}.

(** The restart counter is within the budget, both being [int]s. *)
Definition budget_ok (p : PluginInfo) : Prop :=
  in_int64 (MaxRestarts p) ∧ in_int64 (RestartCount p)
  ∧ RestartCount p <= MaxRestarts p.

(** The two ways a crash is detected: the monitor of the process sees it
    exit with an error, or the heartbeat sweep runs at [now]. *)
Inductive Detection :=
| ProcessExited (waitErr : string)
| HeartbeatSweep (cfg : HostConfig) (now : Time).

Definition detect (w : World) (port : Z) (l : loc) (d : Detection) : Act unit :=
  match d with
  | ProcessExited e => monitorPluginProcess w port l (Some e)
  | HeartbeatSweep cfg now => checkPluginHealth w cfg port now l
  end.

(** The record is one the detection declares crashed. *)
Definition crashes (d : Detection) (p : PluginInfo) : Prop :=
  match d with
  | ProcessExited _ => is_Some (Command p) ∧ Status p ≠ StatusStopping
  | HeartbeatSweep cfg now =>
      Status p = StatusRunning
      ∧ Duration_mul (HeartbeatInterval cfg) (MaxHeartbeatMiss cfg)
        < Time_Sub now (LastHeartbeat p)
  end.

(** A record with a budget of two restarts. *)
Definition fragile_record : PluginInfo :=
  {| ID := "calc"; Name := "Calculator"; Version := "1.0.0";
     Description := "adds numbers"; Port := 40000;
     Capabilities := ["math"]; Functions := ["Add"];
     ExecutablePath := "calc.exe";
     Process := Some 6%nat; Command := Some 6%nat;
     Client := Some 11%nat; Connection := Some 11%nat;
     Status := StatusRunning;
     StartTime := 7 * Second; LastHeartbeat := 9 * Second;
     AutoRestart := true; MaxRestarts := 2; RestartCount := 0 |}.

(** The time without heartbeat after which a record is declared crashed,
    and the test the sweep makes, both in the arithmetic of Duration. *)
Definition heartbeat_timeout (cfg : HostConfig) : Duration :=
  Duration_mul (HeartbeatInterval cfg) (MaxHeartbeatMiss cfg).

Definition stale (cfg : HostConfig) (now : Time) (p : PluginInfo) : Prop :=
  heartbeat_timeout cfg < Time_Sub now (LastHeartbeat p).

(** The auto-restart policy applies to the record. *)
Definition restartable (p : PluginInfo) : bool :=
  AutoRestart p && (RestartCount p <? MaxRestarts p).

(** The configuration of the example: a second between heartbeats, three
    of them may be missed. *)
Definition sweep_config : HostConfig :=
  {| cfg_Port := 0; PortRange := [50051; 50100]; DebugMode := false;
     LogLevel := "info"; LogDir := "./logs";
     HeartbeatInterval := 1 * Second; MaxHeartbeatMiss := 3;
     AutoRestartPlugin := true; EnablePluginReconnect := true |}.

(** A host with the configuration of the example, whose calculator plugin
    runs; then the same host two seconds after a heartbeat of the plugin,
    and four seconds after it. *)
Definition sweep_host_running : PluginHost :=
  after demo_world (ConnectBack 0%nat)
    (after demo_world (RpcRegisterPlugin [0%nat] calc_register)
       (after demo_world (CallStartPlugin "calc")
          (after demo_world (CallLoadPlugin "calc.exe")
             (after demo_world (CallStart 50)
                (NewPluginHost (Some sweep_config) ∅))))).

Definition beat (id : string) : Call :=
  RpcHeartbeat (HeartbeatRequest.mk id 0 "running").

Definition sweep_host_2s : PluginHost :=
  after demo_world (beat "calc") sweep_host_running.

Definition sweep_host_4s : PluginHost :=
  after demo_world (beat "ghost") (after demo_world (beat "ghost") sweep_host_2s).

Definition record_2s : PluginInfo :=
  Eval vm_compute in default fragile_record (heap sweep_host_2s !! 0%nat).

(** The configuration of the README's quick start,
    [HostConfig{Port: 50051, DebugMode: true}]: the fields it does not
    name have their zero values, so the port range is an empty slice. *)
Definition readme_config : HostConfig :=
  {| cfg_Port := 50051; PortRange := []; DebugMode := true;
     LogLevel := ""; LogDir := "";
     HeartbeatInterval := 0; MaxHeartbeatMiss := 0;
     AutoRestartPlugin := false; EnablePluginReconnect := false |}.

(** A configuration with the single-port range [50051, 50051]. *)
Definition single_port_config : HostConfig :=
  {| cfg_Port := 0; PortRange := [50051; 50051]; DebugMode := false;
     LogLevel := "info"; LogDir := "./logs";
     HeartbeatInterval := 10 * Second; MaxHeartbeatMiss := 3;
     AutoRestartPlugin := true; EnablePluginReconnect := true |}.

(** ** A goroutine that runs alone *)

(** What a call that returns leaves of the host. *)
Definition host_of {A} (o : Outcome (A * PluginHost)) : Outcome PluginHost :=
  match o with
  | Done (_, h) => Done h
  | Panic msg => Panic msg
  | OutOfFuel => OutOfFuel
  end.

(** The listing a call is given. *)
Definition listing_of (c : Call) : list loc :=
  match c with
  | CallStopAllPlugins plugins
  | HeartbeatTick plugins
  | RpcRegisterPlugin plugins _ => plugins
  | _ => []
  end.

(** [alone plugins g h o]: the goroutine [g], started in [h] and run to
    its end with no step of another goroutine in between, ends as [o]
    says; [plugins] is the listing of the registry that it gets, and a
    listing of the registry as it is then. *)
Inductive alone (plugins : list loc)
  : Goroutine → PluginHost → Outcome PluginHost → Prop :=
| alone_Exit h : alone plugins Exit h (Done h)
| alone_Atom m h g h' o :
    m h = Done (g, h') → alone plugins g h' o → alone plugins (Atom m) h o
| alone_Panic m h msg :
    m h = Panic msg → alone plugins (Atom m) h (Panic msg)
| alone_OutOfFuel m h :
    m h = OutOfFuel → alone plugins (Atom m) h OutOfFuel
| alone_Listing k h o :
    PluginRegistry.is_listing (registry h) plugins →
    alone plugins (k plugins) h o → alone plugins (Listing k) h o.

(** The host in which the code that holds the pointer [l] has brought the
    record and the trace to [s]. *)
Definition put (l : loc) (s : PluginInfo * list Event) (h : PluginHost)
  : PluginHost :=
  set_trace s.2 (set_heap (<[l := s.1]> (heap h)) h).
(** ** Schedules *)

(** A run written down step by step: the call that begins and runs to
    its end with no other goroutine in between, the call that begins, the
    goroutine that takes its next step, the goroutine that gets the
    listing. The goroutines are numbered in the order in which they
    begin. *)
Inductive Choice :=
| Whole (c : Call)
| Begin (c : Call)
| Next (i : nat)
| Given (i : nat) (plugins : list loc).

#[global] Instance is_listing_dec pr plugins :
  Decision (PluginRegistry.is_listing pr plugins).
Proof. unfold PluginRegistry.is_listing. apply _. Defined.

#[global] Instance listing_ok_dec h c : Decision (listing_ok h c).
Proof. destruct c; cbn; apply _. Defined.

(** The goroutine [i] takes its steps, at most [fuel] of them, until it
    is over. *)
Fixpoint finish (fuel : nat) (plugins : list loc) (i : nat) (s : System)
  : option System :=
  match s.2 !! i, fuel with
  | Some Exit, _ => Some s
  | Some (Atom m), S fuel' =>
      match m s.1 with
      | Done (g, h') => finish fuel' plugins i (h', <[i := g]> s.2)
      | _ => None
      end
  | Some (Listing k), S fuel' =>
      if decide (PluginRegistry.is_listing (registry s.1) plugins)
      then finish fuel' plugins i (s.1, <[i := k plugins]> s.2)
      else None
  | _, _ => None
  end.

Definition choose (w : World) (ch : Choice) (s : System) : option System :=
  match ch with
  | Whole c =>
      finish 1000 (listing_of c) (length s.2) (s.1, s.2 ++ [goroutine w c])
  | Begin c => Some (s.1, s.2 ++ [goroutine w c])
  | Next i =>
      match s.2 !! i with
      | Some (Atom m) =>
          match m s.1 with
          | Done (g, h') => Some (h', <[i := g]> s.2)
          | _ => None
          end
      | _ => None
      end
  | Given i plugins =>
      match s.2 !! i with
      | Some (Listing k) =>
          if decide (PluginRegistry.is_listing (registry s.1) plugins)
          then Some (s.1, <[i := k plugins]> s.2)
          else None
      | _ => None
      end
  end.

Fixpoint schedule (w : World) (chs : list Choice) (s : System)
  : option System :=
  match chs with
  | [] => Some s
  | ch :: chs' =>
      match choose w ch s with
      | Some s' => schedule w chs' s'
      | None => None
      end
  end.

(** The host at the end of a schedule that starts with a new host. *)
Definition host_after (w : World) (cfg : option HostConfig)
    (chs : list Choice) : option PluginHost :=
  fst <$> schedule w chs (NewPluginHost cfg ∅, []).

(** The calculator plugin is loaded, started and has registered. *)
Definition calc_starts : list Choice :=
  [Whole (CallStart 50); Whole (CallLoadPlugin "calc.exe");
   Whole (CallStartPlugin "calc");
   Whole (RpcRegisterPlugin [0%nat] calc_register)].

(** StopPlugin runs while the connection back to the plugin is between
    its store of the client and its store of the status. *)
Definition stop_during_connect : list Choice :=
  calc_starts
  ++ [Begin (ConnectBack 0%nat); Next 4%nat; Next 4%nat; Next 4%nat;
      Next 4%nat; Next 4%nat;
      Whole (CallStopPlugin "calc");
      Next 4%nat].

Definition host_raced : PluginHost :=
  Eval vm_compute in
    default host_fresh (host_after demo_world None stop_during_connect).

(** StopPlugin, then the connection back to the plugin: no two calls
    overlap. *)
Definition host_reconnected : PluginHost :=
  after demo_world (ConnectBack 0%nat)
    (after demo_world (CallStopPlugin "calc") host_starting).
















(** What the sweep at [now] makes of a record that it goes through. *)
Definition swept (cfg : HostConfig) (now : Time) (p p' : PluginInfo) : Prop :=
  (Status p ≠ StatusRunning → p' = p)
  ∧ (Status p = StatusRunning → ¬ stale cfg now p → p' = p)
  ∧ (Status p = StatusRunning → stale cfg now p →
       Status p' ≠ StatusRunning
       ∧ (restartable p = false → p' = set_Status StatusCrashed p)
       ∧ (restartable p = true →
            Status p' = StatusStarting ∨ Status p' = StatusError)).


(** The panic of the goroutine [i] at its next step, after a schedule
    that starts with a new host. *)
Definition next_panic (w : World) (cfg : option HostConfig)
    (chs : list Choice) (i : nat) : option string :=
  match schedule w chs (NewPluginHost cfg ∅, []) with
  | Some (h, pool) =>
      match pool !! i with
      | Some (Atom m) =>
          match m h with
          | Panic msg => Some msg
          | _ => None
          end
      | _ => None
      end
  | None => None
  end.

(** The plugin runs; StopPlugin runs while a call of the host's
    CallPluginFunction is between its test of the client and its call of
    the client. *)
Definition stop_during_call : list Choice :=
  calc_starts
  ++ [Whole (ConnectBack 0%nat);
      Begin (CallCallPluginFunction "calc" "Add" []);
      Next 5%nat; Next 5%nat; Next 5%nat; Next 5%nat; Next 5%nat;
      Whole (CallStopPlugin "calc");
      Next 5%nat].

(** ** More of the host's API (host.go) *)

Section HostLookup.
Context (w : World).

(** [PluginHost.StartPluginByPath]; [plugins] is what [registry.List()]
    returned. A record with the path is returned as it is. *)
Definition StartPluginByPath (plugins : list loc) (executablePath : string)
  : M (option loc * error) :=
  found ←
    find_plugin (λ plugin,
      bool_decide (ExecutablePath plugin = executablePath)) plugins;
  match found with
  | Some l => mret (Some l, None)
  | None =>
      r ← LoadPlugin w executablePath;
      match r with
      | (_, Some e) => mret (None, Some e)
      | (Some l, None) =>
          targetPlugin ← deref l;
          err ← StartPlugin w (ID targetPlugin);
          mret (Some l, err)
      | (None, None) =>
          panic "invalid memory address or nil pointer dereference"
      end
  end.

End HostLookup.

(** [PluginHost.GetActualPort]. *)
Definition GetActualPort : M Z := h ← host; mret (actualPort h).

(** ** The plugin's outbound calls (plugin.go) *)

(** The connection of a plugin to its host, [Plugin.HostClient]: what the
    host answers to a request, or the error of the transport. *)
Abbreviation HostClient := (option (CallRequest.t → CallResponse.t + string)).

Module PluginCalls.

(** The request [Plugin.CallHostFunction] builds; [t1] and [t2] are its two
    readings of the clock. *)
Definition CallHostFunction_request (p : Plugin.t) (functionName : string)
    (params : list Param.t) (t1 t2 : Time) : CallRequest.t :=
  {| CallRequest.FunctionName := functionName;
     CallRequest.Parameters := params;
     CallRequest.RequestId :=
       "plugin-" +:+ Plugin.ID p +:+ "-" +:+ pretty (Time_UnixNano t1);
     CallRequest.Metadata :=
       <["source" := "plugin"]>
         (<["plugin_id" := Plugin.ID p]>
            (<["timestamp" := pretty (Time_Unix t2)]> ∅)) |}.

(** The request [Plugin.CallOtherPlugin] builds. *)
Definition CallOtherPlugin_request (p : Plugin.t)
    (targetPluginID functionName : string) (params : list Param.t)
    (t1 t2 : Time) : CallRequest.t :=
  {| CallRequest.FunctionName := functionName;
     CallRequest.Parameters := params;
     CallRequest.RequestId :=
       "inter-plugin-" +:+ Plugin.ID p +:+ "-" +:+ pretty (Time_UnixNano t1);
     CallRequest.Metadata :=
       <["source" := "plugin"]>
         (<["plugin_id" := Plugin.ID p]>
            (<["target_plugin_id" := targetPluginID]>
               (<["call_type" := "inter_plugin"]>
                  (<["timestamp" := pretty (Time_Unix t2)]> ∅)))) |}.

(** Sending a request through [p.HostClient.CallHostFunction]. *)
Definition send (client : HostClient) (req : CallRequest.t)
  : Outcome (option CallResponse.t * error) :=
  match client with
  | None => Panic "invalid memory address or nil pointer dereference"
  | Some call =>
      match call req with
      | inr e => Done (None, Some e)
      | inl resp => Done (Some resp, None)
      end
  end.

(** [Plugin.CallHostFunction]. *)
Definition CallHostFunction (p : Plugin.t) (client : HostClient)
    (functionName : string) (params : list Param.t) (t1 t2 : Time)
  : Outcome (option CallResponse.t * error) :=
  send client (CallHostFunction_request p functionName params t1 t2).

(** [Plugin.CallOtherPlugin]. *)
Definition CallOtherPlugin (p : Plugin.t) (client : HostClient)
    (targetPluginID functionName : string) (params : list Param.t)
    (t1 t2 : Time) : Outcome (option CallResponse.t * error) :=
  send client
    (CallOtherPlugin_request p targetPluginID functionName params t1 t2).

End PluginCalls.

(** * Vocabulary of the further properties *)

(** The events of [n] attempts to listen, on the ports from [port] on. *)
Fixpoint listens (port : Z) (n : nat) : list Event :=
  match n with
  | O => []
  | S n' => EvNetListen (":" +:+ pretty port) :: listens (port + 1) n'
  end.

(** The events that release what a record holds: killing its process,
    closing its connection. *)
Definition is_cleanup (e : Event) : bool :=
  match e with
  | EvProcessKill _ | EvConnClose _ => true
  | _ => false
  end.
(** * Properties *)

(** ** Arithmetic *)

Lemma wrap64_id (z : Z) : in_int64 z → wrap64 z = z.
Proof.
  unfold in_int64, int64_min, int64_max, wrap64.
  intros Hz. rewrite Z.mod_small; lia.
Qed.

Lemma wrap64_range (z : Z) : in_int64 (wrap64 z).
Proof.
  unfold in_int64, int64_min, int64_max, wrap64.
  pose proof (Z.mod_pos_bound (z + 2 ^ 63) (2 ^ 64)). lia.
Qed.

Lemma Time_Sub_exact (t u : Time) : in_int64 (t - u) → Time_Sub t u = t - u.
Proof.
  unfold in_int64, Time_Sub. intros Hd.
  destruct (Z.ltb_spec (t - u) int64_min); [lia |].
  destruct (Z.ltb_spec int64_max (t - u)); [lia | done].
Qed.

Lemma Duration_mul_exact (a b : Duration) :
  in_int64 (a * b) → Duration_mul a b = a * b.
Proof. apply wrap64_id. Qed.

(** ** One record *)

Ltac act_unfold :=
  unfold mbind, mret, Act_bind, Act_ret, self, assign, eff,
    cmd_Start, process_Kill, conn_Close, grpc_Dial, time_Now, time_Sleep, emit;
  cbn.

(** Case analysis along the control flow of a record's method. *)
Ltac act_cases := act_unfold; repeat (case_match; simplify_eq/=).

Ltac int64_lia := unfold in_int64, int64_min, int64_max in *; lia.

(** From the test of the restart policy to the inequality it decides. *)
Ltac budget_left :=
  match goal with
  | H : _ && (_ <? _) = true |- _ => apply andb_prop in H as [_ ?%Z.ltb_lt]
  end.

(** The restart policy of the process monitor is not entered from
    [StatusStopped]. *)
Ltac not_crashed :=
  match goal with
  | H : _ && false && _ = true |- _ =>
      rewrite andb_false_r in H; discriminate H
  end.

(** Use what is known of the start sequence at the place it is called. *)
Ltac use_start lem :=
  match goal with
  | H : startPluginProcess _ ?port ?l (?x, ?t) = _ |- _ =>
      let Hs := fresh "Hs" in
      pose proof (lem port l x t) as Hs; rewrite H in Hs
  end.

Lemma count_step_ok (p : PluginInfo) :
  rec_ok p → RestartCount p < MaxRestarts p →
  wrap64 (RestartCount p + 1) = RestartCount p + 1.
Proof. intros [_ Hm Hc _] Hlt. apply wrap64_id. int64_lia. Qed.

Section RecordLemmas.
Context (w : World).

Lemma startPluginProcess_ok port l p tr :
  rec_ok p → rec_ok (startPluginProcess w port l (p, tr)).2.1.
Proof.
  intros [Hc Hm Hn Hb]. unfold startPluginProcess.
  act_cases; split; cbn; done.
Qed.

Lemma startPluginProcess_same port l p tr :
  same_plugin p (startPluginProcess w port l (p, tr)).2.1
  ∧ RestartCount (startPluginProcess w port l (p, tr)).2.1 = RestartCount p.
Proof. unfold startPluginProcess. act_cases; done. Qed.

Lemma startPluginProcess_status port l p tr :
  Status (startPluginProcess w port l (p, tr)).2.1 = StatusStarting
  ∨ Status (startPluginProcess w port l (p, tr)).2.1 = StatusError.
Proof. unfold startPluginProcess. act_cases; auto. Qed.

Lemma stopPluginProcess_ok p tr :
  rec_ok p → rec_ok (stopPluginProcess w (p, tr)).2.1.
Proof.
  intros [Hc Hm Hn Hb]. unfold stopPluginProcess.
  act_cases; split; cbn; done.
Qed.

Lemma stopPluginProcess_same p tr :
  same_plugin p (stopPluginProcess w (p, tr)).2.1.
Proof. unfold stopPluginProcess. act_cases; done. Qed.


Lemma connectToPlugin_ok p tr :
  rec_ok p → rec_ok (connectToPlugin w (p, tr)).2.1.
Proof.
  intros [Hc Hm Hn Hb]. unfold connectToPlugin.
  act_cases; split; cbn; done.
Qed.

Lemma connectToPlugin_same p tr :
  same_plugin p (connectToPlugin w (p, tr)).2.1.
Proof. unfold connectToPlugin. act_cases; done. Qed.

(** A crash detected with budget left: the counter moves by one and the
    start sequence runs. *)
Lemma restart_ok port l p tr :
  rec_ok p → RestartCount p < MaxRestarts p →
  rec_ok (startPluginProcess w port l
            (set_RestartCount (wrap64 (RestartCount p + 1))
               (set_Status StatusCrashed p), tr)).2.1.
Proof.
  intros Hp Hlt. apply startPluginProcess_ok.
  rewrite count_step_ok by done.
  destruct Hp as [Hc Hm Hn Hb]. split; cbn; [done | done | int64_lia | lia].
Qed.

Lemma monitorPluginProcess_ok port l waitErr p tr :
  rec_ok p → rec_ok (monitorPluginProcess w port l waitErr (p, tr)).2.1.
Proof.
  intros Hp. unfold monitorPluginProcess.
  act_cases; try done; try not_crashed;
    try (by destruct Hp; split; simpl).
  budget_left.
  match goal with H : startPluginProcess _ _ _ (_, ?t) = _ |- _ =>
    pose proof (restart_ok port l p t Hp) as Hr; rewrite H in Hr
  end.
  by apply Hr.
Qed.

Lemma monitorPluginProcess_same port l waitErr p tr :
  same_plugin p (monitorPluginProcess w port l waitErr (p, tr)).2.1.
Proof.
  unfold monitorPluginProcess. act_cases; try done; try not_crashed.
  use_start startPluginProcess_same. apply Hs.
Qed.


Lemma checkPluginHealth_ok cfg port now l p tr :
  rec_ok p → rec_ok (checkPluginHealth w cfg port now l (p, tr)).2.1.
Proof.
  intros Hp. unfold checkPluginHealth.
  act_cases; try done; try (by destruct Hp; split; simpl).
  budget_left.
  match goal with H : startPluginProcess _ _ _ (_, ?t) = _ |- _ =>
    pose proof (restart_ok port l p t Hp) as Hr; rewrite H in Hr
  end.
  by apply Hr.
Qed.

Lemma checkPluginHealth_same cfg port now l p tr :
  same_plugin p (checkPluginHealth w cfg port now l (p, tr)).2.1.
Proof.
  unfold checkPluginHealth. act_cases; try done.
  use_start startPluginProcess_same. apply Hs.
Qed.


Lemma registered_ok req now p : rec_ok p → rec_ok (registered req now p).
Proof. intros [Hc Hm Hn Hb]. split; done. Qed.


Lemma updatePluginInfo_eq req p tr :
  updatePluginInfo w req (p, tr)
  = (tt, (registered req (w_time_Now w tr) p, tr ++ [EvTimeNow])).
Proof. reflexivity. Qed.

End RecordLemmas.

(** From here on the assignments of registration are kept together. *)
#[local] Opaque updatePluginInfo registered.

(** ** The registry and the heap *)

(** Assigning to the fields of a record other than its ID. *)
Lemma store_ok_update pr hp l p p' :
  store_ok pr hp → hp !! l = Some p → keeps_ok p p' →
  store_ok pr (<[l := p']> hp).
Proof.
  intros [Hr Hp] Hl [Hok Hid]. split.
  - intros id l0 Hl0. destruct (Hr id l0 Hl0) as (p0 & Hp0 & Hid0).
    destruct (decide (l0 = l)) as [-> |].
    + exists p'. rewrite list_lookup_insert_eq by (by eapply lookup_lt_Some).
      split; [done | congruence].
    + exists p0. by rewrite list_lookup_insert_ne.
  - intros l0 p0. destruct (decide (l0 = l)) as [-> |].
    + rewrite list_lookup_insert_eq by (by eapply lookup_lt_Some).
      intros [= <-]. eauto.
    + rewrite list_lookup_insert_ne by done. apply Hp.
Qed.

(** A new record, registered under its ID. *)
Lemma store_ok_alloc pr hp p :
  store_ok pr hp → rec_ok p →
  store_ok (<[ID p := length hp]> pr) (hp ++ [p]).
Proof.
  intros [Hr Hp] Hok. split.
  - intros id l. destruct (decide (id = ID p)) as [-> |].
    + rewrite lookup_insert_eq. intros [= <-]. exists p.
      by rewrite lookup_app_r, Nat.sub_diag.
    + rewrite lookup_insert_ne by done. intros Hl.
      destruct (Hr id l Hl) as (p0 & Hp0 & Hid0). exists p0.
      split; [| done]. apply lookup_app_l_Some, Hp0.
  - intros l p0 Hl. apply lookup_app_Some in Hl as [Hl | [_ Hl]]; [eauto |].
    apply list_lookup_singleton_Some in Hl as [_ <-]. done.
Qed.

(** A record that changes its ID and is filed again under the new one, as
    registration does. *)
Lemma store_ok_rekey pr hp l p p' :
  store_ok pr hp → hp !! l = Some p → pr !! ID p = Some l → rec_ok p' →
  store_ok (<[ID p' := l]> (delete (ID p) pr)) (<[l := p']> hp).
Proof.
  intros [Hr Hp] Hl Hreg Hok. split.
  - intros id l0. destruct (decide (id = ID p')) as [-> |].
    + rewrite lookup_insert_eq. intros [= <-]. exists p'.
      by rewrite list_lookup_insert_eq by (by eapply lookup_lt_Some).
    + rewrite lookup_insert_ne by done.
      destruct (decide (id = ID p)) as [-> |].
      * by rewrite lookup_delete_eq.
      * rewrite lookup_delete_ne by done. intros Hl0.
        destruct (Hr id l0 Hl0) as (p0 & Hp0 & Hid0). exists p0.
        split; [| done]. rewrite list_lookup_insert_ne; [done |].
        intros ->. congruence.
  - intros l0 p0. destruct (decide (l0 = l)) as [-> |].
    + rewrite list_lookup_insert_eq by (by eapply lookup_lt_Some).
      by intros [= <-].
    + rewrite list_lookup_insert_ne by done. apply Hp.
Qed.

(** Distinct IDs lead to distinct records: a listing has no repetition. *)
Lemma store_ok_values_NoDup pr hp :
  store_ok pr hp → NoDup (PluginRegistry.values pr).
Proof.
  intros [Hr _]. unfold PluginRegistry.values.
  apply NoDup_fmap_2_strong; [| apply NoDup_map_to_list].
  intros [id1 l1] [id2 l2] H1%elem_of_map_to_list H2%elem_of_map_to_list.
  cbn. intros <-. destruct (Hr _ _ H1) as (p1 & Hp1 & <-).
  destruct (Hr _ _ H2) as (p2 & Hp2 & <-). congruence.
Qed.

Lemma is_listing_elem (pr : gmap string loc) plugins l :
  PluginRegistry.is_listing pr plugins → l ∈ plugins → ∃ id, pr !! id = Some l.
Proof.
  unfold PluginRegistry.is_listing, PluginRegistry.values. intros Hperm Hl.
  rewrite Hperm in Hl. apply list_elem_of_fmap in Hl as [[id l'] [-> Hin]].
  exists id. by apply elem_of_map_to_list.
Qed.



(** ** Runs of the host's methods *)

Ltac m_unfold :=
  unfold mbind, mret, M_bind, M_ret, host, modify, panic, out_of_fuel, env,
    deref, alloc, registry_Get, registry_Register, registry_Unregister,
    PluginRegistry.Get, PluginRegistry.Register, PluginRegistry.Unregister in *.

(** Symbolic execution of a run that returned. *)
Ltac m_run := repeat (progress (m_unfold; simplify_eq/=) || case_match).

Lemma preserves_bind {A B} I (m : M A) (k : A → M B) :
  preserves I m → (∀ a, preserves I (k a)) → preserves I (m ≫= k).
Proof.
  intros Hm Hk h b h' HI. unfold mbind, M_bind.
  destruct (m h) as [[a h1] | |] eqn:E; [| done | done].
  intros Hrun. eapply Hk; [| exact Hrun]. eapply Hm; eauto.
Qed.

Lemma preserves_ret {A} I (a : A) : preserves I (mret a).
Proof. intros h a' h' HI [= _ <-]. done. Qed.

Lemma preserves_for_each I (ls : list loc) (body : loc → M unit) :
  (∀ l, preserves I (body l)) → preserves I (for_each ls body).
Proof.
  intros Hbody. induction ls as [| l ls IH]; cbn.
  - apply preserves_ret.
  - apply preserves_bind; [apply Hbody | intros _; apply IH].
Qed.

Lemma preserves_host I : preserves I host.
Proof. intros h a h' HI [= _ <-]. done. Qed.

Lemma preserves_deref I l : preserves I (deref l).
Proof.
  intros h a h' HI. unfold deref. case_match; [| done]. by intros [= _ <-].
Qed.

Lemma preserves_registry_Get I id : preserves I (registry_Get id).
Proof. intros h a h' HI [= _ <-]. done. Qed.

Lemma preserves_panic {A} I msg : preserves I (panic (A := A) msg).
Proof. intros h a h' _ [=]. Qed.

Lemma preserves_out_of_fuel {A} I : preserves I (out_of_fuel (A := A)).
Proof. intros h a h' _ [=]. Qed.

(** The trace, and the fields of the host other than the registry and the
    heap, are not read by a property of the store. *)
Lemma preserves_env {A} S (m : Eff A) : preserves (on_store S) (env m).
Proof.
  intros h a h' HI. unfold env. destruct (m (trace h)) as [a' tr'].
  by intros [= _ <-].
Qed.

Lemma preserves_modify_other S (f : PluginHost → PluginHost) :
  (∀ h, registry (f h) = registry h ∧ heap (f h) = heap h) →
  preserves (on_store S) (modify f).
Proof.
  intros Hf h a h' HI [= _ <-]. destruct (Hf h) as [Er Eh].
  unfold on_store. by rewrite Er, Eh.
Qed.

Create HintDb preserve discriminated.
#[local] Hint Resolve preserves_ret preserves_host preserves_deref
  preserves_registry_Get preserves_panic preserves_out_of_fuel : preserve.
#[local] Hint Extern 0 (preserves _ (env _)) =>
  apply preserves_env : preserve.

Ltac pres_step :=
  first
    [ solve [auto 1 with preserve nocore]
    | apply preserves_modify_other; by intros
    | progress cbv zeta
    | apply preserves_bind; [| intros ?]
    | apply preserves_for_each; intros ?
    | match goal with
      | |- preserves _ (match ?x with _ => _ end) => destruct x
      end ].

(** Follow the structure of a method, down to the calls a hint covers. *)
Ltac pres := repeat pres_step.

(** *** What every call does to the store, but for loading, registration
    and the connection back to a plugin *)

Section StoreProperty.
Context (w : World).
Context (S : gmap string loc → list PluginInfo → Prop).
Context (T : PluginInfo → PluginInfo → Prop).

(** [S] allows a record to make a [T]-step, and the methods of a record
    make [T]-steps. *)
Hypothesis S_update :
  ∀ pr hp l p p', S pr hp → hp !! l = Some p → T p p' → S pr (<[l := p']> hp).
Hypothesis T_start :
  ∀ port l p tr, T p (startPluginProcess w port l (p, tr)).2.1.
Hypothesis T_stop : ∀ p tr, T p (stopPluginProcess w (p, tr)).2.1.
Hypothesis T_monitor :
  ∀ port l e p tr, T p (monitorPluginProcess w port l e (p, tr)).2.1.
Hypothesis T_check :
  ∀ cfg port now l p tr, T p (checkPluginHealth w cfg port now l (p, tr)).2.1.
Hypothesis T_heartbeat : ∀ now p, T p (set_LastHeartbeat now p).

Lemma preserves_on_plugin {A} (l : loc) (m : Act A) :
  (∀ p tr, T p (m (p, tr)).2.1) → preserves (on_store S) (on_plugin l m).
Proof.
  intros HT h a h' HI. unfold on_plugin.
  destruct (heap h !! l) as [p |] eqn:El; [| done].
  specialize (HT p (trace h)).
  destruct (m (p, trace h)) as [a' [p' tr']]. cbn in *.
  intros [= _ <-]. eapply S_update; eauto.
Qed.

#[local] Hint Extern 0 (preserves _ (on_plugin _ _)) =>
  apply preserves_on_plugin; intros; auto : preserve.

Lemma StartPlugin_preserves id : preserves (on_store S) (StartPlugin w id).
Proof. unfold StartPlugin. pres. Qed.

Lemma StopPlugin_preserves id : preserves (on_store S) (StopPlugin w id).
Proof. unfold StopPlugin. pres. Qed.

Lemma StopAllPlugins_preserves plugins :
  preserves (on_store S) (StopAllPlugins w plugins).
Proof. unfold StopAllPlugins. pres. Qed.

Lemma CallPluginFunction_preserves id fn params :
  preserves (on_store S) (CallPluginFunction w id fn params).
Proof. unfold CallPluginFunction. pres. Qed.

Lemma RegisterHostFunction_preserves name fn :
  preserves (on_store S) (RegisterHostFunction name fn).
Proof. unfold RegisterHostFunction. pres. Qed.

Lemma monitor_preserves l waitErr : preserves (on_store S) (monitor w l waitErr).
Proof. unfold monitor. pres. Qed.

Lemma checkPluginsHealth_preserves plugins :
  preserves (on_store S) (checkPluginsHealth w plugins).
Proof. unfold checkPluginsHealth. pres. Qed.

Lemma Heartbeat_preserves req : preserves (on_store S) (Heartbeat w req).
Proof.
  unfold Heartbeat. pres. apply preserves_on_plugin. intros p tr.
  apply T_heartbeat.
Qed.

Lemma callPluginFunction_preserves req target :
  preserves (on_store S) (callPluginFunction w req target).
Proof. unfold callPluginFunction. pres. Qed.

#[local] Hint Resolve callPluginFunction_preserves : preserve.

Lemma CallHostFunction_preserves req :
  preserves (on_store S) (CallHostFunction w req).
Proof. unfold CallHostFunction. pres. Qed.

Lemma listen_loop_preserves fuel port maxPort :
  preserves (on_store S) (listen_loop w fuel port maxPort).
Proof. revert port. induction fuel as [| fuel IH]; intros port; cbn; pres. Qed.

#[local] Hint Resolve listen_loop_preserves : preserve.

Lemma Start_preserves fuel : preserves (on_store S) (Start w fuel).
Proof. unfold Start, startGrpcServer, startMonitoring, index. pres. Qed.

End StoreProperty.

(** *** Loading, registration, connection *)

Lemma find_plugin_Done test plugins h r h' :
  find_plugin test plugins h = Done (r, h') →
  h' = h ∧
  ∀ l, r = Some l → l ∈ plugins ∧ ∃ p, heap h !! l = Some p ∧ test p = true.
Proof.
  induction plugins as [| l0 rest IH]; cbn.
  - intros [= <- <-]. done.
  - intros Hrun. m_run.
    + split; [done |]. intros l [= <-]. split; [left | eauto].
    + apply IH in Hrun as [-> Hr]. split; [done |].
      intros l Hl. destruct (Hr l Hl) as [Hin Hp]. split; [by right | done].
Qed.

Section Effects.
Context (w : World).

(** What a call of [LoadPlugin] that returns has done. *)
Lemma LoadPlugin_Done path h r h' :
  LoadPlugin w path h = Done (r, h') →
  (r.1 = None ∧ is_Some r.2 ∧ registry h' = registry h ∧ heap h' = heap h)
  ∨ ∃ id info,
      r = (Some (length (heap h)), None)
      ∧ heap h' = heap h ++ [loaded (config h) id path info]
      ∧ registry h' = <[id := length (heap h)]> (registry h).
Proof.
  intros Hrun. unfold LoadPlugin, GetPluginInfo in Hrun.
  m_run; try (left; by eauto);
    match goal with H : (_ ++ [_]) !! length _ = Some _ |- _ =>
      rewrite lookup_app_r, Nat.sub_diag in H by done; simplify_eq/=
    end; right; eexists _, _; (split; [done |]); split; done.
Qed.

(** What a call of [RegisterPlugin] that returns has done: nothing, with
    a refusal, or the assignments to the first record of the listing that
    matches, which is filed under the ID of the request. *)
Lemma RegisterPlugin_Done plugins req h r h' :
  RegisterPlugin w plugins req h = Done (r, h') →
  (∃ resp, r = (Some resp, None) ∧ RegisterResponse.Success resp = false
           ∧ h' = h)
  ∨ ∃ l p resp,
      r = (Some resp, None) ∧ RegisterResponse.Success resp = true
      ∧ l ∈ plugins ∧ heap h !! l = Some p
      ∧ heap h' = <[l := registered req (w_time_Now w (trace h)) p]> (heap h)
      ∧ registry h' =
          (if decide (ID p = RegisterRequest.PluginId req) then registry h
           else <[RegisterRequest.PluginId req := l]>
                  (delete (ID p) (registry h)))
      ∧ trace h' = trace h ++ [EvTimeNow; EvGo (GoConnect l); EvTimeNow].
Proof.
  intros Hrun. unfold RegisterPlugin in Hrun.
  unfold mbind at 1, M_bind at 1 in Hrun.
  destruct (find_plugin _ plugins h) as [[t h1] | |] eqn:Efind; [| done | done].
  apply find_plugin_Done in Efind as [-> Hfind].
  destruct t as [l |]; [| left; m_run; by eauto].
  destruct (Hfind l eq_refl) as [Hin _]. right.
  unfold on_plugin in Hrun. m_run;
    match goal with H : updatePluginInfo _ _ _ = _ |- _ =>
      rewrite updatePluginInfo_eq in H; simplify_eq/=
    end.
  - match goal with H : <[_ := _]> _ !! _ = Some _ |- _ =>
      rewrite list_lookup_insert_eq in H by (by eapply lookup_lt_Some);
      simplify_eq/=
    end.
    eexists l, _, _. repeat (split; [done |]).
    rewrite decide_False by (by eapply bool_decide_eq_true_1).
    by rewrite <- !app_assoc.
  - eexists l, _, _. repeat (split; [done |]).
    match goal with H : bool_decide _ = false |- _ =>
      apply bool_decide_eq_false in H; apply dec_stable in H
    end.
    rewrite decide_True by done. by rewrite <- !app_assoc.
Qed.

(** What the connection back to a plugin has done when it returns. *)
Lemma connect_Done l h h' :
  connect w l h = Done (tt, h') →
  ∃ p, heap h !! l = Some p ∧ registry h' = registry h
    ∧ heap h' = <[l := (connectToPlugin w (p, trace h)).2.1]> (heap h)
    ∧ trace h' = (connectToPlugin w (p, trace h)).2.2.
Proof.
  unfold connect, on_plugin. intros Hrun.
  destruct (heap h !! l) as [p |] eqn:El; [| done]. exists p.
  destruct (connectToPlugin w (p, trace h)) as [a [p' tr']]. by simplify_eq/=.
Qed.

End Effects.

(** ** The invariant of the host *)

Section HostInvariant.
Context (w : World).

Lemma keeps_ok_start port l p tr :
  keeps_ok p (startPluginProcess w port l (p, tr)).2.1.
Proof.
  split; [apply startPluginProcess_ok | apply startPluginProcess_same].
Qed.

Lemma keeps_ok_stop p tr : keeps_ok p (stopPluginProcess w (p, tr)).2.1.
Proof. split; [apply stopPluginProcess_ok | apply stopPluginProcess_same]. Qed.

Lemma keeps_ok_monitor port l e p tr :
  keeps_ok p (monitorPluginProcess w port l e (p, tr)).2.1.
Proof.
  split; [apply monitorPluginProcess_ok | apply monitorPluginProcess_same].
Qed.

Lemma keeps_ok_check cfg port now l p tr :
  keeps_ok p (checkPluginHealth w cfg port now l (p, tr)).2.1.
Proof.
  split; [apply checkPluginHealth_ok | apply checkPluginHealth_same].
Qed.

Lemma keeps_ok_heartbeat now p : keeps_ok p (set_LastHeartbeat now p).
Proof. split; [| done]. intros [Hc Hm Hn Hb]. split; done. Qed.

Lemma keeps_ok_connect p tr : keeps_ok p (connectToPlugin w (p, tr)).2.1.
Proof. split; [apply connectToPlugin_ok | apply connectToPlugin_same]. Qed.

Lemma loaded_ok cfg id path info : rec_ok (loaded cfg id path info).
Proof. split; cbn; [done | int64_lia | int64_lia | lia]. Qed.

Lemma LoadPlugin_inv path : preserves host_inv (LoadPlugin w path).
Proof.
  intros h r h' HI Hrun.
  apply LoadPlugin_Done in Hrun as [(_ & _ & Er & Eh) | (id & info & _ & Eh & Er)];
    unfold host_inv, on_store; rewrite Er, Eh; [done |].
  apply (store_ok_alloc _ _ (loaded (config h) id path info));
    [done | apply loaded_ok].
Qed.

Lemma RegisterPlugin_inv plugins req h r h' :
  PluginRegistry.is_listing (registry h) plugins →
  host_inv h → RegisterPlugin w plugins req h = Done (r, h') → host_inv h'.
Proof.
  intros Hlist HI Hrun.
  apply RegisterPlugin_Done in Hrun
    as [(resp & _ & _ & ->) | (l & p & resp & _ & _ & Hin & Hp & Eh & Er & _)];
    [done |].
  unfold host_inv, on_store. rewrite Er, Eh.
  pose proof (registered_ok req (w_time_Now w (trace h)) p
                (inv_records _ _ HI l p Hp)) as Hok.
  destruct (is_listing_elem _ _ _ Hlist Hin) as [id Hid].
  destruct (inv_registry _ _ HI id l Hid) as (p0 & Hp0 & <-).
  assert (p0 = p) as -> by congruence.
  case_decide as Eid.
  - apply (store_ok_update _ _ l p); [done | done |]. by split.
  - by apply (store_ok_rekey _ _ l p (registered req _ p)).
Qed.

Lemma connect_inv l : preserves host_inv (connect w l).
Proof.
  intros h [] h' HI (p & Hp & Er & Eh & _)%connect_Done.
  unfold host_inv, on_store. rewrite Er, Eh.
  eapply store_ok_update; [done | done | apply keeps_ok_connect].
Qed.

(** Every call that returns leaves the host well formed. *)
Lemma run_inv c h h' :
  listing_ok h c → host_inv h → run w c h = Done (tt, h') → host_inv h'.
Proof.
  pose proof store_ok_update as Hu.
  pose proof keeps_ok_start as H1. pose proof keeps_ok_stop as H2.
  pose proof keeps_ok_monitor as H3. pose proof keeps_ok_check as H4.
  pose proof keeps_ok_heartbeat as H5.
  intros Hlist HI Hrun.
  destruct c; cbn [run] in Hrun;
    try (revert Hrun; unfold mbind, M_bind; case_match eqn:E; [| done | done];
         destruct a as [r h1]; intros [= <-]; revert E);
    try revert Hrun;
    first
      [ by eapply LoadPlugin_inv
      | by eapply StartPlugin_preserves
      | by eapply StopPlugin_preserves
      | by eapply StopAllPlugins_preserves
      | by eapply CallPluginFunction_preserves
      | by eapply RegisterHostFunction_preserves
      | by eapply Start_preserves
      | by eapply monitor_preserves
      | by eapply checkPluginsHealth_preserves
      | by eapply RegisterPlugin_inv
      | by eapply connect_inv
      | by eapply Heartbeat_preserves
      | by eapply CallHostFunction_preserves ].
Qed.

Lemma NewPluginHost_inv cfg defaults : host_inv (NewPluginHost cfg defaults).
Proof. split; cbn; [intros id l | intros l p]; by rewrite ?lookup_empty. Qed.

Lemma serially_reachable_inv cfg defaults h :
  serially_reachable w cfg defaults h → host_inv h.
Proof.
  unfold serially_reachable. revert h.
  apply (rtc_ind_r (λ h, host_inv h)); [apply NewPluginHost_inv |].
  intros h1 h2 _ [c Hl Hrun] IH. by eapply run_inv.
Qed.

End HostInvariant.

(** ** What holds in every run *)

Lemma pointers_valid_update pr hp l (p p' : PluginInfo) :
  pointers_valid pr hp → hp !! l = Some p → True →
  pointers_valid pr (<[l := p']> hp).
Proof.
  intros Hv Hl _ id l0 Hid. apply lookup_lt_is_Some.
  rewrite length_insert. apply lookup_lt_is_Some. eauto.
Qed.


Section Valid.
Context (w : World).

Lemma valid_write l f : preserves valid (write l f).
Proof.
  unfold write. eapply (preserves_on_plugin pointers_valid (λ _ _, True));
    [apply pointers_valid_update | done].
Qed.

Lemma valid_read {X} l (F : PluginInfo → X) : preserves valid (read l F).
Proof. unfold read. pres. Qed.

Lemma valid_read_host {X} (F : PluginHost → X) : preserves valid (read_host F).
Proof. unfold read_host. pres. Qed.

Lemma valid_Unregister id : preserves valid (registry_Unregister id).
Proof.
  intros h [] h' Hv [= <-]. intros id0 l. cbn.
  unfold PluginRegistry.Unregister. intros [_ Hl]%lookup_delete_Some.
  by eapply Hv.
Qed.

Lemma valid_Register l : preserves valid (registry_Register l).
Proof.
  intros h [] h' Hv. unfold registry_Register, deref. m_unfold.
  destruct (heap h !! l) as [p |] eqn:El; [| done]. intros [= <-].
  intros id0 l0. cbn. unfold PluginRegistry.Register.
  intros [[_ <-] | [_ Hl]]%lookup_insert_Some; [by eexists | by eapply Hv].
Qed.

Lemma valid_alloc p : preserves valid (l ← alloc p; registry_Register l).
Proof.
  intros h [] h' Hv. unfold registry_Register, deref, alloc. m_unfold. cbn.
  rewrite lookup_app_r, Nat.sub_diag by done. cbn. intros [= <-].
  intros id0 l0. cbn. unfold PluginRegistry.Register.
  intros [[_ <-] | [_ Hl]]%lookup_insert_Some.
  - apply lookup_lt_is_Some. rewrite length_app. cbn. lia.
  - apply lookup_lt_is_Some. rewrite length_app.
    apply Hv, lookup_lt_is_Some in Hl. lia.
Qed.

Lemma valid_index xs i : preserves valid (index xs i).
Proof. unfold index. destruct (xs !! i); pres. Qed.

#[local] Hint Resolve valid_write valid_read valid_read_host valid_Unregister
  valid_Register valid_alloc valid_index : preserve.

(** The step of a goroutine: an atomic action, then the rest. *)
Lemma safe_atom {X} (m : M X) (k : X → Goroutine) :
  preserves valid m → (∀ x, safe (k x)) → safe (atom m k).
Proof.
  intros Hm Hk. constructor; intros h g h' Hv;
    unfold mbind, M_bind, mret, M_ret;
    (destruct (m h) as [[x h1] | |] eqn:E; [| done | done]);
    intros [= <- <-]; [by eapply Hm | apply Hk].
Qed.

Lemma safe_crash msg : safe (Atom (panic msg)).
Proof. constructor; by intros h g h' _ [=]. Qed.

Lemma safe_out_of_fuel : safe (Atom out_of_fuel).
Proof. constructor; by intros h g h' _ [=]. Qed.

(** Follow a goroutine along its steps and its branches. *)
Ltac safe_step :=
  first
    [ apply safe_Exit
    | apply safe_crash
    | apply safe_out_of_fuel
    | assumption
    | apply safe_atom; [solve [pres] | intros ?]
    | apply safe_Listing; intros ?
    | progress cbv zeta
    | match goal with
      | |- safe (match ?x with _ => _ end) => destruct x
      | |- safe (if ?x then _ else _) => destruct x
      end ].

Ltac safety := repeat safe_step.

Lemma startPluginProcess_go_safe l k :
  safe k → safe (startPluginProcess_go w l k).
Proof. intros Hk. unfold startPluginProcess_go. safety. Qed.

Lemma stopPluginProcess_go_safe l k :
  safe k → safe (stopPluginProcess_go w l k).
Proof. intros Hk. unfold stopPluginProcess_go, nil_dereference. safety. Qed.

Lemma restart_go_safe l restart k :
  safe restart → safe k → safe (restart_go l restart k).
Proof. intros Hr Hk. unfold restart_go. safety. Qed.

Lemma sweep_go_safe now plugins : safe (sweep_go w now plugins).
Proof.
  induction plugins as [| l rest IH]; cbn [sweep_go]; safety.
Qed.

Lemma find_go_safe req plugins found :
  (∀ r, safe (found r)) → safe (find_go req plugins found).
Proof.
  intros Hf. induction plugins as [| l rest IH]; cbn [find_go]; [apply Hf |].
  safety; apply Hf.
Qed.

Lemma stop_each_go_safe plugins : safe (stop_each_go w plugins).
Proof.
  induction plugins as [| l rest IH]; cbn [stop_each_go]; safety.
Qed.

Lemma listen_go_safe fuel port maxPort bound :
  (∀ r, safe (bound r)) → safe (listen_go w fuel port maxPort bound).
Proof.
  intros Hb. revert port.
  induction fuel as [| fuel IH]; intros port; cbn [listen_go];
    destruct (port <=? maxPort); try apply Hb; safety; (apply Hb || apply IH).
Qed.

(** Every goroutine of a call keeps the pointers valid. *)
Lemma goroutine_safe c : safe (goroutine w c).
Proof.
  destruct c; cbn [goroutine].
  - unfold LoadPlugin_go, nil_dereference, GetPluginInfo. safety.
  - unfold StartPlugin_go. safety.
  - unfold StopPlugin_go. safety.
  - unfold StopAllPlugins_go. safety. apply stop_each_go_safe.
  - unfold CallPluginFunction_go, nil_dereference. safety.
  - safety.
  - unfold Start_go. safety; apply listen_go_safe; intros r; safety.
  - unfold monitorPluginProcess_go. safety.
  - unfold checkPluginsHealth_go. safety. apply sweep_go_safe.
  - unfold RegisterPlugin_go. safety. apply find_go_safe. intros r. safety.
  - unfold connectToPlugin_go. safety.
  - unfold Heartbeat_go. safety.
  - unfold CallHostFunction_go, callPluginFunction_go, nil_dereference. safety.
Qed.

Lemma step_valid s s' :
  step w s s' → valid s.1 ∧ Forall safe s.2 → valid s'.1 ∧ Forall safe s'.2.
Proof.
  intros Hstep [Hv Hpool]. destruct Hstep as
    [h pool c | h h' pool i m g Hi Hrun | h pool i k plugins Hi Hl];
    cbn in *.
  - split; [done |]. apply Forall_app. split; [done |].
    constructor; [apply goroutine_safe | constructor].
  - pose proof (Forall_lookup_1 _ _ _ _ Hpool Hi) as Hs.
    inversion Hs as [| m0 Hm Hg |]; subst.
    split; [by eapply Hm |]. apply Forall_insert; [done |]. by eapply Hg.
  - pose proof (Forall_lookup_1 _ _ _ _ Hpool Hi) as Hs.
    inversion Hs as [| | k0 Hk]; subst.
    split; [done |]. by apply Forall_insert.
Qed.

(** In every state the host can be in, a pointer of the registry leads to
    a record. *)
Lemma reachable_valid cfg defaults h : reachable w cfg defaults h → valid h.
Proof.
  intros [pool Hrun].
  assert (∀ s s', rtc (step w) s s' →
            valid s.1 ∧ Forall safe s.2 → valid s'.1 ∧ Forall safe s'.2) as H.
  { intros s s' Hrtc. induction Hrtc as [| s1 s2 s3 Hstep _ IH]; [done |].
    intros Hs. apply IH. by eapply step_valid. }
  apply (H _ _ Hrun). split; [| constructor]. cbn.
  intros id l. unfold NewPluginHost, PluginRegistry.New. cbn.
  by rewrite lookup_empty.
Qed.

End Valid.

(** ** The goroutine of a call, run alone, does what the call does *)

#[local] Arguments put : simpl never.

Section Alone.
Context (w : World) (plugins : list loc).

Lemma put_lookup l s h :
  (l < length (heap h))%nat → heap (put l s h) !! l = Some s.1.
Proof. intros Hl. unfold put. cbn. by apply list_lookup_insert_eq. Qed.

Lemma put_length l s h : length (heap (put l s h)) = length (heap h).
Proof. unfold put. cbn. apply length_insert. Qed.

Lemma put_put l s s' h : put l s' (put l s h) = put l s' h.
Proof. unfold put. cbn. by rewrite list_insert_insert_eq. Qed.

Lemma put_id l p h : heap h !! l = Some p → put l (p, trace h) h = h.
Proof.
  intros Hp. unfold put. cbn. rewrite list_insert_id by done. by destruct h.
Qed.

Lemma on_plugin_put {A} l (m : Act A) h p :
  heap h !! l = Some p →
  on_plugin l m h = Done ((m (p, trace h)).1, put l (m (p, trace h)).2 h).
Proof.
  intros Hp. unfold on_plugin, put. rewrite Hp.
  by destruct (m (p, trace h)) as [a [p' tr']].
Qed.

(** *** Steps *)

Lemma alone_atom_Done {X} (m : M X) (k : X → Goroutine) h x h' o :
  m h = Done (x, h') → alone plugins (k x) h' o →
  alone plugins (atom m k) h o.
Proof.
  intros Hm Hk. eapply alone_Atom; [| exact Hk].
  unfold mbind, M_bind. by rewrite Hm.
Qed.

Lemma alone_atom_Panic {X} (m : M X) (k : X → Goroutine) h msg :
  m h = Panic msg → alone plugins (atom m k) h (Panic msg).
Proof.
  intros Hm. apply alone_Panic. unfold mbind, M_bind. by rewrite Hm.
Qed.

Lemma alone_atom_OutOfFuel {X} (m : M X) (k : X → Goroutine) h :
  m h = OutOfFuel → alone plugins (atom m k) h OutOfFuel.
Proof.
  intros Hm. apply alone_OutOfFuel. unfold mbind, M_bind. by rewrite Hm.
Qed.

Lemma alone_write l f k p tr h o :
  (l < length (heap h))%nat →
  alone plugins (k tt) (put l (f p, tr) h) o →
  alone plugins (atom (write l f) k) (put l (p, tr) h) o.
Proof.
  intros Hl Hk. eapply alone_atom_Done; [| exact Hk].
  unfold write. rewrite (on_plugin_put l _ _ p) by (by apply put_lookup).
  by rewrite put_put.
Qed.

Lemma alone_read {X} l (F : PluginInfo → X) k p tr h o :
  (l < length (heap h))%nat →
  alone plugins (k (F p)) (put l (p, tr) h) o →
  alone plugins (atom (read l F) k) (put l (p, tr) h) o.
Proof.
  intros Hl Hk. eapply alone_atom_Done; [| exact Hk].
  unfold read, deref, mbind, M_bind, mret, M_ret.
  by rewrite put_lookup.
Qed.

Lemma alone_read_host {X} (F : PluginHost → X) k h o :
  alone plugins (k (F h)) h o → alone plugins (atom (read_host F) k) h o.
Proof. intros Hk. by eapply alone_atom_Done. Qed.

Lemma alone_env {X} (e : Eff X) k h o :
  alone plugins (k (e (trace h)).1) (set_trace (e (trace h)).2 h) o →
  alone plugins (atom (env e) k) h o.
Proof.
  intros Hk. eapply alone_atom_Done; [| exact Hk].
  unfold env. by destruct (e (trace h)).
Qed.

Lemma alone_env_put {X} (e : Eff X) k l p tr h o :
  alone plugins (k (e tr).1) (put l (p, (e tr).2) h) o →
  alone plugins (atom (env e) k) (put l (p, tr) h) o.
Proof. intros Hk. by apply alone_env. Qed.

Lemma alone_read_at {X} l (F : PluginInfo → X) k p h o :
  heap h !! l = Some p →
  alone plugins (k (F p)) h o → alone plugins (atom (read l F) k) h o.
Proof.
  intros Hp Hk. eapply alone_atom_Done; [| exact Hk].
  unfold read, deref, mbind, M_bind, mret, M_ret. by rewrite Hp.
Qed.

Lemma alone_read_nil {X} l (F : PluginInfo → X) k h :
  heap h !! l = None →
  alone plugins (atom (read l F) k) h
    (Panic "invalid memory address or nil pointer dereference").
Proof.
  intros Hp. apply alone_atom_Panic.
  unfold read, deref, mbind, M_bind. by rewrite Hp.
Qed.

Lemma alone_write_nil l f k h :
  heap h !! l = None →
  alone plugins (atom (write l f) k) h
    (Panic "invalid memory address or nil pointer dereference").
Proof.
  intros Hp. apply alone_atom_Panic. unfold write, on_plugin. by rewrite Hp.
Qed.

Lemma alone_from_put g l p h o :
  heap h !! l = Some p →
  alone plugins g (put l (p, trace h) h) o → alone plugins g h o.
Proof. intros Hp. by rewrite put_id. Qed.

Lemma alone_Exit_eq h h' : h = h' → alone plugins Exit h (Done h').
Proof. intros ->. constructor. Qed.

(** One step of a goroutine that holds the pointer of the record. *)
Ltac alone_step :=
  first [ apply alone_write; [done |]
        | apply alone_read; [done |]
        | apply alone_read_host
        | apply alone_env_put ].

(** *** The code that works on one record *)

Lemma snd_ignore {A S} (x : A * S) : (let '(_, s') := x in (tt, s')).2 = x.2.
Proof. by destruct x. Qed.

Lemma startPluginProcess_go_alone l k p tr h o :
  (l < length (heap h))%nat →
  alone plugins k
    (put l (startPluginProcess w (actualPort h) l (p, tr)).2 h) o →
  alone plugins (startPluginProcess_go w l k) (put l (p, tr) h) o.
Proof.
  intros Hl. unfold startPluginProcess_go, startPluginProcess. act_unfold.
  intros Hk.
  apply alone_write; [done |]. apply alone_read; [done |].
  apply alone_read; [done |]. apply alone_read_host. cbn.
  apply alone_env_put. unfold cmd_Start in *. cbn in *.
  destruct (w_cmd_Start w tr _ _) as [e |]; cbn in *.
  - by apply alone_write.
  - apply alone_write; [done |]. apply alone_write; [done |].
    apply alone_env_put. apply alone_write; [done |].
    apply alone_env_put. cbn. by rewrite <- !app_assoc in *.
Qed.

Lemma stopPluginProcess_go_alone l k p tr h o :
  (l < length (heap h))%nat →
  alone plugins k (put l (stopPluginProcess w (p, tr)).2 h) o →
  alone plugins (stopPluginProcess_go w l k) (put l (p, tr) h) o.
Proof.
  intros Hl. unfold stopPluginProcess_go, stopPluginProcess. act_unfold.
  intros Hk. do 2 alone_step. cbn in *.
  destruct (Connection p) as [c |] eqn:Ec; cbn in *.
  - alone_step. cbn. rewrite Ec. do 4 alone_step. cbn.
    destruct (Process p) as [pid |] eqn:Epid; cbn in *.
    + alone_step. cbn. rewrite Epid. do 3 alone_step. done.
    + by alone_step.
  - alone_step. cbn.
    destruct (Process p) as [pid |] eqn:Epid; cbn in *.
    + alone_step. cbn. rewrite Epid. do 3 alone_step. done.
    + by alone_step.
Qed.

Lemma connectToPlugin_go_alone l p tr h :
  (l < length (heap h))%nat →
  alone plugins (connectToPlugin_go w l) (put l (p, tr) h)
    (Done (put l (connectToPlugin w (p, tr)).2 h)).
Proof.
  intros Hl. unfold connectToPlugin_go, connectToPlugin. act_unfold.
  do 3 alone_step. unfold grpc_Dial, time_Sleep, emit. cbn.
  destruct (w_grpc_Dial w _ _) as [e |]; cbn.
  - alone_step. by apply alone_Exit_eq.
  - do 3 alone_step. by apply alone_Exit_eq.
Qed.

(** The restart policy, as the monitor and the sweep apply it. *)
Lemma restart_go_alone l restart k p tr h o :
  (l < length (heap h))%nat →
  (if RestartCount p <? MaxRestarts p
   then alone plugins restart
          (put l (set_RestartCount (wrap64 (RestartCount p + 1)) p, tr) h) o
   else alone plugins k (put l (p, tr) h) o) →
  alone plugins (restart_go l restart k) (put l (p, tr) h) o.
Proof.
  intros Hl Hk. unfold restart_go. do 2 alone_step.
  destruct (RestartCount p <? MaxRestarts p); [| done].
  do 2 alone_step. done.
Qed.

Lemma monitorPluginProcess_go_alone l waitErr p tr h :
  (l < length (heap h))%nat →
  alone plugins (monitorPluginProcess_go w l waitErr) (put l (p, tr) h)
    (Done (put l (monitorPluginProcess w (actualPort h) l waitErr (p, tr)).2
             h)).
Proof.
  intros Hl. unfold monitorPluginProcess_go, monitorPluginProcess. act_unfold.
  alone_step. destruct (Command p) as [c |] eqn:Ec; cbn;
    [| by apply alone_Exit_eq].
  assert (∀ q,
    Command q = Command p → 
    alone plugins
      (atomic auto ← read l AutoRestart;
       if auto then
         atomic s ← read l Status;
         if bool_decide (s = StatusCrashed) then
           restart_go l
             (atomic _ ← env (time_Sleep (5 * Second));
              startPluginProcess_go w l Exit)
             Exit
         else Exit
       else Exit)
      (put l (q, tr) h)
      (Done (put l
        (if AutoRestart q && bool_decide (Status q = StatusCrashed)
            && (RestartCount q <? MaxRestarts q)
         then
           (startPluginProcess w (actualPort h) l
              (set_RestartCount (wrap64 (RestartCount q + 1)) q,
               tr ++ [EvSleep (5 * Second)])).2
         else (q, tr)) h))) as Hpolicy.
  { intros q _. alone_step. destruct (AutoRestart q); cbn;
      [| by apply alone_Exit_eq].
    alone_step. destruct (bool_decide (Status q = StatusCrashed)); cbn;
      [| by apply alone_Exit_eq].
    apply restart_go_alone; [done |].
    destruct (RestartCount q <? MaxRestarts q); [| by apply alone_Exit_eq].
    alone_step. apply startPluginProcess_go_alone; [done |].
    by apply alone_Exit_eq. }
  destruct waitErr as [e |]; cbn.
  - alone_step. destruct (bool_decide (Status p ≠ StatusStopping)); cbn.
    + alone_step. 
      specialize (Hpolicy (set_Status StatusCrashed p) eq_refl).
      cbn in Hpolicy.
      destruct (AutoRestart p && _ && _) eqn:E; cbn in *; rewrite ?E in *;
        rewrite ?snd_ignore; exact Hpolicy.
    + alone_step.
      specialize (Hpolicy (set_Status StatusStopped p) eq_refl).
      cbn in Hpolicy.
      destruct (AutoRestart p && _ && _) eqn:E; cbn in *; rewrite ?E in *;
        rewrite ?snd_ignore; exact Hpolicy.
  - alone_step.
    specialize (Hpolicy (set_Status StatusStopped p) eq_refl).
    cbn in Hpolicy.
    destruct (AutoRestart p && _ && _) eqn:E; cbn in *; rewrite ?E in *;
      rewrite ?snd_ignore; exact Hpolicy.
Qed.

(** *** The loops *)

Lemma config_put l s h : config (put l s h) = config h.
Proof. reflexivity. Qed.

Lemma actualPort_put l s h : actualPort (put l s h) = actualPort h.
Proof. reflexivity. Qed.

Lemma sweep_go_alone now ls :
  ∀ h,
    alone plugins (sweep_go w now ls) h
      (host_of (for_each ls (λ l,
         h0 ← host;
         on_plugin l (checkPluginHealth w (config h0) (actualPort h0) now l))
         h)).
Proof.
  induction ls as [| l rest IH]; intros h; cbn [sweep_go for_each].
  - apply alone_Exit.
  - unfold mbind at 1, M_bind at 1. unfold mbind at 1, M_bind at 1.
    unfold host at 1. cbv beta iota.
    destruct (heap h !! l) as [p |] eqn:Hp.
    2: { unfold on_plugin at 1. rewrite Hp. cbn.
         apply alone_atom_Panic. unfold read, deref, mbind, M_bind.
         by rewrite Hp. }
    assert (l < length (heap h))%nat as Hl by (by eapply lookup_lt_Some).
    rewrite (on_plugin_put l _ h p Hp). cbv beta iota.
    apply (alone_from_put _ l p h _ Hp).
    unfold checkPluginHealth. act_unfold.
    alone_step.
    destruct (bool_decide (Status p = StatusRunning)); cbn; [| apply IH].
    do 2 alone_step. rewrite config_put.
    destruct (Duration_mul _ _ <? Time_Sub now (LastHeartbeat p)); cbn;
      [| apply IH].
    do 2 alone_step. cbn.
    destruct (AutoRestart p); cbn; [| apply IH].
    apply restart_go_alone; [done |]. cbn.
    destruct (RestartCount p <? MaxRestarts p); cbn; [| apply IH].
    apply startPluginProcess_go_alone; [done |].
    rewrite snd_ignore. apply IH.
Qed.

Lemma stop_each_go_alone ls :
  ∀ h,
    alone plugins (stop_each_go w ls) h
      (host_of (for_each ls (λ l,
         plugin ← deref l;
         if bool_decide (Status plugin = StatusRunning)
         then on_plugin l (stopPluginProcess w);; mret tt
         else mret tt) h)).
Proof.
  induction ls as [| l rest IH]; intros h; cbn [stop_each_go for_each].
  - apply alone_Exit.
  - unfold mbind at 1, M_bind at 1. unfold mbind at 1, M_bind at 1.
    unfold deref at 1.
    destruct (heap h !! l) as [p |] eqn:Hp; [| by apply alone_read_nil].
    assert (l < length (heap h))%nat as Hl by (by eapply lookup_lt_Some).
    apply (alone_read_at l Status _ p h _ Hp).
    destruct (bool_decide (Status p = StatusRunning)); cbn; [| apply IH].
    unfold mbind at 1, M_bind at 1.
    rewrite (on_plugin_put l _ h p Hp). cbv beta iota.
    apply (alone_from_put _ l p h _ Hp).
    apply stopPluginProcess_go_alone; [done |]. apply IH.
Qed.

Lemma find_go_alone {X} req ls found (rest_of : option loc → M X) :
  ∀ h,
    (∀ r, alone plugins (found r) h (host_of (rest_of r h))) →
    alone plugins (find_go req ls found) h
      (host_of ((r ← find_plugin (λ plugin,
                      bool_decide (ID plugin = RegisterRequest.PluginId req)
                      || bool_decide (Status plugin = StatusStarting)) ls;
                 rest_of r) h)).
Proof.
  induction ls as [| l rest IH]; intros h Hfound; cbn [find_go find_plugin].
  - apply Hfound.
  - unfold mbind at 1, M_bind at 1. unfold mbind at 1, M_bind at 1.
    unfold deref at 1.
    destruct (heap h !! l) as [p |] eqn:Hp; [| by apply alone_read_nil].
    apply (alone_read_at l ID _ p h _ Hp).
    destruct (bool_decide (ID p = RegisterRequest.PluginId req)); cbn;
      [apply Hfound |].
    apply (alone_read_at l Status _ p h _ Hp).
    destruct (bool_decide (Status p = StatusStarting)); cbn;
      [apply Hfound |].
    by apply IH.
Qed.

Lemma listen_go_alone {X} maxPort bound (rest_of : option Z → M X) fuel :
  (∀ r h, alone plugins (bound r) h (host_of (rest_of r h))) →
  ∀ port h,
    alone plugins (listen_go w fuel port maxPort bound) h
      (host_of ((r ← listen_loop w fuel port maxPort; rest_of r) h)).
Proof.
  intros Hbound.
  induction fuel as [| fuel IH]; intros port h; cbn [listen_go listen_loop].
  - destruct (port <=? maxPort); [| apply Hbound].
    by apply alone_OutOfFuel.
  - destruct (port <=? maxPort); [| apply Hbound].
    apply alone_env. unfold mbind at 1, M_bind at 1.
    unfold mbind at 1, M_bind at 1. unfold env at 1, net_Listen. cbn.
    destruct (w_net_Listen w (trace h) _) as [e |]; cbn.
    + apply IH.
    + apply Hbound.
Qed.

(** *** The calls *)

Lemma host_of_ignore {A} (m : M A) h : host_of ((m;; mret tt) h) = host_of (m h).
Proof. unfold mbind, M_bind. by destruct (m h) as [[a h'] | |]. Qed.

Lemma M_bind_assoc {A B C} (m : M A) (f : A → M B) (g : B → M C) h :
  ((x ← m; f x) ≫= g) h = (x ← m; (f x ≫= g)) h.
Proof. unfold mbind, M_bind. by destruct (m h) as [[a h'] | |]. Qed.

Lemma bind_registry_Get {A} id (f : option loc → M A) h :
  (r ← registry_Get id; f r) h = f (registry h !! id) h.
Proof. reflexivity. Qed.

Lemma bind_ret {A X} (a : X) (f : X → M A) h : (x ← mret a; f x) h = f a h.
Proof. reflexivity. Qed.

Lemma bind_host {A} (f : PluginHost → M A) h : (x ← host; f x) h = f h h.
Proof. reflexivity. Qed.

Lemma bind_deref {A} l (f : PluginInfo → M A) h p :
  heap h !! l = Some p → (x ← deref l; f x) h = f p h.
Proof. intros Hp. unfold mbind, M_bind, deref. by rewrite Hp. Qed.

Lemma bind_deref_nil {A} l (f : PluginInfo → M A) h :
  heap h !! l = None →
  (x ← deref l; f x) h
  = Panic "invalid memory address or nil pointer dereference".
Proof. intros Hp. unfold mbind, M_bind, deref. by rewrite Hp. Qed.

Lemma bind_env {A X} (e : Eff X) (f : X → M A) h :
  (x ← env e; f x) h = f (e (trace h)).1 (set_trace (e (trace h)).2 h).
Proof. unfold mbind, M_bind, env. by destruct (e (trace h)). Qed.

Lemma bind_on_plugin {A X} l (m : Act X) (f : X → M A) h p :
  heap h !! l = Some p →
  (x ← on_plugin l m; f x) h
  = f (m (p, trace h)).1 (put l (m (p, trace h)).2 h).
Proof.
  intros Hp. unfold mbind, M_bind. by rewrite (on_plugin_put l m h p Hp).
Qed.

Lemma bind_on_plugin_nil {A X} l (m : Act X) (f : X → M A) h :
  heap h !! l = None →
  (x ← on_plugin l m; f x) h
  = Panic "invalid memory address or nil pointer dereference".
Proof. intros Hp. unfold mbind, M_bind, on_plugin. by rewrite Hp. Qed.

Lemma on_plugin_nil {X} l (m : Act X) h :
  heap h !! l = None →
  on_plugin l m h = Panic "invalid memory address or nil pointer dereference".
Proof. intros Hp. unfold on_plugin. by rewrite Hp. Qed.

Lemma alloc_Register p h :
  (l ← alloc p; registry_Register l) h
  = Done (tt,
      set_registry
        (PluginRegistry.Register (ID p) (length (heap h)) (registry h))
        (set_heap (heap h ++ [p]) h)).
Proof.
  repeat (progress (m_unfold; cbn)).
  by rewrite lookup_app_r, Nat.sub_diag.
Qed.

Lemma bind_alloc_Register {A} p (f : loc → M A) h :
  (l ← alloc p; registry_Register l;; f l) h
  = f (length (heap h))
      (set_registry
         (PluginRegistry.Register (ID p) (length (heap h)) (registry h))
         (set_heap (heap h ++ [p]) h)).
Proof.
  repeat (progress (m_unfold; cbn)).
  by rewrite lookup_app_r, Nat.sub_diag.
Qed.

Lemma alone_registry_Get id k h o :
  alone plugins (k (registry h !! id)) h o →
  alone plugins (atom (registry_Get id) k) h o.
Proof. intros Hk. by eapply alone_atom_Done. Qed.

Lemma StartPlugin_go_alone id h :
  alone plugins (StartPlugin_go w id) h (host_of (StartPlugin w id h)).
Proof.
  unfold StartPlugin_go, StartPlugin. apply alone_registry_Get.
  rewrite bind_registry_Get.
  destruct (registry h !! id) as [l |]; [| apply alone_Exit].
  destruct (heap h !! l) as [p |] eqn:Hp.
  2: { rewrite bind_deref_nil by done. by apply alone_read_nil. }
  assert (l < length (heap h))%nat as Hl by (by eapply lookup_lt_Some).
  rewrite (bind_deref l _ h p Hp).
  apply (alone_read_at l Status _ p h _ Hp).
  destruct (bool_decide (Status p = StatusRunning)); [apply alone_Exit |].
  rewrite bind_host, (on_plugin_put l _ h p Hp). cbn [host_of].
  apply (alone_from_put _ l p h _ Hp).
  apply startPluginProcess_go_alone; [done |]. apply alone_Exit.
Qed.

Lemma StopPlugin_go_alone id h :
  alone plugins (StopPlugin_go w id) h (host_of (StopPlugin w id h)).
Proof.
  unfold StopPlugin_go, StopPlugin. apply alone_registry_Get.
  rewrite bind_registry_Get.
  destruct (registry h !! id) as [l |]; [| apply alone_Exit].
  destruct (heap h !! l) as [p |] eqn:Hp.
  2: { rewrite on_plugin_nil by done. by apply alone_write_nil. }
  assert (l < length (heap h))%nat as Hl by (by eapply lookup_lt_Some).
  rewrite (on_plugin_put l _ h p Hp). cbn [host_of].
  apply (alone_from_put _ l p h _ Hp).
  apply stopPluginProcess_go_alone; [done |]. apply alone_Exit.
Qed.

Lemma monitor_go_alone l waitErr h :
  alone plugins (monitorPluginProcess_go w l waitErr) h
    (host_of (monitor w l waitErr h)).
Proof.
  unfold monitor. rewrite bind_host.
  destruct (heap h !! l) as [p |] eqn:Hp.
  2: { rewrite on_plugin_nil by done. by apply alone_read_nil. }
  assert (l < length (heap h))%nat as Hl by (by eapply lookup_lt_Some).
  rewrite (on_plugin_put l _ h p Hp). cbn [host_of].
  apply (alone_from_put _ l p h _ Hp).
  by apply monitorPluginProcess_go_alone.
Qed.

Lemma connect_go_alone l h :
  alone plugins (connectToPlugin_go w l) h (host_of (connect w l h)).
Proof.
  unfold connect.
  destruct (heap h !! l) as [p |] eqn:Hp.
  2: { rewrite on_plugin_nil by done. unfold connectToPlugin_go.
       apply alone_env. by apply alone_read_nil. }
  assert (l < length (heap h))%nat as Hl by (by eapply lookup_lt_Some).
  rewrite (on_plugin_put l _ h p Hp). cbn [host_of].
  apply (alone_from_put _ l p h _ Hp).
  by apply connectToPlugin_go_alone.
Qed.

Lemma checkPluginsHealth_go_alone h :
  PluginRegistry.is_listing (registry h) plugins →
  alone plugins (checkPluginsHealth_go w) h
    (host_of (checkPluginsHealth w plugins h)).
Proof.
  unfold checkPluginsHealth_go, checkPluginsHealth.
  intros Hlist. apply alone_env. rewrite bind_env.
  apply alone_Listing; [done |]. apply sweep_go_alone.
Qed.

Lemma StopAllPlugins_go_alone h :
  PluginRegistry.is_listing (registry h) plugins →
  alone plugins (StopAllPlugins_go w) h
    (host_of (StopAllPlugins w plugins h)).
Proof. intros Hlist. apply alone_Listing; [done |]. apply stop_each_go_alone. Qed.

Lemma LoadPlugin_go_alone path h :
  alone plugins (LoadPlugin_go w path) h (host_of (LoadPlugin w path h)).
Proof.
  unfold LoadPlugin_go, LoadPlugin, GetPluginInfo.
  eapply alone_atom_Done; [reflexivity |].
  rewrite M_bind_assoc, bind_env. unfold cmd_Output. cbn [fst snd].
  rewrite bind_ret.
  destruct (w_cmd_Output w (trace h) path "--info") as [e | e | info];
    try apply alone_Exit.
  destruct (bool_decide (bi_ID info = "")).
  - eapply alone_atom_Done; [reflexivity |].
    rewrite M_bind_assoc, bind_env, bind_ret. apply alone_read_host.
    rewrite bind_host, bind_alloc_Register.
    eapply alone_atom_Done; [apply alloc_Register | apply alone_Exit].
  - eapply alone_atom_Done; [reflexivity |]. rewrite bind_ret.
    apply alone_read_host. rewrite bind_host, bind_alloc_Register.
    eapply alone_atom_Done; [apply alloc_Register | apply alone_Exit].
Qed.

Lemma CallPluginFunction_go_alone id fn params h :
  alone plugins (CallPluginFunction_go w id fn params) h
    (host_of (CallPluginFunction w id fn params h)).
Proof.
  unfold CallPluginFunction_go, CallPluginFunction. apply alone_registry_Get.
  rewrite bind_registry_Get.
  destruct (registry h !! id) as [l |]; [| apply alone_Exit].
  destruct (heap h !! l) as [p |] eqn:Hp.
  2: { rewrite bind_deref_nil by done. by apply alone_read_nil. }
  rewrite (bind_deref l _ h p Hp).
  apply (alone_read_at l Status _ p h _ Hp).
  destruct (bool_decide (Status p ≠ StatusRunning)).
  { apply (alone_read_at l Status _ p h _ Hp). apply alone_Exit. }
  apply (alone_read_at l Client _ p h _ Hp).
  destruct (Client p) as [c |] eqn:Ec; [| apply alone_Exit].
  apply alone_env. rewrite bind_env. apply alone_env. rewrite bind_env.
  eapply alone_read_at; [exact Hp |]. rewrite Ec.
  apply alone_env. rewrite bind_env. apply alone_Exit.
Qed.

Lemma RegisterHostFunction_go_alone name fn h :
  alone plugins (atomic _ ← RegisterHostFunction name fn; Exit) h
    (host_of (RegisterHostFunction name fn h)).
Proof. eapply alone_atom_Done; [reflexivity |]. apply alone_Exit. Qed.

Lemma Heartbeat_go_alone req h :
  alone plugins (Heartbeat_go w req) h (host_of (Heartbeat w req h)).
Proof.
  unfold Heartbeat_go, Heartbeat. apply alone_registry_Get.
  rewrite bind_registry_Get.
  destruct (registry h !! HeartbeatRequest.PluginId req) as [l |].
  - destruct (heap h !! l) as [p |] eqn:Hp.
    2: { rewrite bind_on_plugin_nil by done. apply alone_env.
         by apply alone_write_nil. }
    assert (l < length (heap h))%nat as Hl by (by eapply lookup_lt_Some).
    rewrite (bind_on_plugin l _ _ h p Hp), bind_env.
    apply (alone_from_put _ l p h _ Hp). do 3 alone_step.
    by apply alone_Exit_eq.
  - rewrite bind_ret, bind_env. apply alone_env. apply alone_Exit.
Qed.

Lemma callPluginFunction_go_alone req target h :
  alone plugins (callPluginFunction_go w req target) h
    (host_of (callPluginFunction w req target h)).
Proof.
  unfold callPluginFunction_go, callPluginFunction. apply alone_registry_Get.
  rewrite bind_registry_Get.
  destruct (registry h !! target) as [l |]; [| apply alone_Exit].
  destruct (heap h !! l) as [p |] eqn:Hp.
  2: { rewrite bind_deref_nil by done. by apply alone_read_nil. }
  rewrite (bind_deref l _ h p Hp).
  apply (alone_read_at l Status _ p h _ Hp).
  destruct (bool_decide (Status p ≠ StatusRunning)).
  { apply (alone_read_at l Status _ p h _ Hp). apply alone_Exit. }
  apply alone_env. rewrite bind_env.
  eapply alone_read_at; [exact Hp |].
  destruct (Client p) as [c |]; [| by apply alone_Panic].
  apply alone_env. rewrite bind_env.
  unfold client_CallPluginFunction. cbn.
  destruct (w_client_CallPluginFunction w _ c _); apply alone_Exit.
Qed.

Lemma CallHostFunction_go_alone req h :
  alone plugins (CallHostFunction_go w req) h
    (host_of (CallHostFunction w req h)).
Proof.
  unfold CallHostFunction_go, CallHostFunction.
  destruct (CallRequest.Metadata req !! key_target_plugin_id) as [target |];
    [apply callPluginFunction_go_alone |].
  apply alone_read_host. rewrite bind_host.
  destruct (hostFunctions h !! CallRequest.FunctionName req) as [[fn |] |];
    [| by apply alone_Panic | apply alone_Exit].
  apply alone_env. rewrite bind_env. cbn.
  destruct (fn (CallRequest.Parameters req)) as [result [e |]];
    apply alone_Exit.
Qed.

Lemma bind_index {A} xs i (f : Z → M A) h :
  (x ← index xs i; f x) h
  = match xs !! i with
    | Some x => f x h
    | None => Panic "index out of range"
    end.
Proof. unfold index. by destruct (xs !! i). Qed.

Lemma alone_index xs i k h o :
  match xs !! i with
  | Some x => alone plugins (k x) h o
  | None => o = Panic "index out of range"
  end →
  alone plugins (atom (index xs i) k) h o.
Proof.
  unfold index. destruct (xs !! i) as [x |].
  - intros Hk. by eapply alone_atom_Done.
  - intros ->. by apply alone_atom_Panic.
Qed.

Lemma Start_go_alone fuel h :
  alone plugins (Start_go w fuel) h (host_of (Start w fuel h)).
Proof.
  unfold Start_go, Start, startGrpcServer, startMonitoring.
  apply alone_read_host.
  rewrite M_bind_assoc, bind_host.
  apply alone_index. rewrite M_bind_assoc, bind_index.
  destruct (PortRange (config h) !! 0%nat) as [startPort |]; [| done].
  apply alone_index. rewrite M_bind_assoc, bind_index.
  destruct (PortRange (config h) !! 1%nat) as [maxPort |]; [| done].
  destruct (0 <? cfg_Port (config h));
    rewrite M_bind_assoc; apply listen_go_alone;
    (intros [port |] h0; [| apply alone_Exit]);
    (do 4 (eapply alone_atom_Done; [reflexivity |]));
    apply alone_read_host; repeat (progress (m_unfold; cbn));
    (destruct (HeartbeatInterval (config h0) <=? 0);
     [by apply alone_Panic |]);
    (do 2 (eapply alone_atom_Done; [reflexivity |]));
    apply alone_Exit.
Qed.

#[local] Transparent updatePluginInfo registered.

Lemma registry_Register_put l s h :
  (l < length (heap h))%nat →
  registry_Register l (put l s h)
  = Done (tt, set_registry
                (PluginRegistry.Register (ID s.1) l (registry (put l s h)))
                (put l s h)).
Proof.
  intros Hl. unfold registry_Register, mbind, M_bind, deref, modify.
  by rewrite put_lookup.
Qed.

Lemma RegisterPlugin_go_alone req h :
  PluginRegistry.is_listing (registry h) plugins →
  alone plugins (RegisterPlugin_go w req) h
    (host_of (RegisterPlugin w plugins req h)).
Proof.
  intros Hlist. unfold RegisterPlugin_go, RegisterPlugin.
  apply alone_Listing; [done |]. apply find_go_alone. intros [l |]; [| apply alone_Exit].
  destruct (heap h !! l) as [p |] eqn:Hp.
  2: { rewrite bind_deref_nil by done. by apply alone_read_nil. }
  assert (l < length (heap h))%nat as Hl by (by eapply lookup_lt_Some).
  rewrite (bind_deref l _ h p Hp), (bind_on_plugin l _ _ h p Hp).
  apply (alone_from_put _ l p h _ Hp).
  unfold updatePluginInfo. act_unfold. unfold time_Now. cbn.
  do 10 alone_step. cbn.
  destruct (bool_decide (ID p ≠ RegisterRequest.PluginId req)).
  - eapply alone_atom_Done; [reflexivity |].
    eapply alone_atom_Done.
    { unfold registry_Register, mbind, M_bind, deref, modify. cbn.
      unfold put. cbn. by rewrite list_lookup_insert_eq. }
    do 2 (eapply alone_atom_Done; [reflexivity |]).
    repeat (progress (m_unfold; cbn)). unfold put. cbn.
    rewrite list_lookup_insert_eq by done. cbn.
    by apply alone_Exit_eq.
  - do 2 (eapply alone_atom_Done; [reflexivity |]).
    repeat (progress (m_unfold; cbn)).
    by apply alone_Exit_eq.
Qed.

#[local] Opaque updatePluginInfo registered.

End Alone.

(** The goroutine of a call, when no other goroutine takes a step in
    between, ends as the call does: with the same host, the same panic,
    or out of fuel with it. *)
Lemma goroutine_alone (w : World) (c : Call) (h : PluginHost) :
  listing_ok h c →
  alone (listing_of c) (goroutine w c) h (host_of (run w c h)).
Proof.
  intros Hl.
  destruct c; cbn [goroutine run listing_of listing_ok] in *;
    rewrite ?host_of_ignore.
  - apply LoadPlugin_go_alone.
  - apply StartPlugin_go_alone.
  - apply StopPlugin_go_alone.
  - by apply StopAllPlugins_go_alone.
  - apply CallPluginFunction_go_alone.
  - apply RegisterHostFunction_go_alone.
  - apply Start_go_alone.
  - apply monitor_go_alone.
  - by apply checkPluginsHealth_go_alone.
  - by apply RegisterPlugin_go_alone.
  - apply connect_go_alone.
  - apply Heartbeat_go_alone.
  - apply CallHostFunction_go_alone.
Qed.

(** A goroutine that runs alone takes steps of the run. *)
Lemma alone_steps (w : World) plugins g h h' :
  alone plugins g h (Done h') →
  ∀ pool i, pool !! i = Some g →
    rtc (step w) (h, pool) (h', <[i := Exit]> pool).
Proof.
  intros Halone. remember (Done h') as o eqn:Eo.
  induction Halone as [h | m h g h1 o Hm _ IH | | | k h o Hlist _ IH];
    intros pool i Hi; try done.
  - injection Eo as ->. rewrite list_insert_id by done. apply rtc_refl.
  - eapply rtc_l; [by eapply step_atom |].
    rewrite <- (list_insert_insert_eq pool i Exit g).
    apply (IH Eo). apply list_lookup_insert_eq. by eapply lookup_lt_Some.
  - eapply rtc_l; [by eapply step_listing |].
    rewrite <- (list_insert_insert_eq pool i Exit (k plugins)).
    apply (IH Eo). apply list_lookup_insert_eq. by eapply lookup_lt_Some.
Qed.

(** A call that returns is a run of its goroutine. *)
Lemma call_steps (w : World) c h h' pool :
  listing_ok h c → run w c h = Done (tt, h') →
  rtc (step w) (h, pool) (h', pool ++ [Exit]).
Proof.
  intros Hl Hrun. pose proof (goroutine_alone w c h Hl) as Halone.
  rewrite Hrun in Halone. cbn in Halone.
  eapply rtc_l; [apply (step_go w h pool c) |].
  replace (pool ++ [Exit])
    with (<[length pool := Exit]> (pool ++ [goroutine w c])).
  - eapply alone_steps; [exact Halone |].
    by rewrite lookup_app_r, Nat.sub_diag.
  - rewrite insert_app_r_alt, Nat.sub_diag by done. done.
Qed.

(** A run in which no two calls overlap is a run. *)
Lemma serially_reachable_reachable (w : World) cfg defaults h :
  serially_reachable w cfg defaults h → reachable w cfg defaults h.
Proof.
  intros Hrun.
  assert (∀ x y, rtc (call_step w) x y →
            ∀ pool, ∃ pool', rtc (step w) (x, pool) (y, pool')) as H.
  { intros x y Hxy. induction Hxy as [| h1 h2 h3 [c Hl Hc] _ IH];
      intros pool; [exists pool; constructor |].
    destruct (IH (pool ++ [Exit])) as [pool' Hrest]. exists pool'.
    etransitivity; [by eapply call_steps | exact Hrest]. }
  apply (H _ _ Hrun []).
Qed.

(** ** Schedules are runs *)

Lemma finish_steps w fuel plugins i :
  ∀ s s', finish fuel plugins i s = Some s' → rtc (step w) s s'.
Proof.
  induction fuel as [| fuel IH]; intros [h pool] s'; cbn;
    destruct (pool !! i) as [[| m | k] |] eqn:Ei; try done;
    try (intros [= <-]; apply rtc_refl).
  - destruct (m h) as [[g h'] | |] eqn:E; [| done | done].
    intros Hrest. eapply rtc_l; [by eapply step_atom | by apply IH].
  - case_decide; [| done].
    intros Hrest. eapply rtc_l; [by eapply step_listing | by apply IH].
Qed.

Lemma choose_steps w ch s s' : choose w ch s = Some s' → rtc (step w) s s'.
Proof.
  destruct s as [h pool].
  destruct ch as [c | c | i | i plugins]; unfold choose; cbn [fst snd].
  - intros Hrest. eapply rtc_l; [apply step_go |].
    by eapply finish_steps.
  - intros [= <-]. apply rtc_once, step_go.
  - destruct (pool !! i) as [[| m | k] |] eqn:Ei; try done.
    destruct (m h) as [[g h'] | |] eqn:E; [| done | done].
    intros [= <-]. by eapply rtc_once, step_atom.
  - destruct (pool !! i) as [[| m | k] |] eqn:Ei; try done.
    case_decide; [| done]. intros [= <-]. by eapply rtc_once, step_listing.
Qed.

Lemma schedule_steps w chs s s' :
  schedule w chs s = Some s' → rtc (step w) s s'.
Proof.
  revert s. induction chs as [| ch chs IH]; intros s; cbn.
  - intros [= <-]. constructor.
  - destruct (choose w ch s) as [s1 |] eqn:E; [| done].
    intros Hrest. etransitivity; [eapply choose_steps, E | by apply IH].
Qed.

Lemma host_after_reachable w cfg chs h :
  host_after w cfg chs = Some h → reachable w cfg ∅ h.
Proof.
  unfold host_after.
  destruct (schedule w chs (NewPluginHost cfg ∅, [])) as [[h' pool] |] eqn:E;
    [| done].
  intros [= <-]. exists pool. by eapply schedule_steps.
Qed.
(** * The claims *)

(** ** Fixtures: a small world and the hosts it leads to *)

Lemma serially_reachable_after w cfg defaults c h :
  serially_reachable w cfg defaults h → listing_ok h c →
  (∃ h', run w c h = Done (tt, h')) →
  serially_reachable w cfg defaults (after w c h).
Proof.
  intros Hh Hl [h' Hrun]. unfold after. rewrite Hrun.
  eapply rtc_r; [exact Hh |]. by econstructor.
Qed.

Lemma reachable_after w cfg defaults c h :
  reachable w cfg defaults h → listing_ok h c →
  (∃ h', run w c h = Done (tt, h')) →
  reachable w cfg defaults (after w c h).
Proof.
  intros [pool Hh] Hl [h' Hrun]. unfold after. rewrite Hrun.
  exists (pool ++ [Exit]).
  etransitivity; [exact Hh | by eapply call_steps].
Qed.

(** Runs of whole calls, one after the other, on concrete hosts. *)
Ltac serial_run :=
  repeat (apply serially_reachable_after;
          [| first [exact I | by vm_compute] | by eexists; vm_compute]);
  try apply rtc_refl.

Lemma host_loaded_serial : serially_reachable demo_world None ∅ host_loaded.
Proof. unfold host_loaded. serial_run. Qed.

Lemma host_starting_serial :
  serially_reachable demo_world None ∅ host_starting.
Proof. unfold host_starting, host_loaded. serial_run. Qed.

Lemma host_running_serial : serially_reachable demo_world None ∅ host_running.
Proof. unfold host_running, host_starting, host_loaded. serial_run. Qed.

Lemma host_loaded_reachable : reachable demo_world None ∅ host_loaded.
Proof. apply serially_reachable_reachable, host_loaded_serial. Qed.

Lemma host_starting_reachable : reachable demo_world None ∅ host_starting.
Proof. apply serially_reachable_reachable, host_starting_serial. Qed.

Lemma host_running_reachable : reachable demo_world None ∅ host_running.
Proof. apply serially_reachable_reachable, host_running_serial. Qed.

(** ** C6: the plugin's inbound call handler *)

(** C6. For a request to the plugin's handler: a name that is not
    registered gives a failure response with code FUNCTION_NOT_FOUND; a
    function that returns an error gives a failure response with code
    FUNCTION_ERROR and the error's text as message; a function that
    succeeds gives a success response that carries the parameter it
    returned; each response echoes the request ID, and the handler returns
    no error. *)
Theorem plugin_call_handler_responses (p : Plugin.t) (req : CallRequest.t) :
  (Plugin.functions p !! CallRequest.FunctionName req = None →
   ∃ resp, Plugin.CallPluginFunction p req = Done (Some resp, None)
     ∧ CallResponse.Success resp = false
     ∧ CallResponse.ErrorCode resp = "FUNCTION_NOT_FOUND"
     ∧ CallResponse.RequestId resp = CallRequest.RequestId req)
  ∧ (∀ fn result e,
       Plugin.functions p !! CallRequest.FunctionName req = Some (Some fn) →
       fn (CallRequest.Parameters req) = (result, Some e) →
       ∃ resp, Plugin.CallPluginFunction p req = Done (Some resp, None)
         ∧ CallResponse.Success resp = false
         ∧ CallResponse.ErrorCode resp = "FUNCTION_ERROR"
         ∧ CallResponse.Message resp = e
         ∧ CallResponse.RequestId resp = CallRequest.RequestId req)
  ∧ (∀ fn result,
       Plugin.functions p !! CallRequest.FunctionName req = Some (Some fn) →
       fn (CallRequest.Parameters req) = (result, None) →
       ∃ resp, Plugin.CallPluginFunction p req = Done (Some resp, None)
         ∧ CallResponse.Success resp = true
         ∧ CallResponse.Result resp = result
         ∧ CallResponse.RequestId resp = CallRequest.RequestId req).
Proof.
  unfold Plugin.CallPluginFunction. split; [| split].
  - intros ->. eexists. by split.
  - intros fn result e -> ->. eexists. by split.
  - intros fn result -> ->. eexists. by split.
Qed.

Lemma plugin_call_handler_responses_witness :
  ∃ resp,
    Plugin.CallPluginFunction calc_plugin (add_request []) = Done (Some resp, None)
    ∧ CallResponse.Success resp = false
    ∧ CallResponse.ErrorCode resp = "FUNCTION_ERROR"
    ∧ CallResponse.Message resp = "need two parameters"
    ∧ CallResponse.RequestId resp = "host-42".
Proof.
  destruct (plugin_call_handler_responses calc_plugin (add_request []))
    as (_ & Herr & _).
  refine (Herr _ None _ _ _); reflexivity.
Defined.

(** Evaluation of a method along its binds. *)
Ltac m_eval := repeat (progress (m_unfold; cbn)).

(** ** C7: StartPlugin refuses an unknown or a running plugin *)

(** C7, as the code has it. StartPlugin returns an error and leaves the
    host as it is, so that no process is spawned, when the ID is not
    registered and when the record is running. In the second case the
    registry holds for the ID the process handles it held before: the
    handle of the record if it has one, none if it has none. *)
Theorem StartPlugin_refuses (w : World) (h : PluginHost) (id : string) :
  (registry h !! id = None →
   StartPlugin w id h = Done (Some ("插件 " +:+ id +:+ " 不存在"), h))
  ∧ (∀ l p,
       registry h !! id = Some l → heap h !! l = Some p →
       Status p = StatusRunning →
       ∃ h', StartPlugin w id h
             = Done (Some ("插件 " +:+ id +:+ " 已在运行中"), h')
         ∧ h' = h
         ∧ spawns (trace h') = spawns (trace h)
         ∧ process_handles h' id = process_handles h id
         ∧ process_handles h' id = option_list (Process p)
         ∧ (length (process_handles h' id) = 1%nat ↔ is_Some (Process p))).
Proof.
  split.
  - intros Hid. unfold StartPlugin. m_eval. by rewrite Hid.
  - intros l p Hid Hp Hrun. exists h.
    assert (process_handles h id = option_list (Process p)) as Hh
      by (unfold process_handles; by rewrite Hid, Hp).
    split; [| split; [done | split; [done | split; [done | split; [done |]]]]].
    + unfold StartPlugin. m_eval. rewrite Hid, Hp. cbn.
      by rewrite bool_decide_eq_true_2.
    + rewrite Hh. destruct (Process p) as [pid |]; cbn.
      * split; [by eexists | done].
      * split; [done | by intros [? ?]].
Qed.

Lemma StartPlugin_refuses_witness :
  ∃ h', StartPlugin demo_world "calc" host_running
        = Done (Some ("插件 " +:+ "calc" +:+ " 已在运行中"), h')
    ∧ h' = host_running
    ∧ spawns (trace h') = spawns (trace host_running)
    ∧ process_handles h' "calc" = process_handles host_running "calc"
    ∧ process_handles h' "calc" = option_list (Process calc_record)
    ∧ (length (process_handles h' "calc") = 1%nat
       ↔ is_Some (Process calc_record)).
Proof.
  destruct (StartPlugin_refuses demo_world host_running "calc") as [_ H].
  apply (H 0%nat calc_record); vm_compute; reflexivity.
Defined.

Lemma host_reconnected_serial :
  serially_reachable demo_world None ∅ host_reconnected.
Proof.
  unfold host_reconnected.
  do 2 (apply serially_reachable_after; [| exact I | by eexists; vm_compute]).
  apply host_starting_serial.
Qed.

(** C7 as it is stated fails: a plugin that is stopped while the host has
    still to connect back to it is running afterwards, and has no process
    handle. StartPlugin refuses to start it, and the registry holds no
    process handle for its ID, not one. *)
Lemma StartPlugin_refuses_without_process_handle :
  reachable demo_world None ∅ host_reconnected
  ∧ (∃ p, registry host_reconnected !! "calc" = Some 0%nat
       ∧ heap host_reconnected !! 0%nat = Some p
       ∧ Status p = StatusRunning)
  ∧ StartPlugin demo_world "calc" host_reconnected
    = Done (Some "插件 calc 已在运行中", host_reconnected)
  ∧ length (process_handles host_reconnected "calc") ≠ 1%nat.
Proof.
  split; [apply serially_reachable_reachable, host_reconnected_serial |].
  split; [eexists; by vm_compute |]. split; by vm_compute.
Qed.

(** ** C8: operations on an ID that is not registered *)

(** C8. For an ID that is not in the registry, Get finds nothing, and
    StopPlugin and CallPluginFunction return the error "does not exist";
    none of them panics, and each leaves the host, its registry included,
    as it is. *)
Theorem unknown_plugin_is_an_error (w : World) (h : PluginHost) (id : string) :
  registry h !! id = None →
  PluginRegistry.Get id (registry h) = None
  ∧ GetPlugin id h = Done (None, h)
  ∧ StopPlugin w id h = Done (Some ("插件 " +:+ id +:+ " 不存在"), h)
  ∧ ∀ functionName params,
      CallPluginFunction w id functionName params h
      = Done ((None, Some ("插件 " +:+ id +:+ " 不存在")), h).
Proof.
  intros Hid. split; [done |].
  unfold GetPlugin, StopPlugin, CallPluginFunction. m_eval.
  rewrite Hid. by repeat split.
Qed.

Lemma unknown_plugin_is_an_error_witness :
  PluginRegistry.Get "ghost" (registry host_running) = None
  ∧ GetPlugin "ghost" host_running = Done (None, host_running)
  ∧ StopPlugin demo_world "ghost" host_running
    = Done (Some "插件 ghost 不存在", host_running)
  ∧ ∀ functionName params,
      CallPluginFunction demo_world "ghost" functionName params host_running
      = Done ((None, Some "插件 ghost 不存在"), host_running).
Proof.
  apply (unknown_plugin_is_an_error demo_world host_running "ghost").
  vm_compute. reflexivity.
Defined.

(** ** C10: the Heartbeat handler *)

(** C10. In every state the host can reach, the Heartbeat handler returns
    a success response with a reading of the clock and no error, whatever
    the plugin ID of the request. If the ID is registered, the record it
    leads to gets a reading of the clock as its LastHeartbeat, its other
    fields and all other records stay as they are; if it is not, no record
    changes. The registry is the same afterwards in both cases. *)
Theorem Heartbeat_always_succeeds (w : World) (cfg : option HostConfig)
    (defaults : gmap string HostFunction) (h : PluginHost)
    (req : HeartbeatRequest.t) :
  reachable w cfg defaults h →
  ∃ resp h',
    Heartbeat w req h = Done ((Some resp, None), h')
    ∧ HeartbeatResponse.Success resp = true
    ∧ (∃ tr, HeartbeatResponse.ServerTimestamp resp = Time_Unix (w_time_Now w tr))
    ∧ same_host_fields h h'
    ∧ (registry h !! HeartbeatRequest.PluginId req = None → heap h' = heap h)
    ∧ (∀ l, registry h !! HeartbeatRequest.PluginId req = Some l →
         ∃ p p', heap h !! l = Some p ∧ heap h' !! l = Some p'
           ∧ LastHeartbeat p' = w_time_Now w (trace h)
           ∧ differ_in_LastHeartbeat_only p p'
           ∧ length (heap h') = length (heap h)
           ∧ ∀ l', l' ≠ l → heap h' !! l' = heap h !! l').
Proof.
  intros Hv%reachable_valid.
  unfold Heartbeat, on_plugin. m_eval. act_unfold.
  destruct (registry h !! HeartbeatRequest.PluginId req) as [l |] eqn:Hid.
  - destruct (Hv _ _ Hid) as [p Hp]. rewrite Hp. cbn.
    eexists _, _. split; [done |]. split; [done |]. split; [by eexists |].
    split; [done |]. split; [done |]. intros l0 [= <-].
    exists p, (set_LastHeartbeat (w_time_Now w (trace h)) p). cbn.
    split; [done |].
    split; [by apply list_lookup_insert_eq; eapply lookup_lt_Some |].
    split; [done |]. split; [by repeat split |].
    split; [by rewrite length_insert |].
    intros l' Hne. by rewrite list_lookup_insert_ne.
  - cbn. eexists _, _. split; [done |]. split; [done |].
    split; [by eexists |]. by repeat split.
Qed.

Lemma Heartbeat_always_succeeds_witness :
  ∃ resp h',
    Heartbeat demo_world (HeartbeatRequest.mk "calc" 7 "running") host_running
    = Done ((Some resp, None), h')
    ∧ HeartbeatResponse.Success resp = true
    ∧ (∃ tr, HeartbeatResponse.ServerTimestamp resp
             = Time_Unix (w_time_Now demo_world tr))
    ∧ same_host_fields host_running h'
    ∧ (registry host_running !! "calc" = None → heap h' = heap host_running)
    ∧ (∀ l, registry host_running !! "calc" = Some l →
         ∃ p p', heap host_running !! l = Some p ∧ heap h' !! l = Some p'
           ∧ LastHeartbeat p' = w_time_Now demo_world (trace host_running)
           ∧ differ_in_LastHeartbeat_only p p'
           ∧ length (heap h') = length (heap host_running)
           ∧ ∀ l', l' ≠ l → heap h' !! l' = heap host_running !! l').
Proof.
  exact (Heartbeat_always_succeeds demo_world None ∅ host_running
           (HeartbeatRequest.mk "calc" 7 "running") host_running_reachable).
Defined.

(** ** C1 and C2: relay of a call from one plugin to another *)

Section Relay.
Context (w : World).

(** The relay does not read the host's function table. *)
Lemma callPluginFunction_ignores_hostFunctions req target hf h :
  callPluginFunction w req target (set_hostFunctions hf h)
  = with_hostFunctions hf (callPluginFunction w req target h).
Proof.
  unfold callPluginFunction, with_hostFunctions. m_eval.
  destruct (registry h !! target) as [l |]; [| done]. cbn.
  destruct (heap h !! l) as [p |]; [| done]. cbn.
  destruct (bool_decide (Status p ≠ StatusRunning)); [done |]. cbn.
  destruct (Client p) as [c |]; [| done]. cbn.
  unfold client_CallPluginFunction. cbn.
  by destruct (w_client_CallPluginFunction _ _ _ _).
Qed.

(** What the relay adds to the trace: a reading of the clock and the call
    to the target, or nothing. *)
Lemma callPluginFunction_trace req target h r h' :
  callPluginFunction w req target h = Done (r, h') →
  ∃ evs, trace h' = trace h ++ evs
    ∧ Forall (λ e, is_host_function_call e = false) evs.
Proof.
  unfold callPluginFunction, client_CallPluginFunction. intros Hrun. m_run;
    first
      [ exists []; by rewrite app_nil_r
      | eexists [_; _]; split;
        [by rewrite <- app_assoc | by repeat constructor] ].
Qed.

End Relay.

Lemma host_with_Add_reachable : reachable demo_world None ∅ host_with_Add.
Proof.
  unfold host_with_Add.
  apply reachable_after; [apply host_running_reachable | exact I |].
  by eexists; vm_compute.
Qed.

(** C1. A request to the host's inbound endpoint whose metadata has the
    key target_plugin_id, with value X, is not dispatched against the
    host's function table: its outcome is the same whatever the table
    holds, and it invokes no host function. If X is not registered the
    response is a failure with code TARGET_PLUGIN_NOT_FOUND; if X is
    registered and its record is not running, a failure with code
    TARGET_PLUGIN_NOT_RUNNING. *)
Theorem relay_bypasses_host_functions (w : World) (h : PluginHost)
    (req : CallRequest.t) (X : string) :
  CallRequest.Metadata req !! "target_plugin_id" = Some X →
  (∀ hf, CallHostFunction w req (set_hostFunctions hf h)
         = with_hostFunctions hf (CallHostFunction w req h))
  ∧ (∀ r h', CallHostFunction w req h = Done (r, h') →
       ∃ evs, trace h' = trace h ++ evs
         ∧ Forall (λ e, is_host_function_call e = false) evs)
  ∧ (registry h !! X = None →
       ∃ resp, CallHostFunction w req h = Done ((Some resp, None), h)
         ∧ CallResponse.Success resp = false
         ∧ CallResponse.ErrorCode resp = "TARGET_PLUGIN_NOT_FOUND")
  ∧ (∀ l p, registry h !! X = Some l → heap h !! l = Some p →
       Status p ≠ StatusRunning →
       ∃ resp, CallHostFunction w req h = Done ((Some resp, None), h)
         ∧ CallResponse.Success resp = false
         ∧ CallResponse.ErrorCode resp = "TARGET_PLUGIN_NOT_RUNNING").
Proof.
  intros Hkey.
  assert (∀ h0, CallHostFunction w req h0 = callPluginFunction w req X h0) as E.
  { intros h0. unfold CallHostFunction, key_target_plugin_id.
    by rewrite Hkey. }
  split; [| split; [| split]].
  - intros hf. rewrite !E. apply callPluginFunction_ignores_hostFunctions.
  - intros r h'. rewrite E. apply callPluginFunction_trace.
  - intros Hx. rewrite E. unfold callPluginFunction. m_eval. rewrite Hx.
    eexists. by split.
  - intros l p Hx Hp Hs. rewrite E. unfold callPluginFunction. m_eval.
    rewrite Hx. cbn. rewrite Hp. cbn. rewrite bool_decide_eq_true_2 by done.
    eexists. by split.
Qed.

Lemma relay_bypasses_host_functions_witness :
  ∃ resp,
    CallHostFunction demo_world (relay_request "ghost") host_with_Add
    = Done ((Some resp, None), host_with_Add)
    ∧ CallResponse.Success resp = false
    ∧ CallResponse.ErrorCode resp = "TARGET_PLUGIN_NOT_FOUND".
Proof.
  destruct (relay_bypasses_host_functions demo_world host_with_Add
              (relay_request "ghost") "ghost") as (_ & _ & H & _).
  - vm_compute. reflexivity.
  - apply H. vm_compute. reflexivity.
Defined.

(** Where every running record has a client, as in the runs in which no
    two calls overlap, a relayed call gets a response and the handler
    returns no error. The response is a failure that echoes the request
    ID, with code TARGET_PLUGIN_NOT_FOUND when the target is not
    registered, with code TARGET_PLUGIN_NOT_RUNNING when its record is not
    running, and with code INTER_PLUGIN_CALL_ERROR when the call forwarded
    to the target failed; otherwise it is the response of the target. *)
Lemma relay_answers_connected_targets (w : World) (h : PluginHost)
    (req : CallRequest.t) (X : string) :
  host_inv h →
  CallRequest.Metadata req !! "target_plugin_id" = Some X →
  ∃ resp h',
    CallHostFunction w req h = Done ((Some resp, None), h')
    ∧ (registry h !! X = None →
         failure_response req "TARGET_PLUGIN_NOT_FOUND" resp)
    ∧ (∀ l p, registry h !! X = Some l → heap h !! l = Some p →
         Status p ≠ StatusRunning →
         failure_response req "TARGET_PLUGIN_NOT_RUNNING" resp)
    ∧ (∀ tr c fwd e,
         trace h' = tr ++ [EvClientCall c fwd] →
         (length (trace h) < length (trace h'))%nat →
         w_client_CallPluginFunction w tr c fwd = inr e →
         failure_response req "INTER_PLUGIN_CALL_ERROR" resp)
    ∧ ((∃ code, code ∈ ["TARGET_PLUGIN_NOT_FOUND"; "TARGET_PLUGIN_NOT_RUNNING";
                        "INTER_PLUGIN_CALL_ERROR"]
                ∧ failure_response req code resp)
       ∨ ∃ tr c fwd,
           trace h' = tr ++ [EvClientCall c fwd]
           ∧ w_client_CallPluginFunction w tr c fwd = inl resp).
Proof.
  intros [Hr Hp] Hkey.
  unfold CallHostFunction, key_target_plugin_id. rewrite Hkey.
  unfold callPluginFunction, client_CallPluginFunction. m_eval.
  destruct (registry h !! X) as [l |] eqn:Hx; cbn.
  2: { eexists _, _. split; [done |]. split; [done |]. split; [done |].
       split; [intros tr c fwd e _ Hlen; lia |].
       left. eexists. split; [| done]. set_solver. }
  destruct (Hr _ _ Hx) as (p & Hl & _). rewrite Hl. cbn.
  destruct (decide (Status p = StatusRunning)) as [Hrun | Hrun].
  2: { rewrite bool_decide_eq_true_2 by done. cbn.
       eexists _, _. split; [done |]. split; [done |].
       split; [intros l0 p0 [= <-] Hp0 _; by simplify_eq |].
       split; [intros tr c fwd e _ Hlen; lia |].
       left. eexists. split; [| done]. set_solver. }
  rewrite bool_decide_eq_false_2 by (by intros ?). cbn.
  destruct (ok_connected _ (Hp _ _ Hl) Hrun) as [[c Hc] _]. rewrite Hc. cbn.
  match goal with
  | |- context [w_client_CallPluginFunction w ?tr0 c ?fwd0] =>
      set (tr := tr0); set (fwd := fwd0);
      destruct (w_client_CallPluginFunction w tr c fwd) as [resp | e] eqn:Hcall
  end; cbn.
  - eexists _, _. split; [done |]. split; [done |].
    split; [intros l0 p0 [= <-] Hp0 Hs; by simplify_eq |].
    split.
    + intros tr1 c1 fwd1 e1 Htr _ Hcall1. cbn in Htr.
      apply app_inj_tail in Htr as [<- [= <- <-]].
      by rewrite Hcall in Hcall1.
    + right. by exists tr, c, fwd.
  - eexists _, _. split; [done |]. split; [done |].
    split; [intros l0 p0 [= <-] Hp0 Hs; by simplify_eq |].
    split; [done |]. left. eexists. split; [| done]. set_solver.
Qed.

Lemma host_with_Add_serial : serially_reachable demo_world None ∅ host_with_Add.
Proof.
  unfold host_with_Add.
  apply serially_reachable_after; [apply host_running_serial | exact I |].
  by eexists; vm_compute.
Qed.

Lemma relay_answers_connected_targets_witness :
  ∃ resp h',
    CallHostFunction demo_world (relay_request "calc") host_with_Add
    = Done ((Some resp, None), h')
    ∧ resp = ok_response.
Proof.
  destruct (relay_answers_connected_targets demo_world host_with_Add
              (relay_request "calc") "calc"
              (serially_reachable_inv _ _ _ _ host_with_Add_serial))
    as (resp & h' & Hrun & _).
  - vm_compute. reflexivity.
  - exists resp, h'. split; [exact Hrun |].
    revert Hrun. vm_compute. congruence.
Defined.

(** A relayed call to a record that runs and has no client panics: the
    relay makes no test of the client before it calls it. *)
Lemma relay_without_client_panics (w : World) (h : PluginHost)
    (req : CallRequest.t) (X : string) (l : loc) (p : PluginInfo) :
  CallRequest.Metadata req !! "target_plugin_id" = Some X →
  registry h !! X = Some l → heap h !! l = Some p →
  Status p = StatusRunning → Client p = None →
  CallHostFunction w req h
  = Panic "invalid memory address or nil pointer dereference".
Proof.
  intros Hkey Hx Hp Hs Hc.
  unfold CallHostFunction, key_target_plugin_id. rewrite Hkey.
  unfold callPluginFunction. m_eval. rewrite Hx. cbn. rewrite Hp. cbn.
  rewrite bool_decide_eq_false_2 by (by intros ?). cbn. by rewrite Hc.
Qed.

Lemma host_raced_reachable : reachable demo_world None ∅ host_raced.
Proof.
  apply (host_after_reachable demo_world None stop_during_connect).
  by vm_compute.
Qed.

(** C2, where the code departs from it. StopPlugin can run while the
    goroutine that connects back to the plugin is between its store of
    the client and its store of the status; the record is then running
    and has no client. A relayed call to this plugin gets no response:
    the handler calls the client without the test that the host's own
    CallPluginFunction makes, and panics. *)
Theorem relay_panics_on_running_record_without_client :
  reachable demo_world None ∅ host_raced
  ∧ (∃ p, registry host_raced !! "calc" = Some 0%nat
       ∧ heap host_raced !! 0%nat = Some p
       ∧ Status p = StatusRunning ∧ Client p = None)
  ∧ (∀ w req,
       CallRequest.Metadata req !! "target_plugin_id" = Some "calc" →
       CallHostFunction w req host_raced
       = Panic "invalid memory address or nil pointer dereference")
  ∧ CallHostFunction demo_world (relay_request "calc") host_raced
    = Panic "invalid memory address or nil pointer dereference"
  ∧ CallPluginFunction demo_world "calc" "Add" [] host_raced
    = Done ((None, Some "插件 calc gRPC客户端未连接"), host_raced).
Proof.
  split; [apply host_raced_reachable |].
  split; [eexists; by vm_compute |].
  split; [| split; by vm_compute].
  intros w req Hkey.
  by eapply (relay_without_client_panics w host_raced req "calc" 0%nat);
    [exact Hkey | vm_compute; reflexivity | vm_compute; reflexivity | |].
Qed.

(** ** The heartbeat sweep, record by record *)

Section Sweep.
Context (w : World).

(** What the body of the sweep's loop does to one record. *)
Lemma checkPluginHealth_cases cfg port now l p tr :
  swept cfg now p (checkPluginHealth w cfg port now l (p, tr)).2.1.
Proof.
  unfold swept, stale, heartbeat_timeout, restartable.
  split; [| split].
  - intros Hs. unfold checkPluginHealth. act_unfold.
    by rewrite bool_decide_eq_false_2.
  - intros Hs Hfresh. unfold checkPluginHealth. act_unfold.
    rewrite bool_decide_eq_true_2 by done. cbn.
    by destruct (Z.ltb_spec (Duration_mul (HeartbeatInterval cfg)
                               (MaxHeartbeatMiss cfg))
                   (Time_Sub now (LastHeartbeat p))).
  - intros Hs Hstale%Z.ltb_lt. unfold checkPluginHealth. act_unfold.
    rewrite bool_decide_eq_true_2 by done. cbn. rewrite Hstale. cbn.
    destruct (AutoRestart p && (RestartCount p <? MaxRestarts p)); cbn;
      [| done].
    match goal with |- context [startPluginProcess w port l (?x, ?t)] =>
      pose proof (startPluginProcess_status w port l x t) as Hstat;
      destruct (startPluginProcess w port l (x, t)) as [a [p' tr']]
    end.
    cbn in *. split; [| done]. by destruct Hstat as [-> | ->].
Qed.

(** A record that the sweep goes through once more stays as the first
    passage left it. *)
Lemma swept_again cfg now p p1 p2 :
  swept cfg now p p1 → swept cfg now p1 p2 → swept cfg now p p2.
Proof.
  intros (H1 & H2 & H3) (K1 & K2 & K3).
  destruct (decide (Status p = StatusRunning)) as [Hs | Hs].
  - destruct (Z_lt_dec (heartbeat_timeout cfg)
                (Time_Sub now (LastHeartbeat p))) as [Hst | Hst].
    + destruct (H3 Hs Hst) as (Hn & Hoff & Hon).
      rewrite (K1 Hn). by repeat split.
    + rewrite (H2 Hs Hst) in *. by repeat split.
  - rewrite (H1 Hs) in *. by repeat split.
Qed.

(** The loop of the sweep over pointers that are valid: every listed
    record goes through the body, every other record and every other
    field of the host is left alone. *)
Lemma sweep_loop now ls h :
  (∀ l, l ∈ ls → is_Some (heap h !! l)) →
  ∃ h',
    for_each ls (λ l,
      h0 ← host;
      on_plugin l (checkPluginHealth w (config h0) (actualPort h0) now l)) h
    = Done (tt, h')
    ∧ same_host_fields h h'
    ∧ length (heap h') = length (heap h)
    ∧ ∀ l p, heap h !! l = Some p →
        ∃ p', heap h' !! l = Some p'
          ∧ (l ∉ ls → p' = p) ∧ (l ∈ ls → swept (config h) now p p').
Proof.
  revert h. induction ls as [| l0 rest IH]; intros h Hvalid.
  - exists h. cbn. split; [done |]. split; [done |]. split; [done |].
    intros l p Hl. exists p. split; [done |]. split; [done |].
    intros Hin. by apply elem_of_nil in Hin.
  - destruct (Hvalid l0) as [p0 Hp0]; [left |].
    cbn [for_each]. unfold on_plugin. m_eval. rewrite Hp0.
    pose proof (checkPluginHealth_cases (config h) (actualPort h) now l0 p0
                  (trace h)) as Hsw0.
    destruct (checkPluginHealth w (config h) (actualPort h) now l0
                (p0, trace h)) as [[] [p0' tr0]] eqn:E0. cbn in Hsw0. cbn.
    match goal with |- context [for_each rest ?b ?h1'] => set (h1 := h1') end.
    destruct (IH h1) as (h' & Hrun & Hsame & Hlen & Hrec).
    { intros l Hl. apply lookup_lt_is_Some. unfold h1. cbn.
      rewrite length_insert. apply lookup_lt_is_Some, Hvalid. by right. }
    exists h'. split; [exact Hrun |].
    split; [by destruct Hsame as (? & ? & ? & ? & ? & ? & ?) |].
    split; [by rewrite Hlen; unfold h1; cbn; rewrite length_insert |].
    intros l p Hl. destruct (decide (l = l0)) as [-> | Hne].
    + assert (p0 = p) as -> by congruence.
      destruct (Hrec l0 p0') as (p' & Hp' & Hout & Hin).
      { unfold h1. cbn.
        by rewrite list_lookup_insert_eq by (by eapply lookup_lt_Some). }
      exists p'. split; [done |].
      split; [intros Hno; exfalso; apply Hno; left |]. intros _.
      destruct (decide (l0 ∈ rest)) as [Hel | Hel].
      * eapply swept_again; [exact Hsw0 | by apply Hin].
      * by rewrite (Hout Hel).
    + destruct (Hrec l p) as (p' & Hp' & Hout & Hin).
      { unfold h1. cbn. by rewrite list_lookup_insert_ne. }
      exists p'. split; [done |]. split.
      * intros Hno. apply Hout. intros Hel. apply Hno. by right.
      * intros [? | Hel]%elem_of_cons; [done |]. by apply Hin.
Qed.

(** The sweep, from a host whose registry holds valid pointers. *)
Lemma checkPluginsHealth_sweeps plugins h :
  valid h → PluginRegistry.is_listing (registry h) plugins →
  ∃ h',
    checkPluginsHealth w plugins h = Done (tt, h')
    ∧ same_host_fields h h'
    ∧ ∀ l p, heap h !! l = Some p →
        ∃ p', heap h' !! l = Some p'
          ∧ (l ∉ plugins → p' = p)
          ∧ (l ∈ plugins → swept (config h) (w_time_Now w (trace h)) p p').
Proof.
  intros Hv Hlist. unfold checkPluginsHealth. m_eval.
  match goal with |- context [for_each plugins ?b ?h1'] => set (h1 := h1') end.
  destruct (sweep_loop (w_time_Now w (trace h)) plugins h1)
    as (h' & Hrun & Hsame & _ & Hrec).
  { intros l Hl. destruct (is_listing_elem _ _ _ Hlist Hl) as [id Hid].
    by apply (Hv id l). }
  exists h'. split; [exact Hrun |]. split; [exact Hsame |]. exact Hrec.
Qed.

End Sweep.
(** ** C3: the restart budget *)

Lemma spawns_app tr tr' : spawns (tr ++ tr') = (spawns tr + spawns tr')%nat.
Proof. unfold spawns. by rewrite List.filter_app, length_app. Qed.

Section RestartBudget.
Context (w : World).

Lemma startPluginProcess_spawns port l p tr :
  spawns (startPluginProcess w port l (p, tr)).2.2 = S (spawns tr).
Proof.
  unfold startPluginProcess. act_cases; rewrite ?spawns_app; cbn; lia.
Qed.

#[local] Opaque startPluginProcess.

(** A detected crash, with auto-restart on: while the counter is below
    the budget it moves by one and one process is started; once it is
    not, nothing is started and the record stays crashed. *)
Lemma detect_restarts port l d p tr :
  budget_ok p → AutoRestart p = true → crashes d p →
  let s := (detect w port l d (p, tr)).2 in
  same_plugin p s.1
  ∧ if RestartCount p <? MaxRestarts p then
      RestartCount s.1 = RestartCount p + 1
      ∧ spawns s.2 = S (spawns tr)
      ∧ (Status s.1 = StatusStarting ∨ Status s.1 = StatusError)
    else
      RestartCount s.1 = RestartCount p ∧ s.2 = tr
      ∧ Status s.1 = StatusCrashed.
Proof.
  intros (Hm & Hn & Hb) Hauto Hcr. cbn zeta.
  assert (RestartCount p < MaxRestarts p →
          wrap64 (RestartCount p + 1) = RestartCount p + 1) as Hstep
    by (intros; apply wrap64_id; int64_lia).
  destruct d as [e | cfg now]; cbn [detect crashes] in *.
  - destruct Hcr as [[c Hc] Hs].
    unfold monitorPluginProcess. act_unfold. rewrite Hc. cbn.
    rewrite (bool_decide_eq_true_2 (Status p ≠ StatusStopping)) by done. cbn.
    rewrite Hauto. cbn.
    destruct (Z.ltb_spec (RestartCount p) (MaxRestarts p)); cbn;
      [| by rewrite andb_false_r].
    rewrite Hstep by done.
    rewrite (bool_decide_eq_true_2 (StatusCrashed = StatusCrashed)) by done.
    cbn.
    match goal with |- context [startPluginProcess w port l (?x, ?t)] =>
      pose proof (startPluginProcess_same w port l x t) as [Hsame Hcount];
      pose proof (startPluginProcess_status w port l x t) as Hstat;
      pose proof (startPluginProcess_spawns port l x t) as Hsp;
      destruct (startPluginProcess w port l (x, t)) as [a [p' tr']]
    end.
    cbn in *. rewrite spawns_app in Hsp. cbn in Hsp.
    repeat split; try done; try apply Hsame. lia.
  - destruct Hcr as [Hs Hstale].
    unfold checkPluginHealth. act_unfold.
    rewrite (bool_decide_eq_true_2 _ Hs). cbn.
    apply Z.ltb_lt in Hstale. rewrite Hstale. cbn. rewrite Hauto. cbn.
    destruct (Z.ltb_spec (RestartCount p) (MaxRestarts p)); cbn; [| done].
    rewrite Hstep by done.
    match goal with |- context [startPluginProcess w port l (?x, ?t)] =>
      pose proof (startPluginProcess_same w port l x t) as [Hsame Hcount];
      pose proof (startPluginProcess_status w port l x t) as Hstat;
      pose proof (startPluginProcess_spawns port l x t) as Hsp;
      destruct (startPluginProcess w port l (x, t)) as [a [p' tr']]
    end.
    cbn in *. repeat split; try done; apply Hsame.
Qed.

#[local] Transparent startPluginProcess.

Lemma budget_ok_same p p' : budget_ok p → same_budget p p' → budget_ok p'.
Proof.
  intros (Hm & Hn & Hb) (_ & Em & Ec). unfold budget_ok. by rewrite Em, Ec.
Qed.

End RestartBudget.

Section RestartBudgetKept.
Context (w : World).



End RestartBudgetKept.

(** *** Crash detections of the host *)




Section Detections.
Context (w : World).









End Detections.

(** *** Calls that are not crash detections of a record *)

Section Quiet.
Context (w : World).










End Quiet.
(** *** The restart budget of the example *)





(** ** C4: the heartbeat sweep *)

(** C4. A sweep, in any state the host can reach, returns; it leaves
    every record alone that is not running or not registered; a running
    record of the registry is declared crashed (and, where the
    auto-restart policy applies, started again: its status is then
    starting or error) exactly when the time since its last heartbeat
    exceeds HeartbeatInterval * MaxHeartbeatMiss, and is left alone
    otherwise. The test is made on Durations; where neither side
    overflows it is the comparison of the numbers. With an interval of one
    second and three misses, a heartbeat four seconds old is stale and one
    two seconds old is not. *)
Theorem heartbeat_sweep_marks_stale (w : World) (cfg : option HostConfig)
    (defaults : gmap string HostFunction) (h : PluginHost)
    (plugins : list loc) :
  reachable w cfg defaults h →
  PluginRegistry.is_listing (registry h) plugins →
  let now := w_time_Now w (trace h) in
  (∃ h',
     checkPluginsHealth w plugins h = Done (tt, h')
     ∧ same_host_fields h h'
     ∧ ∀ l p, heap h !! l = Some p →
         ∃ p', heap h' !! l = Some p'
           ∧ (l ∉ plugins ∨ Status p ≠ StatusRunning → p' = p)
           ∧ (l ∈ plugins → Status p = StatusRunning →
                (¬ stale (config h) now p → p' = p)
                ∧ (stale (config h) now p →
                     Status p' ≠ StatusRunning
                     ∧ (restartable p = false →
                          p' = set_Status StatusCrashed p)
                     ∧ (restartable p = true →
                          Status p' = StatusStarting
                          ∨ Status p' = StatusError))))
  ∧ (∀ c t p,
       in_int64 (HeartbeatInterval c * MaxHeartbeatMiss c) →
       in_int64 (t - LastHeartbeat p) →
       stale c t p
       ↔ t - LastHeartbeat p > HeartbeatInterval c * MaxHeartbeatMiss c)
  ∧ (∀ c t p,
       HeartbeatInterval c = 1 * Second → MaxHeartbeatMiss c = 3 →
       (LastHeartbeat p = t - 4 * Second → stale c t p)
       ∧ (LastHeartbeat p = t - 2 * Second → ¬ stale c t p)).
Proof.
  intros Hreach Hlist now. split; [| split].
  - apply reachable_valid in Hreach.
    destruct (checkPluginsHealth_sweeps w plugins h Hreach Hlist)
      as (h' & Hrun & Hsame & Hrec).
    exists h'. split; [exact Hrun |]. split; [exact Hsame |].
    intros l p Hl. destruct (Hrec l p Hl) as (p' & Hp' & Hout & Hin).
    exists p'. split; [exact Hp' |]. split.
    + intros [Hno | Hs]; [by apply Hout |].
      destruct (decide (l ∈ plugins)) as [Hel | Hel]; [| by apply Hout].
      destruct (Hin Hel) as (K1 & _). by apply K1.
    + intros Hel Hs. destruct (Hin Hel) as (_ & H2 & H3).
      split; [by apply H2 | by apply H3].
  - intros c t p Hmul Hsub. unfold stale, heartbeat_timeout.
    rewrite Duration_mul_exact, Time_Sub_exact by done. lia.
  - intros c t p Hi Hm. unfold stale, heartbeat_timeout. rewrite Hi, Hm.
    rewrite Duration_mul_exact by (unfold Second; int64_lia).
    split; intros ->.
    + rewrite Time_Sub_exact by (unfold Second; int64_lia).
      unfold Second. lia.
    + rewrite Time_Sub_exact by (unfold Second; int64_lia).
      unfold Second. lia.
Qed.

Lemma sweep_host_2s_serial :
  serially_reachable demo_world (Some sweep_config) ∅ sweep_host_2s.
Proof. unfold sweep_host_2s, sweep_host_running. serial_run. Qed.

Lemma sweep_host_2s_reachable :
  reachable demo_world (Some sweep_config) ∅ sweep_host_2s.
Proof. apply serially_reachable_reachable, sweep_host_2s_serial. Qed.

Lemma sweep_host_4s_reachable :
  reachable demo_world (Some sweep_config) ∅ sweep_host_4s.
Proof.
  unfold sweep_host_4s.
  do 2 (apply reachable_after; [| exact I | by eexists; vm_compute]).
  apply sweep_host_2s_reachable.
Qed.

Lemma heartbeat_sweep_marks_stale_witness :
  (∃ h' p', checkPluginsHealth demo_world [0%nat] sweep_host_2s = Done (tt, h')
     ∧ heap h' !! 0%nat = Some p' ∧ p' = record_2s)
  ∧ (∃ h' p', checkPluginsHealth demo_world [0%nat] sweep_host_4s = Done (tt, h')
       ∧ heap h' !! 0%nat = Some p' ∧ Status p' ≠ StatusRunning).
Proof.
  split.
  - destruct (heartbeat_sweep_marks_stale demo_world (Some sweep_config) ∅
                sweep_host_2s [0%nat] sweep_host_2s_reachable)
      as [(h' & Hrun & _ & Hrec) _]; [by vm_compute |].
    destruct (Hrec 0%nat record_2s) as (p' & Hp' & _ & Hlisted);
      [by vm_compute |].
    exists h', p'. split; [exact Hrun |]. split; [exact Hp' |].
    apply Hlisted; [left | by vm_compute |]. by vm_compute.
  - destruct (heartbeat_sweep_marks_stale demo_world (Some sweep_config) ∅
                sweep_host_4s [0%nat] sweep_host_4s_reachable)
      as [(h' & Hrun & _ & Hrec) _]; [by vm_compute |].
    destruct (Hrec 0%nat record_2s) as (p' & Hp' & _ & Hlisted);
      [by vm_compute |].
    exists h', p'. split; [exact Hrun |]. split; [exact Hp' |].
    apply Hlisted; [left | by vm_compute |]. by vm_compute.
Defined.
(** ** C5: a record runs only once the host has connected back *)

Section RunningOnlyConnected.
Context (w : World).








End RunningOnlyConnected.



(** ** C9: the port the inbound server binds *)

(** C9, where the code departs from it. With an explicit port and no port
    range configured, as in the README's quick start, startup does not
    collapse the range to the configured port: [startGrpcServer] indexes
    the empty range before it looks at the port, and Start panics without
    trying to bind anything. *)
Theorem Start_panics_on_explicit_port_without_range (w : World) (fuel : nat)
    (defaults : gmap string HostFunction) :
  Start w fuel (NewPluginHost (Some readme_config) defaults)
  = Panic "index out of range".
Proof. reflexivity. Qed.

(** With the range [50051, 50051] and that port taken, Start returns the
    error that names the range. *)
Lemma Start_single_port_taken (defaults : gmap string HostFunction) :
  ∃ h', Start demo_world 1 (NewPluginHost (Some single_port_config) defaults)
        = Done (Some "启动gRPC服务器失败: 无法找到可用端口 (尝试范围: 50051-50051)", h')
    ∧ trace h' = [EvNetListen ":50051"] ∧ listener h' = None.
Proof. eexists. split; [reflexivity | by split]. Qed.

(** * Further properties of the host *)

(** ** The registry *)

(** In every state the host can reach, an ID of the registry leads to a
    record that carries this very ID, [GetPlugin] returns it and leaves
    the host alone, and no other ID leads to the same record. *)
Theorem registered_id_leads_to_its_record (w : World)
    (cfg : option HostConfig) (defaults : gmap string HostFunction)
    (h : PluginHost) (id : string) (l : loc) :
  serially_reachable w cfg defaults h → registry h !! id = Some l →
  GetPlugin id h = Done (Some l, h)
  ∧ (∃ p, heap h !! l = Some p ∧ ID p = id)
  ∧ ∀ id', registry h !! id' = Some l → id' = id.
Proof.
  intros [Hr _]%serially_reachable_inv Hid. split; [| split].
  - unfold GetPlugin. m_eval. by rewrite Hid.
  - by apply Hr.
  - intros id' Hid'. destruct (Hr _ _ Hid) as (p & Hp & <-).
    destruct (Hr _ _ Hid') as (p' & Hp' & <-). congruence.
Qed.

Lemma registered_id_leads_to_its_record_witness :
  GetPlugin "calc" host_running = Done (Some 0%nat, host_running)
  ∧ (∃ p, heap host_running !! 0%nat = Some p ∧ ID p = "calc")
  ∧ ∀ id', registry host_running !! id' = Some 0%nat → id' = "calc".
Proof.
  apply (registered_id_leads_to_its_record demo_world None ∅ host_running
           "calc" 0%nat host_running_serial).
  vm_compute. reflexivity.
Defined.

(** In every state the host can reach, what [List] returns has one entry
    for each registered ID, as many as [Count] says, without repetition,
    and each entry is a live record. *)
Theorem listing_has_each_record_once (w : World) (cfg : option HostConfig)
    (defaults : gmap string HostFunction) (h : PluginHost)
    (plugins : list loc) :
  serially_reachable w cfg defaults h →
  PluginRegistry.is_listing (registry h) plugins →
  NoDup plugins
  ∧ length plugins = PluginRegistry.Count (registry h)
  ∧ ∀ l, l ∈ plugins ↔ ∃ id p, registry h !! id = Some l
                          ∧ heap h !! l = Some p ∧ ID p = id.
Proof.
  intros Hinv%serially_reachable_inv Hlist. pose proof Hinv as [Hr _].
  split; [| split].
  - unfold PluginRegistry.is_listing in Hlist. rewrite Hlist.
    by eapply store_ok_values_NoDup.
  - unfold PluginRegistry.is_listing, PluginRegistry.values in Hlist.
    rewrite Hlist, length_fmap. unfold PluginRegistry.Count.
    by rewrite length_map_to_list.
  - intros l. split.
    + intros Hl. destruct (is_listing_elem _ _ _ Hlist Hl) as [id Hid].
      destruct (Hr _ _ Hid) as (p & Hp & Ep). by exists id, p.
    + intros (id & p & Hid & _).
      unfold PluginRegistry.is_listing, PluginRegistry.values in Hlist.
      rewrite Hlist. apply list_elem_of_fmap. exists (id, l).
      split; [done |]. by apply elem_of_map_to_list.
Qed.

Lemma listing_has_each_record_once_witness :
  NoDup [0%nat]
  ∧ length [0%nat] = PluginRegistry.Count (registry host_running)
  ∧ ∀ l, l ∈ [0%nat] ↔ ∃ id p, registry host_running !! id = Some l
                          ∧ heap host_running !! l = Some p ∧ ID p = id.
Proof.
  apply (listing_has_each_record_once demo_world None ∅ host_running [0%nat]
           host_running_serial).
  by vm_compute.
Defined.

(** The registry by itself: a record is found under the ID it was
    registered with, which replaces what was there; unregistering an ID
    removes it and nothing else; [Count] moves by one exactly when the ID
    was new, respectively known. *)
Theorem PluginRegistry_laws (pr : PluginRegistry.t) (id : string) (l : loc) :
  PluginRegistry.Get id (PluginRegistry.Register id l pr) = Some l
  ∧ PluginRegistry.Get id (PluginRegistry.Unregister id pr) = None
  ∧ (∀ id', id' ≠ id →
       PluginRegistry.Get id' (PluginRegistry.Register id l pr)
       = PluginRegistry.Get id' pr
       ∧ PluginRegistry.Get id' (PluginRegistry.Unregister id pr)
         = PluginRegistry.Get id' pr)
  ∧ PluginRegistry.Count (PluginRegistry.Register id l pr)
    = match PluginRegistry.Get id pr with
      | Some _ => PluginRegistry.Count pr
      | None => S (PluginRegistry.Count pr)
      end
  ∧ PluginRegistry.Count pr
    = match PluginRegistry.Get id pr with
      | Some _ => S (PluginRegistry.Count (PluginRegistry.Unregister id pr))
      | None => PluginRegistry.Count (PluginRegistry.Unregister id pr)
      end
  ∧ PluginRegistry.Count PluginRegistry.New = 0%nat.
Proof.
  unfold PluginRegistry.Get, PluginRegistry.Register,
    PluginRegistry.Unregister, PluginRegistry.Count, PluginRegistry.New.
  split; [apply lookup_insert_eq |]. split; [apply lookup_delete_eq |].
  split.
  { intros id' Hne. by rewrite lookup_insert_ne, lookup_delete_ne. }
  split; [| split; [| done]].
  - rewrite map_size_insert. by destruct (pr !! id).
  - rewrite map_size_delete. destruct (pr !! id) as [l0 |] eqn:E; [| done].
    assert (size pr ≠ 0%nat) by (eapply map_size_ne_0_lookup_2; eauto).
    cbn. lia.
Qed.

(** ** Loading *)

(** When the executable answers [--info] with its description, LoadPlugin
    returns a new record and files it under the ID of the description, or
    under an ID made from the clock when the description has none. The
    record is stopped, has no process and no connection, a budget of three
    restarts of which none is used, and the auto-restart policy of the
    configuration. Nothing is started, and what was registered under
    other IDs stays. *)
Theorem LoadPlugin_registers_stopped_record (w : World) (h : PluginHost)
    (path : string) (info : PluginBasicInfo) :
  w_cmd_Output w (trace h) path "--info" = InfoOk info →
  let asked := trace h ++ [EvCmdOutput path "--info"] in
  let id :=
    if bool_decide (bi_ID info = "")
    then "plugin-" +:+ pretty (Time_UnixNano (w_time_Now w asked))
    else bi_ID info in
  let l := length (heap h) in
  ∃ h' p,
    LoadPlugin w path h = Done ((Some l, None), h')
    ∧ registry h' = <[id := l]> (registry h)
    ∧ heap h' = heap h ++ [p]
    ∧ p = loaded (config h) id path info
    ∧ ID p = id ∧ ExecutablePath p = path ∧ Status p = StatusStopped
    ∧ Process p = None ∧ Client p = None
    ∧ MaxRestarts p = 3 ∧ RestartCount p = 0
    ∧ AutoRestart p = AutoRestartPlugin (config h)
    ∧ spawns (trace h') = spawns (trace h)
    ∧ trace h'
      = if bool_decide (bi_ID info = "") then asked ++ [EvTimeNow] else asked.
Proof.
  intros Hinfo. cbn zeta. unfold LoadPlugin, GetPluginInfo, cmd_Output.
  m_eval. rewrite Hinfo. cbn.
  destruct (bool_decide (bi_ID info = "")) eqn:E; m_eval; unfold time_Now; cbn;
    rewrite lookup_app_r, Nat.sub_diag by done; cbn;
    eexists _, _; repeat (split; [reflexivity |]);
    (split; [| done]); unfold spawns; cbn;
    rewrite ?List.filter_app, ?length_app; cbn; lia.
Qed.

Lemma LoadPlugin_registers_stopped_record_witness :
  ∃ h' p,
    LoadPlugin demo_world "calc.exe" host_fresh = Done ((Some 0%nat, None), h')
    ∧ registry h' = <["calc" := 0%nat]> (registry host_fresh)
    ∧ heap h' = heap host_fresh ++ [p]
    ∧ Status p = StatusStopped ∧ RestartCount p = 0 ∧ MaxRestarts p = 3.
Proof.
  destruct (LoadPlugin_registers_stopped_record demo_world host_fresh
              "calc.exe" calc_info eq_refl)
    as (h' & p & Hrun & Hreg & Hheap & _ & _ & _ & Hs & _ & _ & Hm & Hc & _).
  exists h', p. repeat split; assumption.
Defined.

(** When the executable cannot be run with [--info], or its answer is not
    a description, LoadPlugin returns no record and an error that wraps
    the cause, and the registry and the records are as before. *)
Theorem LoadPlugin_reports_unreadable_plugin (w : World) (h : PluginHost)
    (path : string) (e : string) :
  let h' := set_trace (trace h ++ [EvCmdOutput path "--info"]) h in
  (w_cmd_Output w (trace h) path "--info" = InfoExecFailed e →
   LoadPlugin w path h
   = Done ((None, Some ("获取插件信息失败: 获取插件信息失败: " +:+ e)), h'))
  ∧ (w_cmd_Output w (trace h) path "--info" = InfoBadJSON e →
     LoadPlugin w path h
     = Done ((None, Some ("获取插件信息失败: 解析插件信息失败: " +:+ e)), h'))
  ∧ registry h' = registry h ∧ heap h' = heap h.
Proof.
  cbn zeta. unfold LoadPlugin, GetPluginInfo, cmd_Output.
  split; [| split; [| done]]; intros Hinfo; m_eval; by rewrite Hinfo.
Qed.

(** Loading a plugin whose ID is already registered replaces the entry:
    the number of registered plugins stays, the record that was registered
    stays in memory as it was (so a process it has keeps running) and no
    ID of the registry leads to it any more. *)
Theorem LoadPlugin_again_orphans_the_record (w : World)
    (cfg : option HostConfig) (defaults : gmap string HostFunction)
    (h : PluginHost) (path : string) (info : PluginBasicInfo) (l0 : loc) :
  serially_reachable w cfg defaults h →
  w_cmd_Output w (trace h) path "--info" = InfoOk info →
  bi_ID info ≠ "" → registry h !! bi_ID info = Some l0 →
  ∃ h',
    LoadPlugin w path h = Done ((Some (length (heap h)), None), h')
    ∧ PluginRegistry.Count (registry h') = PluginRegistry.Count (registry h)
    ∧ registry h' !! bi_ID info = Some (length (heap h))
    ∧ heap h' !! l0 = heap h !! l0
    ∧ (∀ id, registry h' !! id ≠ Some l0)
    ∧ Forall (λ e, is_cleanup e = false) (drop (length (trace h)) (trace h')).
Proof.
  intros [Hr _]%serially_reachable_inv Hinfo Hne Hid.
  destruct (LoadPlugin_registers_stopped_record w h path info Hinfo)
    as (h' & p & Hrun & Hreg & Hheap & _ & _ & _ & _ & _ & _ & _ & _ & _ & _ & Htr).
  cbn zeta in *. rewrite bool_decide_eq_false_2 in Hreg, Htr by done.
  destruct (Hr _ _ Hid) as (p0 & Hp0 & Eid).
  exists h'. split; [exact Hrun |]. rewrite Hreg, Hheap, Htr.
  split; [| split; [| split; [| split]]].
  - unfold PluginRegistry.Count. apply map_size_insert_Some. by eexists.
  - apply lookup_insert_eq.
  - apply lookup_app_l. by eapply lookup_lt_Some.
  - intros id. destruct (decide (id = bi_ID info)) as [-> |].
    + rewrite lookup_insert_eq. intros [= E].
      apply lookup_lt_Some in Hp0. lia.
    + rewrite lookup_insert_ne by done. intros Hid'.
      destruct (Hr _ _ Hid') as (p1 & Hp1 & Eid1). congruence.
  - rewrite drop_app_length. by repeat constructor.
Qed.

Lemma LoadPlugin_again_orphans_the_record_witness :
  ∃ h',
    LoadPlugin demo_world "calc2.exe" host_running
    = Done ((Some (length (heap host_running)), None), h')
    ∧ PluginRegistry.Count (registry h')
      = PluginRegistry.Count (registry host_running)
    ∧ registry h' !! bi_ID calc_info = Some (length (heap host_running))
    ∧ heap h' !! 0%nat = heap host_running !! 0%nat
    ∧ (∀ id, registry h' !! id ≠ Some 0%nat)
    ∧ Forall (λ e, is_cleanup e = false)
        (drop (length (trace host_running)) (trace h')).
Proof.
  apply (LoadPlugin_again_orphans_the_record demo_world None ∅ host_running
           "calc2.exe" calc_info 0%nat host_running_serial);
    vm_compute; (reflexivity || discriminate).
Defined.

(** ** Starting and stopping *)

(** StartPlugin on a registered record that is not running starts the
    executable of the record, with the record's ID and the address of the
    host's server in its environment. If the process starts, the record
    is starting (not yet running), knows its process, and a monitor waits
    for the process; if it does not, the record is in error and the
    error is returned. The restart counter is not touched. *)
Theorem StartPlugin_spawns_the_process (w : World) (h : PluginHost)
    (id : string) (l : loc) (p : PluginInfo) :
  registry h !! id = Some l → heap h !! l = Some p →
  Status p ≠ StatusRunning →
  let env := ["PLUGIN_ID=" +:+ ID p;
              "HOST_GRPC_ADDRESS=localhost:" +:+ pretty (actualPort h)] in
  let started := trace h ++ [EvCmdStart (ExecutablePath p) env] in
  ∃ err h' p',
    StartPlugin w id h = Done (err, h')
    ∧ heap h' = <[l := p']> (heap h) ∧ registry h' = registry h
    ∧ RestartCount p' = RestartCount p ∧ ID p' = ID p
    ∧ spawns (trace h') = S (spawns (trace h))
    ∧ match w_cmd_Start w (trace h) (ExecutablePath p) env with
      | None =>
          err = None ∧ Status p' = StatusStarting
          ∧ Process p' = Some (length (trace h))
          ∧ Command p' = Some (length (trace h))
          ∧ StartTime p' = w_time_Now w started
          ∧ trace h' = started ++ [EvTimeNow; EvGo (GoMonitor l)]
      | Some e =>
          err = Some ("启动插件进程失败: " +:+ e) ∧ Status p' = StatusError
          ∧ Process p' = Process p ∧ trace h' = started
      end.
Proof.
  intros Hid Hp Hs. cbn zeta. unfold StartPlugin, on_plugin. m_eval.
  rewrite Hid. cbn. rewrite Hp. cbn.
  rewrite bool_decide_eq_false_2 by done. cbn. rewrite Hp.
  unfold startPluginProcess. act_unfold.
  destruct (w_cmd_Start w (trace h) (ExecutablePath p) _) as [e |]; cbn;
    eexists _, _, _; (split; [reflexivity |]); cbn;
    repeat (split; [reflexivity |]);
    (split; [| by rewrite <- ?app_assoc]);
    unfold spawns; rewrite ?List.filter_app, ?length_app; cbn; lia.
Qed.

Lemma StartPlugin_spawns_the_process_witness :
  ∃ err h' p',
    StartPlugin demo_world "calc" host_loaded = Done (err, h')
    ∧ heap h' = <[0%nat := p']> (heap host_loaded)
    ∧ err = None ∧ Status p' = StatusStarting
    ∧ spawns (trace h') = S (spawns (trace host_loaded)).
Proof.
  destruct (StartPlugin_spawns_the_process demo_world host_loaded "calc" 0%nat
              (loaded DefaultHostConfig "calc" "calc.exe" calc_info))
    as (err & h' & p' & Hrun & Hheap & _ & _ & _ & Hsp & Hcase);
    [by vm_compute | by vm_compute | by vm_compute |].
  exists err, h', p'. destruct Hcase as (He & Hs & _).
  repeat split; assumption.
Defined.

(** StopPlugin on a registered record returns no error, also when the
    process cannot be killed. Afterwards the record is stopped and has
    neither process nor connection; the connection it had was closed and
    the process it had was killed, in this order. The record stays
    registered and keeps its restart counter. *)
Theorem StopPlugin_releases_the_record (w : World) (h : PluginHost)
    (id : string) (l : loc) (p : PluginInfo) :
  registry h !! id = Some l → heap h !! l = Some p →
  ∃ h' p',
    StopPlugin w id h = Done (None, h')
    ∧ heap h' = <[l := p']> (heap h) ∧ registry h' = registry h
    ∧ Status p' = StatusStopped
    ∧ Process p' = None ∧ Connection p' = None
    ∧ (is_Some (Connection p) → Client p' = None)
    ∧ same_budget p p' ∧ ID p' = ID p ∧ Command p' = Command p
    ∧ trace h'
      = trace h
        ++ match Connection p with Some c => [EvConnClose c] | None => [] end
        ++ match Process p with Some pid => [EvProcessKill pid] | None => [] end.
Proof.
  intros Hid Hp. unfold StopPlugin, on_plugin. m_eval.
  rewrite Hid. cbn. rewrite Hp. unfold stopPluginProcess. act_unfold.
  destruct (Connection p) as [c |] eqn:Ec, (Process p) as [pid |] eqn:Epid;
    cbn; rewrite ?Epid; cbn;
    eexists _, _; (split; [reflexivity |]); cbn;
    (split; [reflexivity |]); cbn;
    rewrite ?Ec, ?Epid, <- ?app_assoc, ?app_nil_r;
    repeat (split; [by (reflexivity || (intros [? ?]; done)) |]);
    done.
Qed.

Lemma StopPlugin_releases_the_record_witness :
  ∃ h' p',
    StopPlugin demo_world "calc" host_running = Done (None, h')
    ∧ heap h' = <[0%nat := p']> (heap host_running)
    ∧ Status p' = StatusStopped ∧ Process p' = None ∧ Connection p' = None.
Proof.
  destruct (StopPlugin_releases_the_record demo_world host_running "calc" 0%nat
              calc_record)
    as (h' & p' & Hrun & Hheap & _ & Hs & Hp & Hc & _);
    [by vm_compute | by vm_compute |].
  exists h', p'. repeat split; assumption.
Defined.

(** The monitor of a process that sees it exit without error, or while
    the record is stopping, marks the record stopped and starts nothing. *)
Theorem monitor_marks_clean_exit_stopped (w : World) (port : Z) (l : loc)
    (waitErr : error) (p : PluginInfo) (tr : list Event) :
  is_Some (Command p) → waitErr = None ∨ Status p = StatusStopping →
  (monitorPluginProcess w port l waitErr (p, tr)).2
  = (set_Status StatusStopped p, tr).
Proof.
  intros [c Hc] Hclean. unfold monitorPluginProcess. act_unfold. rewrite Hc.
  assert (bool_decide (waitErr ≠ None)
          && bool_decide (Status p ≠ StatusStopping) = false) as ->.
  { destruct Hclean as [-> | ->].
    - by rewrite bool_decide_eq_false_2 by (by intros ?).
    - rewrite (bool_decide_eq_false_2 (StatusStopping ≠ StatusStopping))
        by (by intros ?).
      apply andb_false_r. }
  cbn. by rewrite andb_false_r.
Qed.

Lemma monitor_marks_clean_exit_stopped_witness :
  (monitorPluginProcess demo_world 50052 0%nat None (fragile_record, [])).2
  = (set_Status StatusStopped fragile_record, []).
Proof.
  apply (monitor_marks_clean_exit_stopped demo_world 50052 0%nat None
           fragile_record []); [by eexists | by left].
Defined.

(** A plugin that was stopped is started again when the exit of its
    process is seen afterwards: StopPlugin leaves the record stopped, not
    stopping, so the monitor that sees the killed process exit with an
    error once StopPlugin has returned takes it for a crash, and with
    auto-restart on and budget left it uses one restart and starts the
    executable again. *)
Theorem stopped_plugin_restarts_when_exit_is_seen_late (w : World)
    (h : PluginHost) (id e : string) (l : loc) (p : PluginInfo) :
  registry h !! id = Some l → heap h !! l = Some p →
  is_Some (Command p) → AutoRestart p = true →
  budget_ok p → RestartCount p < MaxRestarts p →
  ∃ h1 h2 p2,
    StopPlugin w id h = Done (None, h1)
    ∧ monitor w l (Some e) h1 = Done (tt, h2)
    ∧ heap h2 !! l = Some p2
    ∧ (Status p2 = StatusStarting ∨ Status p2 = StatusError)
    ∧ RestartCount p2 = RestartCount p + 1
    ∧ spawns (trace h2) = S (spawns (trace h)).
Proof.
  intros Hid Hp Hcmd Hauto Hb Hlt.
  destruct (StopPlugin_releases_the_record w h id l p Hid Hp)
    as (h1 & p1 & Hstop & Hheap & _ & Hs1 & _ & _ & _ & [Ea [Em Ec]] & _
        & Ecmd & Htr).
  assert (heap h1 !! l = Some p1) as Hp1.
  { rewrite Hheap. apply list_lookup_insert_eq. by eapply lookup_lt_Some. }
  assert (budget_ok p1) as Hb1
    by (destruct Hb as (? & ? & ?); unfold budget_ok; by rewrite Em, Ec).
  pose proof (detect_restarts w (actualPort h1) l (ProcessExited e) p1
                (trace h1) Hb1) as Hd.
  cbn [detect crashes] in Hd. cbn zeta in Hd.
  destruct Hd as [_ Hd]; [congruence | split; [congruence | by rewrite Hs1] |].
  assert ((RestartCount p1 <? MaxRestarts p1) = true) as Hlt1
    by (apply Z.ltb_lt; lia).
  rewrite Hlt1 in Hd. destruct Hd as (Hc & Hsp & Hst).
  exists h1. unfold monitor, on_plugin. m_eval. rewrite Hp1.
  destruct (monitorPluginProcess w (actualPort h1) l (Some e) (p1, trace h1))
    as [[] [p2 tr2]]. cbn in *.
  eexists _, p2. split; [exact Hstop |]. split; [reflexivity |]. cbn.
  split; [by apply list_lookup_insert_eq; eapply lookup_lt_Some |].
  split; [exact Hst |]. split; [lia |].
  rewrite Hsp, Htr, !spawns_app.
  destruct (Connection p), (Process p); cbn; lia.
Qed.

Lemma stopped_plugin_restarts_when_exit_is_seen_late_witness :
  ∃ h1 h2 p2,
    StopPlugin demo_world "calc" host_running = Done (None, h1)
    ∧ monitor demo_world 0%nat (Some "signal: killed") h1 = Done (tt, h2)
    ∧ heap h2 !! 0%nat = Some p2
    ∧ (Status p2 = StatusStarting ∨ Status p2 = StatusError)
    ∧ RestartCount p2 = RestartCount calc_record + 1
    ∧ spawns (trace h2) = S (spawns (trace host_running)).
Proof.
  apply (stopped_plugin_restarts_when_exit_is_seen_late demo_world
           host_running "calc" "signal: killed" 0%nat calc_record);
    vm_compute; repeat split; (reflexivity || discriminate || eauto).
Defined.

(** Neither the start sequence, nor a restart by the monitor or by the
    heartbeat sweep, nor the connection back to a plugin releases what the
    record holds: no process is killed and no connection closed. A
    restart leaves the record with the connection and the client it had. *)
Theorem restart_releases_nothing (w : World) (port : Z) (l : loc)
    (p : PluginInfo) (tr : list Event) :
  (∀ d,
     let s := (detect w port l d (p, tr)).2 in
     Connection s.1 = Connection p ∧ Client s.1 = Client p
     ∧ ∃ evs, s.2 = tr ++ evs ∧ Forall (λ e, is_cleanup e = false) evs)
  ∧ (let s := (startPluginProcess w port l (p, tr)).2 in
     Connection s.1 = Connection p ∧ Client s.1 = Client p
     ∧ ∃ evs, s.2 = tr ++ evs ∧ Forall (λ e, is_cleanup e = false) evs)
  ∧ (∃ evs, (connectToPlugin w (p, tr)).2.2 = tr ++ evs
       ∧ Forall (λ e, is_cleanup e = false) evs).
Proof.
  assert (∀ q t,
    let s := (startPluginProcess w port l (q, t)).2 in
    Connection s.1 = Connection q ∧ Client s.1 = Client q
    ∧ ∃ evs, s.2 = t ++ evs ∧ Forall (λ e, is_cleanup e = false) evs) as Hstart.
  { intros q t. cbn zeta. unfold startPluginProcess. act_cases;
      (split; [done |]); (split; [done |]).
    - eexists [_]. split; [done | by repeat constructor].
    - eexists [_; _; _]. rewrite <- !app_assoc.
      split; [done | by repeat constructor]. }
  split; [| split; [apply Hstart |]].
  - intros [e | cfg now]; cbn [detect]; cbn zeta.
    + unfold monitorPluginProcess. act_cases; try not_crashed;
        try (repeat split; try done; exists []; by rewrite app_nil_r).
      match goal with H : startPluginProcess _ _ _ (?x, ?t) = _ |- _ =>
        destruct (Hstart x t) as (Ec & El & evs & Et & Hevs);
        rewrite H in Ec, El, Et
      end.
      cbn in *. rewrite Ec, El, Et. repeat split; try done.
      eexists (_ :: evs). rewrite <- app_assoc. split; [done |].
      by constructor.
    + unfold checkPluginHealth. act_cases;
        try (repeat split; try done; exists []; by rewrite app_nil_r).
      match goal with H : startPluginProcess _ _ _ (?x, ?t) = _ |- _ =>
        destruct (Hstart x t) as (Ec & El & evs & Et & Hevs);
        rewrite H in Ec, El, Et
      end.
      cbn in *. rewrite Ec, El, Et. repeat split; try done. by exists evs.
  - unfold connectToPlugin. act_cases; eexists [_; _]; rewrite <- !app_assoc;
      (split; [done | by repeat constructor]).
Qed.

(** ** Calls *)

(** The host's CallPluginFunction on a registered record: a record that
    is not running gives an error that names its status, a running record
    without client gives the error "client not connected", and in both
    cases the host is left as it is. A running record with a client gets
    one request, with the function name and the parameters of the call
    and no relay target, and its answer or its error is returned as it is;
    the registry and the records stay as they are. *)
Theorem CallPluginFunction_needs_running_connected_plugin (w : World)
    (h : PluginHost) (id functionName : string) (params : list Param.t)
    (l : loc) (p : PluginInfo) :
  registry h !! id = Some l → heap h !! l = Some p →
  (Status p ≠ StatusRunning →
   CallPluginFunction w id functionName params h
   = Done ((None, Some ("插件 " +:+ id +:+ " 状态异常: "
                          +:+ PluginStatus_string (Status p))), h))
  ∧ (Status p = StatusRunning → Client p = None →
     CallPluginFunction w id functionName params h
     = Done ((None, Some ("插件 " +:+ id +:+ " gRPC客户端未连接")), h))
  ∧ (∀ c, Status p = StatusRunning → Client p = Some c →
       ∃ req h',
         CallPluginFunction w id functionName params h
         = Done (match w_client_CallPluginFunction w
                         (trace h ++ [EvTimeNow; EvTimeNow]) c req with
                 | inl resp => (Some resp, None)
                 | inr e => (None, Some e)
                 end, h')
         ∧ CallRequest.FunctionName req = functionName
         ∧ CallRequest.Parameters req = params
         ∧ CallRequest.Metadata req !! "source" = Some "host"
         ∧ CallRequest.Metadata req !! key_target_plugin_id = None
         ∧ trace h' = trace h ++ [EvTimeNow; EvTimeNow; EvClientCall c req]
         ∧ heap h' = heap h ∧ registry h' = registry h).
Proof.
  intros Hid Hp. unfold CallPluginFunction. m_eval. rewrite Hid. cbn.
  rewrite Hp. cbn. split; [| split].
  - intros Hs. by rewrite bool_decide_eq_true_2.
  - intros Hs Hc. rewrite bool_decide_eq_false_2 by (by intros ?).
    by rewrite Hc.
  - intros c Hs Hc. rewrite bool_decide_eq_false_2 by (by intros ?).
    rewrite Hc. unfold time_Now, client_CallPluginFunction. cbn.
    rewrite <- !app_assoc. cbn.
    eexists _, _. split; [reflexivity |]. by repeat split.
Qed.

Lemma CallPluginFunction_needs_running_connected_plugin_witness :
  CallPluginFunction demo_world "calc" "Add" [] host_starting
  = Done ((None, Some "插件 calc 状态异常: starting"), host_starting).
Proof.
  destruct (CallPluginFunction_needs_running_connected_plugin demo_world
              host_starting "calc" "Add" [] 0%nat
              (registered calc_register (w_time_Now demo_world
                                           (trace (after demo_world
                                             (CallStartPlugin "calc")
                                             host_loaded)))
                 (default calc_record
                    (heap (after demo_world (CallStartPlugin "calc")
                             host_loaded) !! 0%nat))))
    as (H & _); [by vm_compute | by vm_compute |].
  apply H. by vm_compute.
Defined.

(** A request to the host's endpoint without relay target is dispatched
    against the host's function table: an unknown name gives a failure
    with code FUNCTION_NOT_FOUND and calls nothing; otherwise the function
    registered under the name is called once, with the parameters of the
    request, and its error gives a failure with code FUNCTION_ERROR and
    the error as message, its result a success that carries it. Each
    response echoes the request ID, the handler returns no error, and the
    registry and the records stay as they are. *)
Theorem CallHostFunction_dispatches_on_the_table (w : World) (h : PluginHost)
    (req : CallRequest.t) :
  CallRequest.Metadata req !! "target_plugin_id" = None →
  (hostFunctions h !! CallRequest.FunctionName req = None →
   ∃ resp, CallHostFunction w req h = Done ((Some resp, None), h)
     ∧ failure_response req "FUNCTION_NOT_FOUND" resp)
  ∧ (∀ fn, hostFunctions h !! CallRequest.FunctionName req = Some (Some fn) →
       ∃ resp h',
         CallHostFunction w req h = Done ((Some resp, None), h')
         ∧ trace h'
           = trace h ++ [EvHostFunction (CallRequest.FunctionName req)
                           (CallRequest.Parameters req)]
         ∧ heap h' = heap h ∧ registry h' = registry h
         ∧ CallResponse.RequestId resp = CallRequest.RequestId req
         ∧ match fn (CallRequest.Parameters req) with
           | (_, Some e) =>
               failure_response req "FUNCTION_ERROR" resp
               ∧ CallResponse.Message resp = e
               ∧ CallResponse.Result resp = None
           | (result, None) =>
               CallResponse.Success resp = true
               ∧ CallResponse.Result resp = result
           end).
Proof.
  intros Hkey. unfold CallHostFunction, key_target_plugin_id. rewrite Hkey.
  m_eval. split.
  - intros ->. eexists. by split.
  - intros fn ->. cbn.
    destruct (fn (CallRequest.Parameters req)) as [result [e |]]; cbn;
      eexists _, _; by repeat split.
Qed.

Lemma CallHostFunction_dispatches_on_the_table_witness :
  ∃ resp,
    CallHostFunction demo_world (add_request []) host_running
    = Done ((Some resp, None), host_running)
    ∧ failure_response (add_request []) "FUNCTION_NOT_FOUND" resp.
Proof.
  destruct (CallHostFunction_dispatches_on_the_table demo_world host_running
              (add_request [])) as [H _]; [by vm_compute |].
  apply H. by vm_compute.
Defined.

(** A host function can be called under its name once it is registered,
    and registering it replaces what was registered under the name, a
    default included; the functions under other names stay. *)
Theorem RegisterHostFunction_then_call (w : World) (h : PluginHost)
    (name requestId : string) (fn : list Param.t → FnResult)
    (params : list Param.t) :
  ∃ h1,
    RegisterHostFunction name (Some fn) h = Done (tt, h1)
    ∧ (∀ name', name' ≠ name →
         hostFunctions h1 !! name' = hostFunctions h !! name')
    ∧ registry h1 = registry h ∧ heap h1 = heap h ∧ trace h1 = trace h
    ∧ ∃ resp h2,
        CallHostFunction w (CallRequest.mk name params requestId ∅) h1
        = Done ((Some resp, None), h2)
        ∧ CallResponse.RequestId resp = requestId
        ∧ match fn params with
          | (_, Some e) =>
              CallResponse.Success resp = false
              ∧ CallResponse.ErrorCode resp = "FUNCTION_ERROR"
              ∧ CallResponse.Message resp = e
          | (result, None) =>
              CallResponse.Success resp = true
              ∧ CallResponse.Result resp = result
          end.
Proof.
  eexists. split; [reflexivity |]. cbn.
  split; [by intros name' Hne; rewrite lookup_insert_ne |].
  repeat (split; [reflexivity |]).
  unfold CallHostFunction, key_target_plugin_id. cbn.
  rewrite lookup_empty. m_eval. rewrite lookup_insert_eq. cbn.
  destruct (fn params) as [result [e |]]; cbn; eexists _, _; by repeat split.
Qed.

(** ** The plugin's side *)

(** The round trip on the plugin's side: a call to a name runs the
    function that was registered last under it; a nil function registered
    under the name makes the handler panic; registering under another
    name does not change the answer. *)
Theorem Plugin_RegisterFunction_then_call (p : Plugin.t) (name : string)
    (fn : list Param.t → FnResult) (params : list Param.t)
    (requestId : string) (md : gmap string string) :
  let req := CallRequest.mk name params requestId md in
  (∃ resp,
     Plugin.CallPluginFunction (Plugin.RegisterFunction name (Some fn) p) req
     = Done (Some resp, None)
     ∧ CallResponse.RequestId resp = requestId
     ∧ match fn params with
       | (_, Some e) =>
           CallResponse.Success resp = false
           ∧ CallResponse.ErrorCode resp = "FUNCTION_ERROR"
           ∧ CallResponse.Message resp = e
       | (result, None) =>
           CallResponse.Success resp = true ∧ CallResponse.Result resp = result
       end)
  ∧ Plugin.CallPluginFunction (Plugin.RegisterFunction name None p) req
    = Panic "invalid memory address or nil pointer dereference"
  ∧ ∀ name' fn', name' ≠ name →
      Plugin.CallPluginFunction (Plugin.RegisterFunction name' fn' p) req
      = Plugin.CallPluginFunction p req.
Proof.
  cbn zeta. unfold Plugin.CallPluginFunction, Plugin.RegisterFunction. cbn.
  split; [| split].
  - rewrite lookup_insert_eq.
    destruct (fn params) as [result [e |]]; eexists; by repeat split.
  - by rewrite lookup_insert_eq.
  - intros name' fn' Hne. by rewrite lookup_insert_ne.
Qed.

(** What a plugin sends with CallOtherPlugin is relayed by the host, and
    what it sends with CallHostFunction is not: the first request names
    its target under the key the host's endpoint looks for, so the host
    treats it as a relay to this target, whatever its function table
    holds; the second has no such key, so it is dispatched against the
    table. Both carry the function name, the parameters and the ID of the
    calling plugin. A plugin without connection to the host panics in
    both. *)
Theorem CallOtherPlugin_reaches_the_relay (w : World) (h : PluginHost)
    (p : Plugin.t) (target functionName : string) (params : list Param.t)
    (t1 t2 : Time) :
  let relayed :=
    PluginCalls.CallOtherPlugin_request p target functionName params t1 t2 in
  let direct :=
    PluginCalls.CallHostFunction_request p functionName params t1 t2 in
  CallHostFunction w relayed h = callPluginFunction w relayed target h
  ∧ (∀ hf, CallHostFunction w relayed (set_hostFunctions hf h)
           = with_hostFunctions hf (CallHostFunction w relayed h))
  ∧ CallRequest.Metadata direct !! key_target_plugin_id = None
  ∧ (hostFunctions h !! functionName = None →
     ∃ resp, CallHostFunction w direct h = Done ((Some resp, None), h)
       ∧ CallResponse.ErrorCode resp = "FUNCTION_NOT_FOUND")
  ∧ CallRequest.FunctionName relayed = functionName
  ∧ CallRequest.Parameters relayed = params
  ∧ CallRequest.Metadata relayed !! "plugin_id" = Some (Plugin.ID p)
  ∧ CallRequest.Metadata direct !! "plugin_id" = Some (Plugin.ID p)
  ∧ PluginCalls.CallOtherPlugin p None target functionName params t1 t2
    = Panic "invalid memory address or nil pointer dereference"
  ∧ PluginCalls.CallHostFunction p None functionName params t1 t2
    = Panic "invalid memory address or nil pointer dereference".
Proof.
  cbn zeta.
  assert (∀ h0, CallHostFunction w
            (PluginCalls.CallOtherPlugin_request p target functionName params
               t1 t2) h0
          = callPluginFunction w
              (PluginCalls.CallOtherPlugin_request p target functionName
                 params t1 t2) target h0) as E by done.
  split; [apply E |]. split.
  { intros hf. rewrite !E. apply callPluginFunction_ignores_hostFunctions. }
  assert (CallRequest.Metadata
            (PluginCalls.CallHostFunction_request p functionName params t1 t2)
            !! key_target_plugin_id = None) as Hk by done.
  split; [exact Hk |]. split; [| done].
  intros Hfn. unfold CallHostFunction. rewrite Hk. m_eval.
  change (CallRequest.FunctionName
            (PluginCalls.CallHostFunction_request p functionName params t1 t2))
    with functionName.
  rewrite Hfn. eexists. by split.
Qed.

(** ** Starting the host *)

Lemma set_trace_same (h : PluginHost) : set_trace (trace h) h = h.
Proof. by destruct h. Qed.

Section PortScan.
Context (w : World).

(** The loop of [startGrpcServer] tries the ports in ascending order and
    stops at the first one it can listen on. *)
Lemma listen_loop_first_free (k : nat) :
  ∀ fuel port maxPort h,
    (k < fuel)%nat → int64_min <= port → port + Z.of_nat k <= maxPort →
    maxPort < int64_max →
    (∀ i, (i < k)%nat →
       is_Some (w_net_Listen w (trace h ++ listens port i)
                  (":" +:+ pretty (port + Z.of_nat i)))) →
    w_net_Listen w (trace h ++ listens port k)
      (":" +:+ pretty (port + Z.of_nat k)) = None →
    listen_loop w fuel port maxPort h
    = Done (Some (port + Z.of_nat k),
            set_trace (trace h ++ listens port (S k)) h).
Proof.
  induction k as [| k IH]; intros fuel port maxPort h Hfuel Hlo Hhi Hmax Htaken Hfree;
    (destruct fuel as [| fuel]; [lia |]); cbn [listen_loop].
  - rewrite Z.add_0_r in *. cbn [listens] in *. rewrite app_nil_r in Hfree.
    rewrite (proj2 (Z.leb_le _ _)) by lia.
    unfold net_Listen. m_eval. by rewrite Hfree.
  - rewrite (proj2 (Z.leb_le _ _)) by lia.
    unfold net_Listen. m_eval.
    destruct (Htaken 0%nat) as [e He]; [lia |].
    cbn [listens] in He. rewrite app_nil_r, Z.add_0_r in He. rewrite He.
    rewrite wrap64_id by int64_lia.
    rewrite (IH fuel (port + 1) maxPort); cbn [trace set_trace]; try lia.
    + f_equal. f_equal; [f_equal; lia |].
      cbn. by rewrite <- app_assoc.
    + intros i Hi. specialize (Htaken (S i)). cbn [listens] in Htaken.
      rewrite <- app_assoc. cbn.
      replace (port + 1 + Z.of_nat i) with (port + Z.of_nat (S i)) by lia.
      apply Htaken. lia.
    + rewrite <- app_assoc. cbn. cbn [listens] in Hfree.
      replace (port + 1 + Z.of_nat k) with (port + Z.of_nat (S k)) by lia.
      exact Hfree.
Qed.

(** When every port of the range is taken the loop tries each of them
    once and leaves no listener. *)
Lemma listen_loop_all_taken (n : nat) :
  ∀ fuel port maxPort h,
    (n <= fuel)%nat → int64_min <= port → maxPort < int64_max →
    Z.of_nat n = Z.max 0 (maxPort - port + 1) →
    (∀ i, (i < n)%nat →
       is_Some (w_net_Listen w (trace h ++ listens port i)
                  (":" +:+ pretty (port + Z.of_nat i)))) →
    listen_loop w fuel port maxPort h
    = Done (None, set_trace (trace h ++ listens port n) h).
Proof.
  induction n as [| n IH]; intros fuel port maxPort h Hfuel Hlo Hmax Hn Htaken.
  - cbn [listens]. rewrite app_nil_r, set_trace_same.
    destruct fuel; cbn [listen_loop];
      by rewrite (proj2 (Z.leb_gt _ _)) by lia.
  - destruct fuel as [| fuel]; [lia |]. cbn [listen_loop].
    rewrite (proj2 (Z.leb_le _ _)) by lia.
    unfold net_Listen. m_eval.
    destruct (Htaken 0%nat) as [e He]; [lia |].
    cbn [listens] in He. rewrite app_nil_r, Z.add_0_r in He. rewrite He.
    rewrite wrap64_id by int64_lia.
    rewrite (IH fuel (port + 1) maxPort); cbn [trace set_trace]; try lia.
    + f_equal. f_equal. cbn. by rewrite <- app_assoc.
    + intros i Hi. specialize (Htaken (S i)). cbn [listens] in Htaken.
      rewrite <- app_assoc. cbn.
      replace (port + 1 + Z.of_nat i) with (port + Z.of_nat (S i)) by lia.
      apply Htaken. lia.
Qed.

End PortScan.

(** Start with no explicit port and a port range [a, b]: the ports are
    tried from [a] upwards, and the first one that is free (here the one
    [k] above [a]) becomes the port of the host; the server and the
    heartbeat sweep are launched, the ticker has the configured interval,
    and no plugin is touched. *)
Theorem Start_binds_first_free_port (w : World) (h : PluginHost)
    (a b : Z) (rest : list Z) (k fuel : nat) :
  PortRange (config h) = a :: b :: rest → cfg_Port (config h) <= 0 →
  0 < HeartbeatInterval (config h) →
  (k < fuel)%nat → int64_min <= a → a + Z.of_nat k <= b → b < int64_max →
  (∀ i, (i < k)%nat →
     is_Some (w_net_Listen w (trace h ++ listens a i)
                (":" +:+ pretty (a + Z.of_nat i)))) →
  w_net_Listen w (trace h ++ listens a k)
    (":" +:+ pretty (a + Z.of_nat k)) = None →
  ∃ h',
    Start w fuel h = Done (None, h')
    ∧ actualPort h' = a + Z.of_nat k
    ∧ listener h' = Some (a + Z.of_nat k)
    ∧ grpcServer h' = true
    ∧ heartbeatTicker h' = Some (HeartbeatInterval (config h))
    ∧ trace h'
      = trace h ++ listens a (S k)
        ++ [EvGo (GoServe (a + Z.of_nat k)); EvGo GoHeartbeatSweep]
    ∧ registry h' = registry h ∧ heap h' = heap h
    ∧ hostFunctions h' = hostFunctions h.
Proof.
  intros Hrange Hport Hint Hfuel Hlo Hhi Hmax Htaken Hfree.
  unfold Start, startGrpcServer, startMonitoring, index.
  unfold mbind at 1, M_bind at 1. unfold mbind at 1, M_bind at 1.
  unfold host at 1. rewrite Hrange. cbn [lookup list_lookup].
  m_eval. rewrite (proj2 (Z.ltb_ge _ _)) by lia.
  rewrite (listen_loop_first_free w k fuel a b h) by done.
  cbn. rewrite (proj2 (Z.leb_gt _ _)) by done. cbn.
  eexists. split; [reflexivity |]. cbn. rewrite <- !app_assoc.
  by repeat split.
Qed.

Lemma Start_binds_first_free_port_witness :
  ∃ h',
    Start demo_world 50 host_fresh = Done (None, h')
    ∧ actualPort h' = 50051 + Z.of_nat 1
    ∧ listener h' = Some (50051 + Z.of_nat 1)
    ∧ grpcServer h' = true.
Proof.
  destruct (Start_binds_first_free_port demo_world host_fresh 50051 50100 []
              1 50)
    as (h' & Hrun & Hport & Hl & Hs & _).
  - reflexivity.
  - vm_compute. discriminate.
  - reflexivity.
  - lia.
  - vm_compute. discriminate.
  - vm_compute. discriminate.
  - reflexivity.
  - intros i Hi. assert (i = 0%nat) as -> by lia. vm_compute. by eexists.
  - vm_compute. reflexivity.
  - exists h'. repeat split; assumption.
Defined.

(** Start with an explicit port and a port range of two entries: only the
    explicit port is tried, whatever the range says. It becomes the port
    of the host if it is free; if it is taken Start returns the error
    that names the port as the range tried, and launches nothing: the
    host has the listener, the server and the ticker it had. *)
Theorem Start_tries_only_the_explicit_port (w : World) (h : PluginHost)
    (a b : Z) (rest : list Z) (fuel : nat) :
  PortRange (config h) = a :: b :: rest →
  0 < cfg_Port (config h) < int64_max →
  0 < HeartbeatInterval (config h) → (0 < fuel)%nat →
  let port := cfg_Port (config h) in
  let tried := trace h ++ [EvNetListen (":" +:+ pretty port)] in
  match w_net_Listen w (trace h) (":" +:+ pretty port) with
  | None =>
      ∃ h', Start w fuel h = Done (None, h')
        ∧ actualPort h' = port ∧ listener h' = Some port
        ∧ trace h' = tried ++ [EvGo (GoServe port); EvGo GoHeartbeatSweep]
  | Some _ =>
      ∃ h', Start w fuel h
            = Done (Some ("启动gRPC服务器失败: 无法找到可用端口 (尝试范围: "
                          +:+ pretty port +:+ "-" +:+ pretty port +:+ ")"), h')
        ∧ listener h' = listener h ∧ grpcServer h' = grpcServer h
        ∧ heartbeatTicker h' = heartbeatTicker h
        ∧ trace h' = tried
  end.
Proof.
  intros Hrange Hport Hint Hfuel. cbn zeta.
  destruct (w_net_Listen w (trace h) (":" +:+ pretty (cfg_Port (config h))))
    as [e |] eqn:E;
    unfold Start, startGrpcServer, startMonitoring, index;
    unfold mbind at 1, M_bind at 1; unfold mbind at 1, M_bind at 1;
    unfold host at 1; rewrite Hrange; cbn [lookup list_lookup];
    m_eval; rewrite (proj2 (Z.ltb_lt _ _)) by lia.
  - rewrite (listen_loop_all_taken w 1 fuel (cfg_Port (config h))
               (cfg_Port (config h)) h); try (int64_lia || lia).
    + cbn. eexists. split; [reflexivity |]. by repeat split.
    + intros i Hi. assert (i = 0%nat) as -> by lia.
      cbn [listens]. rewrite app_nil_r, Z.add_0_r. by eexists.
  - rewrite (listen_loop_first_free w 0 fuel (cfg_Port (config h))
               (cfg_Port (config h)) h); try (int64_lia || lia).
    + cbn. rewrite (proj2 (Z.leb_gt _ _)) by done. cbn.
      rewrite Z.add_0_r.
      eexists. split; [reflexivity |]. cbn. rewrite <- !app_assoc.
      by repeat split.
    + cbn [listens]. by rewrite app_nil_r, Z.add_0_r.
Qed.

Lemma Start_tries_only_the_explicit_port_witness :
  ∃ h',
    Start demo_world 1
      (NewPluginHost
         (Some (mkHostConfig 50051 [50051; 50100] true "" "" (10 * Second) 3
                  false false)) ∅)
    = Done (Some ("启动gRPC服务器失败: 无法找到可用端口 (尝试范围: "
                  +:+ pretty 50051 +:+ "-" +:+ pretty 50051 +:+ ")"), h')
    ∧ listener h' = None ∧ trace h' = [EvNetListen ":50051"].
Proof.
  pose proof (Start_tries_only_the_explicit_port demo_world
                (NewPluginHost
                   (Some (mkHostConfig 50051 [50051; 50100] true "" ""
                            (10 * Second) 3 false false)) ∅)
                50051 50100 [] 1 eq_refl) as H.
  destruct H as (h' & Hrun & Hl & _ & _ & Htr);
    [by vm_compute | by vm_compute | lia |].
  by exists h'.
Defined.



(** ** Looking a record up in a listing *)

(** The search through a listing finds nothing when no record of the
    listing passes the test, and leaves the host alone. *)
Lemma find_plugin_none test plugins h :
  (∀ l, l ∈ plugins → ∃ p, heap h !! l = Some p ∧ test p = false) →
  find_plugin test plugins h = Done (None, h).
Proof.
  induction plugins as [| l rest IH]; intros Hall; cbn; [done |].
  destruct (Hall l) as (p & Hp & Ht); [left |].
  m_eval. rewrite Hp. cbn. rewrite Ht. apply IH.
  intros l' Hl'. apply Hall. by right.
Qed.

(** The search returns the first record of the listing when it passes the
    test. *)
Lemma find_plugin_head test l rest h p :
  heap h !! l = Some p → test p = true →
  find_plugin test (l :: rest) h = Done (Some l, h).
Proof. intros Hp Ht. cbn. m_eval. rewrite Hp. cbn. by rewrite Ht. Qed.

(** The search returns some record of the listing that passes the test
    when there is one and the pointers of the listing are valid. *)
Lemma find_plugin_some test plugins h l p :
  (∀ l', l' ∈ plugins → is_Some (heap h !! l')) →
  l ∈ plugins → heap h !! l = Some p → test p = true →
  ∃ l' p', find_plugin test plugins h = Done (Some l', h)
    ∧ l' ∈ plugins ∧ heap h !! l' = Some p' ∧ test p' = true.
Proof.
  induction plugins as [| l0 rest IH]; intros Hvalid Hin Hp Ht.
  - by apply elem_of_nil in Hin.
  - destruct (Hvalid l0) as [p0 Hp0]; [left |].
    cbn. m_eval. rewrite Hp0. cbn.
    destruct (test p0) eqn:E0.
    + exists l0, p0. split; [done |]. split; [left | done].
    + apply elem_of_cons in Hin as [-> | Hin]; [congruence |].
      destruct IH as (l' & p' & Hrun & Hin' & Hp' & Ht'); try done.
      { intros l' Hl'. apply Hvalid. by right. }
      exists l', p'. split; [done |]. split; [by right | done].
Qed.

(** ** StartPluginByPath *)

(** StartPluginByPath on a path that a registered record already has
    returns such a record and does nothing else: the host is as before,
    so the plugin is not started, whatever its status. *)
Theorem StartPluginByPath_leaves_a_loaded_plugin_alone (w : World)
    (cfg : option HostConfig) (defaults : gmap string HostFunction)
    (h : PluginHost) (plugins : list loc) (path : string) (l : loc)
    (p : PluginInfo) :
  serially_reachable w cfg defaults h →
  PluginRegistry.is_listing (registry h) plugins →
  l ∈ plugins → heap h !! l = Some p → ExecutablePath p = path →
  ∃ l' p',
    StartPluginByPath w plugins path h = Done ((Some l', None), h)
    ∧ l' ∈ plugins ∧ heap h !! l' = Some p' ∧ ExecutablePath p' = path.
Proof.
  intros [Hr _]%serially_reachable_inv Hlist Hin Hp Hpath.
  destruct (find_plugin_some
              (λ plugin, bool_decide (ExecutablePath plugin = path))
              plugins h l p) as (l' & p' & Hfind & Hin' & Hp' & Ht');
    [| done | done | by apply bool_decide_eq_true_2 |].
  { intros l0 Hl0. destruct (is_listing_elem _ _ _ Hlist Hl0) as [id Hid].
    destruct (Hr _ _ Hid) as (p0 & Hp0 & _). by exists p0. }
  exists l', p'. unfold StartPluginByPath.
  unfold mbind at 1, M_bind at 1. rewrite Hfind.
  split; [done |]. split; [done |]. split; [done |].
  by apply bool_decide_eq_true_1 in Ht'.
Qed.

Lemma StartPluginByPath_leaves_a_loaded_plugin_alone_witness :
  ∃ l' p',
    StartPluginByPath demo_world [0%nat] "calc.exe" host_loaded
    = Done ((Some l', None), host_loaded)
    ∧ l' ∈ [0%nat] ∧ heap host_loaded !! l' = Some p'
    ∧ ExecutablePath p' = "calc.exe".
Proof.
  apply (StartPluginByPath_leaves_a_loaded_plugin_alone demo_world None ∅
           host_loaded [0%nat] "calc.exe" 0%nat
           (loaded DefaultHostConfig "calc" "calc.exe" calc_info)
           host_loaded_serial);
    [by vm_compute | left | by vm_compute | reflexivity].
Defined.

(** StartPluginByPath on a path that no registered record has loads the
    plugin and then starts it under the ID it was loaded with: it returns
    the record of LoadPlugin and the error of StartPlugin; when loading
    fails it returns the error of LoadPlugin and no record. *)
Theorem StartPluginByPath_loads_then_starts (w : World) (h : PluginHost)
    (plugins : list loc) (path : string) :
  (∀ l, l ∈ plugins → ∃ p, heap h !! l = Some p ∧ ExecutablePath p ≠ path) →
  match LoadPlugin w path h with
  | Done ((Some l, None), h1) =>
      ∃ p, heap h1 !! l = Some p
        ∧ StartPluginByPath w plugins path h
          = match StartPlugin w (ID p) h1 with
            | Done (err, h2) => Done ((Some l, err), h2)
            | Panic msg => Panic msg
            | OutOfFuel => OutOfFuel
            end
  | Done ((_, Some e), h1) =>
      StartPluginByPath w plugins path h = Done ((None, Some e), h1)
  | _ => True
  end.
Proof.
  intros Hall.
  assert (find_plugin (λ plugin, bool_decide (ExecutablePath plugin = path))
            plugins h = Done (None, h)) as Hfind.
  { apply find_plugin_none. intros l Hl.
    destruct (Hall l Hl) as (p & Hp & Hne). exists p.
    split; [done |]. by apply bool_decide_eq_false_2. }
  destruct (LoadPlugin w path h) as [[[[l |] [e |]] h1] | |] eqn:Eload;
    try done;
    try (unfold StartPluginByPath; unfold mbind at 1, M_bind at 1;
         rewrite Hfind; unfold mbind at 1, M_bind at 1; by rewrite Eload).
  pose proof Eload as Hload.
  apply LoadPlugin_Done in Hload
    as [(_ & [? [=]] & _) | (id & info & [= ->] & Eh & _)].
  exists (loaded (config h) id path info).
  split; [by rewrite Eh, lookup_app_r, Nat.sub_diag |].
  unfold StartPluginByPath. unfold mbind at 1, M_bind at 1.
  rewrite Hfind. unfold mbind at 1, M_bind at 1. rewrite Eload.
  unfold mbind at 1, M_bind at 1. unfold deref.
  rewrite Eh, lookup_app_r, Nat.sub_diag by done. cbn.
  unfold mbind, M_bind, mret, M_ret.
  by destruct (StartPlugin w id h1) as [[err h2] | |].
Qed.

Lemma StartPluginByPath_loads_then_starts_witness :
  ∃ h2, StartPluginByPath demo_world [] "calc.exe" host_fresh
        = Done ((Some 0%nat, None), h2)
    ∧ spawns (trace h2) = 1%nat.
Proof.
  pose proof (StartPluginByPath_loads_then_starts demo_world host_fresh []
                "calc.exe") as H.
  assert (LoadPlugin demo_world "calc.exe" host_fresh
          = Done ((Some 0%nat, None),
                  after demo_world (CallLoadPlugin "calc.exe") host_fresh))
    as Eload by (by vm_compute).
  rewrite Eload in H. destruct H as (p & Hp & ->).
  { intros l Hl. by apply elem_of_nil in Hl. }
  vm_compute in Hp. injection Hp as <-.
  exists (after demo_world (CallStartPlugin "calc")
            (after demo_world (CallLoadPlugin "calc.exe") host_fresh)).
  split; by vm_compute.
Defined.

(** ** Registration *)

(** A registration request is refused when no record of the registry has
    its ID and none is starting: the response says so, the handler
    returns no error, and the host is as before. A plugin the host did
    not load cannot register itself. *)
Theorem RegisterPlugin_refuses_unknown_plugin (w : World) (h : PluginHost)
    (plugins : list loc) (req : RegisterRequest.t) :
  (∀ l, l ∈ plugins →
     ∃ p, heap h !! l = Some p ∧ ID p ≠ RegisterRequest.PluginId req
       ∧ Status p ≠ StatusStarting) →
  ∃ resp,
    RegisterPlugin w plugins req h = Done ((Some resp, None), h)
    ∧ RegisterResponse.Success resp = false.
Proof.
  intros Hall. unfold RegisterPlugin.
  unfold mbind at 1, M_bind at 1. rewrite find_plugin_none.
  - eexists. by split.
  - intros l Hl. destruct (Hall l Hl) as (p & Hp & Hid & Hs). exists p.
    split; [done |]. by rewrite !bool_decide_eq_false_2.
Qed.

Lemma RegisterPlugin_refuses_unknown_plugin_witness :
  ∃ resp,
    RegisterPlugin demo_world [0%nat]
      (RegisterRequest.mk "notes" "Notes" "0.1" "" 40001 []) host_loaded
    = Done ((Some resp, None), host_loaded)
    ∧ RegisterResponse.Success resp = false.
Proof.
  apply (RegisterPlugin_refuses_unknown_plugin demo_world host_loaded [0%nat]
           (RegisterRequest.mk "notes" "Notes" "0.1" "" 40001 [])).
  intros l Hl. apply list_elem_of_singleton in Hl as ->.
  eexists. split; [by vm_compute |]. by vm_compute.
Defined.

(** ** Goroutines *)



(** However the goroutines of the host interleave, an ID of the registry
    leads to a record: GetPlugin returns a pointer that can be read. *)
Theorem registry_pointers_stay_valid (w : World) (cfg : option HostConfig)
    (defaults : gmap string HostFunction) (h : PluginHost) (id : string)
    (l : loc) :
  reachable w cfg defaults h → registry h !! id = Some l →
  GetPlugin id h = Done (Some l, h) ∧ ∃ p, deref l h = Done (p, h).
Proof.
  intros Hv%reachable_valid Hid. split.
  - unfold GetPlugin. m_eval. by rewrite Hid.
  - destruct (Hv _ _ Hid) as [p Hp]. exists p. unfold deref. by rewrite Hp.
Qed.

Lemma registry_pointers_stay_valid_witness :
  GetPlugin "calc" host_raced = Done (Some 0%nat, host_raced)
  ∧ ∃ p, deref 0%nat host_raced = Done (p, host_raced).
Proof.
  apply (registry_pointers_stay_valid demo_world None ∅ host_raced "calc"
           0%nat host_raced_reachable).
  vm_compute. reflexivity.
Defined.

(** The test of the client in the host's CallPluginFunction does not
    protect the call: when StopPlugin runs between the test and the call,
    the goroutine of CallPluginFunction finds the client nil at the call
    and panics. *)
Theorem CallPluginFunction_test_then_call_races :
  next_panic demo_world None stop_during_call 5
  = Some "invalid memory address or nil pointer dereference".
Proof. by vm_compute. Qed.
